(** * Function-train regression of the C3 toolbox

    A shallow embedding of the regression layer (regress.c: [FTparam],
    [RegressionMemManager], the all-at-once and alternating objectives, the
    drivers, rank adaptation and cross validation), of the older per-core
    objective [regress_core_LS], and of the function monitor with its hash
    table (monitoring.c).

    Conventions of the embedding.
    - A C [double] is a binary64 primitive float; [isnan] and [isinf] are the
      kernel's classification.
    - A [size_t] that counts or indexes entries of an allocated buffer is a
      [nat]; where the code does arithmetic on caller-chosen values (the rank
      kick, the string hash) the 64-bit wrap-around is written out.
    - A heap buffer is a list.  Reading outside a buffer is undefined in C;
      the model reads [0] there, a store outside a buffer is dropped, and the
      statements carry the length conditions under which no such access
      happens.
    - [exit(1)] is the outcome [Exits] carrying the diagnostic that was
      printed; a failed [assert] is [Exits] too.
    - External collaborators (the function train, BLAS, the optimizer, the
      text serialisation) are parameters of the sections that use them. *)

From Stdlib Require Import Floats ZArith Lia String Ascii Permutation.
From stdpp Require Import base tactics list.

Set Warnings "-inexact-float".

(** ** Doubles, buffers and counted loops *)

Definition double := float.

Definition isnan (v : double) : bool := PrimFloat.is_nan v.
Definition isinf (v : double) : bool := PrimFloat.is_infinity v.
Definition fabs (v : double) : double := PrimFloat.abs v.

(** [(double) n] for a [size_t] below [2^63]. *)
Definition double_of_size_t (n : nat) : double :=
  PrimFloat.of_uint63 (Uint63.of_Z (Z.of_nat n)).

(** [buf[i]] for a buffer of doubles and for a buffer of [size_t]. *)
Definition rd (l : list double) (i : nat) : double := nth i l 0%float.
Definition rdn (l : list nat) (i : nat) : nat := nth i l 0.

(** [n] consecutive doubles read from [src + off]. *)
Definition read_n (src : list double) (off n : nat) : list double :=
  map (fun k => rd src (off + k)) (seq 0 n).

(** [memmove(dst + off, src + soff, n * sizeof(double))]. *)
Definition memmove (dst : list double) (off : nat)
    (src : list double) (soff n : nat) : list double :=
  list_inserts off (read_n src soff n) dst.

Definition calloc_double (n : nat) : list double := replicate n 0%float.
Definition calloc_size_t (n : nat) : list nat := replicate n 0.

(** [for (i = lo; i < lo + n; i++) s = body i s]. *)
Fixpoint for_loop {St : Type} (lo n : nat) (body : nat -> St -> St) (s : St) : St :=
  match n with
  | O => s
  | S n' => for_loop (S lo) n' body (body lo s)
  end.

(** Outcome of a call that may terminate the process.  [Unfinished] is not
    a behaviour of the program: it is the answer of a definition that was
    given too small a bound on the nesting of its calls. *)
Inductive outcome (A : Type) : Type :=
  | Returns (a : A)
  | Exits (diagnostic : string)
  | Unfinished.
Arguments Returns {A} a.
Arguments Exits {A} diagnostic.
Arguments Unfinished {A}.

#[global] Instance outcome_ret : MRet outcome := fun _ a => Returns a.
#[global] Instance outcome_bind : MBind outcome := fun _ _ k m =>
  match m with
  | Returns a => k a
  | Exits d => Exits d
  | Unfinished => Unfinished
  end.

(** A counted loop whose body may terminate the process. *)
Fixpoint for_loop_m {St : Type} (lo n : nat)
    (body : nat -> St -> outcome St) (s : St) : outcome St :=
  match n with
  | O => Returns s
  | S n' => s' ← body lo s; for_loop_m (S lo) n' body s'
  end.

(** ** The function train and the approximation options *)

(** Modelled from the spec: the approximation options are an external
    collaborator answering, per dimension, [nparams(dim) -> count] and
    [is_linear(dim) -> bool]. *)
Record MultiApproxOpts : Type := mkAopts {
  aopts_nparams : list nat;
  aopts_linear : list bool
}.

Definition multi_approx_opts_get_dim_nparams (a : MultiApproxOpts) (ii : nat) : nat :=
  rdn (aopts_nparams a) ii.

Definition multi_approx_opts_linear_p (a : MultiApproxOpts) (ii : nat) : bool :=
  nth ii (aopts_linear a) false.

(** Modelled from the spec: the function train (ft.c) is an external
    collaborator; of it the regression layer uses the ranks ([dim+1] of
    them), the number of parameters of each core and the parameter values,
    which [function_train_update_params] overwrites and
    [function_train_get_params] reads back.  Evaluation, gradients, rounding
    and norms are parameters of the sections below. *)
Record FunctionTrain : Type := mkFT {
  ft_dim : nat;
  ranks : list nat;
  ft_core_nparams : list nat;
  ft_vals : list double
}.

Definition function_train_get_ranks (f : FunctionTrain) : list nat := ranks f.
Definition function_train_get_nparams (f : FunctionTrain) : nat := length (ft_vals f).
Definition function_train_copy (f : FunctionTrain) : FunctionTrain := f.

Definition function_train_zeros (a : MultiApproxOpts) (d : nat) (rks : list nat)
    : FunctionTrain :=
  let per_core :=
    map (fun jj => rdn rks jj * rdn rks (jj + 1) * multi_approx_opts_get_dim_nparams a jj)
        (seq 0 d) in
  mkFT d (take (d + 1) (rks ++ replicate (d + 1) 0)) per_core
       (calloc_double (foldr Nat.add 0 per_core)).

Definition function_train_update_params (f : FunctionTrain) (p : list double)
    : FunctionTrain :=
  mkFT (ft_dim f) (ranks f) (ft_core_nparams f) (read_n p 0 (length (ft_vals f))).

Definition function_train_get_params (f : FunctionTrain) : list double := ft_vals f.

Definition ft_core_offset (f : FunctionTrain) (core : nat) : nat :=
  foldr Nat.add 0 (take core (ft_core_nparams f)).

Definition function_train_core_update_params (f : FunctionTrain) (core n : nat)
    (p : list double) : FunctionTrain :=
  mkFT (ft_dim f) (ranks f) (ft_core_nparams f)
       (memmove (ft_vals f) (ft_core_offset f core) p 0 n).

Definition function_train_core_get_params (f : FunctionTrain) (core : nat)
    : list double :=
  read_n (ft_vals f) (ft_core_offset f core) (rdn (ft_core_nparams f) core).

(** ** The parameterised function train *)

Record FTparam : Type := mkFTparam {
  ftp_ft : FunctionTrain;
  ftp_dim : nat;
  nparams_per_uni : list nat;
  nparams_per_core : list nat;
  max_param_uni : nat;
  nparams : nat;
  params : list double;
  approx_opts : MultiApproxOpts
}.

Definition set_params (ftp : FTparam) (p : list double) (f : FunctionTrain) : FTparam :=
  mkFTparam f (ftp_dim ftp) (nparams_per_uni ftp) (nparams_per_core ftp)
            (max_param_uni ftp) (nparams ftp) p (approx_opts ftp).

(** [ft_param_alloc]: the per-core and per-function counts follow from the
    ranks; [prm] is the optional initial parameter vector. *)
Definition ft_param_alloc (d : nat) (aopts : MultiApproxOpts)
    (prm : option (list double)) (rks : list nat) : FTparam :=
  let np := multi_approx_opts_get_dim_nparams aopts in
  let per_core := map (fun jj => rdn rks jj * rdn rks (jj + 1) * np jj) (seq 0 d) in
  let n := foldr Nat.add 0 per_core in
  let per_uni :=
    flat_map (fun jj => replicate (rdn rks jj * rdn rks (jj + 1)) (np jj)) (seq 0 d) in
  let mx := foldl Nat.max 0 per_uni in
  let f := function_train_zeros aopts d rks in
  match prm with
  | None => mkFTparam f d per_uni per_core mx n (calloc_double n) aopts
  | Some p =>
      let p' := memmove (calloc_double n) 0 p 0 n in
      mkFTparam (function_train_update_params f p') d per_uni per_core mx n p' aopts
  end.

Definition ft_param_get_nparams (ftp : FTparam) : nat := nparams ftp.

Definition ft_param_update_params (ftp : FTparam) (p : list double) : FTparam :=
  let p' := memmove (params ftp) 0 p 0 (nparams ftp) in
  set_params ftp p' (function_train_update_params (ftp_ft ftp) p').

(** Counters and buffer of the restricted updates; [stores] records, in
    program order, the indices of [ftp->params] that were assigned. *)
Record upd_state : Type := mkUpd {
  ind : nat;
  onparam_new : nat;
  onparam_general : nat;
  buf : list double;
  stores : list nat
}.

Definition upd_store (src : list double) (s : upd_state) : upd_state :=
  mkUpd (ind s) (S (onparam_new s)) (onparam_general s)
        (<[onparam_general s := rd src (onparam_new s)]> (buf s))
        (stores s ++ [onparam_general s]).

Definition upd_next_param (s : upd_state) : upd_state :=
  mkUpd (ind s) (onparam_new s) (S (onparam_general s)) (buf s) (stores s).

Definition upd_next_func (s : upd_state) : upd_state :=
  mkUpd (S (ind s)) (onparam_new s) (onparam_general s) (buf s) (stores s).

Definition ft_param_update_restricted_ranks (ftp : FTparam) (prm : list double)
    (rank_start : list nat) : FTparam * list nat :=
  let rks := ranks (ftp_ft ftp) in
  let s :=
    for_loop 0 (ftp_dim ftp) (fun kk =>
      for_loop 0 (rdn rks (kk + 1)) (fun jj =>
        for_loop 0 (rdn rks kk) (fun ii s0 =>
          upd_next_func
            (for_loop 0 (rdn (nparams_per_uni ftp) (ind s0)) (fun ll s =>
               upd_next_param
                 (if 0 <? kk then
                    if (rdn rank_start (kk - 1) <=? ii) || (rdn rank_start kk <=? jj)
                    then upd_store prm s else s
                  else
                    if rdn rank_start kk <=? jj then upd_store prm s else s))
               s0))))
      (mkUpd 0 0 0 (params ftp) []) in
  (set_params ftp (buf s) (function_train_update_params (ftp_ft ftp) (buf s)), stores s).

Definition ft_param_update_inside_restricted_ranks (ftp : FTparam) (prm : list double)
    (rank_start : list nat) : FTparam * list nat :=
  let rks := ranks (ftp_ft ftp) in
  let s :=
    for_loop 0 (ftp_dim ftp) (fun kk =>
      for_loop 0 (rdn rks (kk + 1)) (fun jj =>
        for_loop 0 (rdn rks kk) (fun ii s0 =>
          upd_next_func
            (for_loop 0 (rdn (nparams_per_uni ftp) (ind s0)) (fun ll s =>
               upd_next_param
                 (if 0 <? kk then
                    if (ii <? rdn rank_start (kk - 1)) && (jj <? rdn rank_start kk)
                    then upd_store prm s else s
                  else
                    if jj <? rdn rank_start kk then upd_store prm s else s))
               s0))))
      (mkUpd 0 0 0 (params ftp) []) in
  (set_params ftp (buf s) (function_train_update_params (ftp_ft ftp) (buf s)), stores s).

(** The univariate functions of the train in the order both restricted
    updates visit them: dimension [kk], then output-rank index [jj], then
    input-rank index [ii]. *)
Definition rank_pairs (ftp : FTparam) : list (nat * nat * nat) :=
  let rks := ranks (ftp_ft ftp) in
  flat_map (fun kk =>
    flat_map (fun jj => map (fun ii => (kk, jj, ii)) (seq 0 (rdn rks kk)))
             (seq 0 (rdn rks (kk + 1))))
    (seq 0 (ftp_dim ftp)).

(** The function at [(kk, jj, ii)] is at or above the thresholds. *)
Definition restricted_p (rank_start : list nat) (t : nat * nat * nat) : bool :=
  let '(kk, jj, ii) := t in
  if 0 <? kk then (rdn rank_start (kk - 1) <=? ii) || (rdn rank_start kk <=? jj)
  else rdn rank_start kk <=? jj.

Definition inside_p (rank_start : list nat) (t : nat * nat * nat) : bool :=
  let '(kk, jj, ii) := t in
  if 0 <? kk then (ii <? rdn rank_start (kk - 1)) && (jj <? rdn rank_start kk)
  else jj <? rdn rank_start kk.

(** One flag per entry of the flat buffer: the flag of the function that
    owns the entry, repeated once per parameter of that function. *)
Fixpoint mask_from (npu : list nat) (c : nat * nat * nat -> bool) (i : nat)
    (ts : list (nat * nat * nat)) : list bool :=
  match ts with
  | [] => []
  | t :: ts' => replicate (rdn npu i) (c t) ++ mask_from npu c (S i) ts'
  end.

Definition param_mask (c : nat * nat * nat -> bool) (ftp : FTparam) : list bool :=
  mask_from (nparams_per_uni ftp) c 0 (rank_pairs ftp).

(** The entries of [v] whose flag is set, in order. *)
Fixpoint select (m : list bool) (v : list double) : list double :=
  match m, v with
  | b :: m', x :: v' => if b then x :: select m' v' else select m' v'
  | _, _ => []
  end.

(** The indices, counted from [g], whose flag is set. *)
Fixpoint true_positions (g : nat) (m : list bool) : list nat :=
  match m with
  | [] => []
  | b :: m' => if b then g :: true_positions (S g) m' else true_positions (S g) m'
  end.

(** [r] with the flagged entries replaced, in order, by the entries of [v]. *)
Fixpoint scatter (m : list bool) (v r : list double) : list double :=
  match m, r with
  | b :: m', x :: r' =>
      if b then rd v 0 :: scatter m' (drop 1 v) r' else x :: scatter m' v r'
  | _, _ => r
  end.

Fixpoint count_true (m : list bool) : nat :=
  match m with
  | [] => 0
  | b :: m' => (if b then 1 else 0) + count_true m'
  end.

(** The sum of the per-function counts over the functions of the train. *)
Definition nparams_of_funcs (ftp : FTparam) : nat :=
  foldr Nat.add 0
    (map (rdn (nparams_per_uni ftp)) (seq 0 (length (rank_pairs ftp)))).

(** The invariant of [FTparam]: the flat buffer has [nparams] entries, one
    per parameter of each univariate function. *)
Definition ftparam_wf (ftp : FTparam) : Prop :=
  length (params ftp) = nparams ftp /\ nparams ftp = nparams_of_funcs ftp.

(** ** Facts about loops and buffers *)

Lemma for_loop_fold {St : Type} (lo n : nat) (body : nat -> St -> St) (s : St) :
  for_loop lo n body s = fold_left (fun s i => body i s) (seq lo n) s.
Proof.
  revert lo s. induction n as [|n IH]; intros lo s; simpl; [done|]. by rewrite IH.
Qed.

Lemma for_loop_ext {St : Type} (lo n : nat) (f g : nat -> St -> St) (s : St) :
  (forall i s', f i s' = g i s') -> for_loop lo n f s = for_loop lo n g s.
Proof.
  intros Hfg. revert lo s. induction n as [|n IH]; intros lo s; simpl; [done|].
  by rewrite Hfg, IH.
Qed.

Lemma for_loop_const {St : Type} (lo n : nat) (f : St -> St) (s : St) :
  for_loop lo n (fun _ => f) s = fold_left (fun s' (_ : unit) => f s') (replicate n ()) s.
Proof.
  revert lo s. induction n as [|n IH]; intros lo s; simpl; [done|]. by rewrite IH.
Qed.

Lemma fold_left_ext {A B : Type} (f g : A -> B -> A) (l : list B) (a : A) :
  (forall a' b, f a' b = g a' b) -> fold_left f l a = fold_left g l a.
Proof.
  intros Hfg. revert a. induction l as [|b l IH]; intros a; simpl; [done|].
  by rewrite Hfg, IH.
Qed.

Lemma fold_left_flat_map {A B C : Type} (f : A -> C -> A) (g : B -> list C)
    (l : list B) (a : A) :
  fold_left f (flat_map g l) a = fold_left (fun a' b => fold_left f (g b) a') l a.
Proof.
  revert a. induction l as [|b l IH]; intros a; simpl; [done|].
  by rewrite fold_left_app, IH.
Qed.

Lemma fold_left_map {A B C : Type} (f : A -> C -> A) (g : B -> C) (l : list B) (a : A) :
  fold_left f (map g l) a = fold_left (fun a' b => f a' (g b)) l a.
Proof. revert a. induction l as [|b l IH]; intros a; simpl; [done|]. by rewrite IH. Qed.

Lemma rd_drop (l : list double) (n k : nat) : rd (drop n l) k = rd l (n + k).
Proof.
  unfold rd. revert l. induction n as [|n IH]; intros l; simpl; [by rewrite drop_0|].
  destruct l as [|x l]; simpl; [by destruct k|]. apply IH.
Qed.

Lemma length_read_n (src : list double) (off n : nat) : length (read_n src off n) = n.
Proof. unfold read_n. by rewrite length_map, length_seq. Qed.

Lemma read_n_all (l : list double) : read_n l 0 (length l) = l.
Proof.
  unfold read_n. apply list_eq. intros i.
  rewrite list_lookup_fmap. destruct (decide (i < length l)) as [Hlt|Hge].
  - rewrite lookup_seq_lt by done. simpl.
    destruct (lookup_lt_is_Some_2 l i Hlt) as [x Hx]. rewrite Hx. f_equal.
    unfold rd. by apply nth_lookup_Some with (d := 0%float) in Hx.
  - rewrite lookup_seq_ge by lia. simpl. symmetry. apply lookup_ge_None. lia.
Qed.

Lemma memmove_all (dst src : list double) :
  length dst = length src -> memmove dst 0 src 0 (length src) = src.
Proof.
  intros Hlen. unfold memmove. rewrite read_n_all.
  apply list_eq. intros i.
  destruct (decide (i < length src)) as [Hlt|Hge].
  - rewrite list_lookup_inserts by lia. f_equal. lia.
  - rewrite list_lookup_inserts_ge by lia.
    rewrite !lookup_ge_None_2 by lia. done.
Qed.

(** ** The restricted updates *)

Definition store_if (src : list double) (b : bool) (s : upd_state) : upd_state :=
  upd_next_param (if b then upd_store src s else s).

Definition set_ind (i : nat) (s : upd_state) : upd_state :=
  mkUpd i (onparam_new s) (onparam_general s) (buf s) (stores s).

(** The four nested loops with an arbitrary selection flag. *)
Definition update_loops (c : nat * nat * nat -> bool) (ftp : FTparam)
    (prm : list double) : upd_state :=
  let rks := ranks (ftp_ft ftp) in
  for_loop 0 (ftp_dim ftp) (fun kk =>
    for_loop 0 (rdn rks (kk + 1)) (fun jj =>
      for_loop 0 (rdn rks kk) (fun ii s0 =>
        upd_next_func
          (for_loop 0 (rdn (nparams_per_uni ftp) (ind s0))
             (fun ll s => store_if prm (c (kk, jj, ii)) s) s0))))
    (mkUpd 0 0 0 (params ftp) []).

Lemma inside_p_negb (rs : list nat) (t : nat * nat * nat) :
  inside_p rs t = negb (restricted_p rs t).
Proof.
  destruct t as [[kk jj] ii]. unfold inside_p, restricted_p.
  destruct (0 <? kk).
  - rewrite negb_orb. f_equal; rewrite Nat.leb_antisym; by rewrite negb_involutive.
  - rewrite Nat.leb_antisym. by rewrite negb_involutive.
Qed.

Lemma update_restricted_loops (ftp : FTparam) (prm : list double) (rs : list nat) :
  ft_param_update_restricted_ranks ftp prm rs =
  let s := update_loops (restricted_p rs) ftp prm in
  (set_params ftp (buf s) (function_train_update_params (ftp_ft ftp) (buf s)), stores s).
Proof.
  unfold ft_param_update_restricted_ranks, update_loops. cbv zeta.
  match goal with
  | |- (set_params _ (buf ?a) _, _) = (set_params _ (buf ?b) _, _) =>
      replace a with b; [done|]
  end.
  apply for_loop_ext; intros kk s1. apply for_loop_ext; intros jj s2.
  apply for_loop_ext; intros ii s3. f_equal. apply for_loop_ext; intros ll s4.
  unfold store_if, restricted_p. f_equal.
  destruct (0 <? kk); done.
Qed.

Lemma update_inside_loops (ftp : FTparam) (prm : list double) (rs : list nat) :
  ft_param_update_inside_restricted_ranks ftp prm rs =
  let s := update_loops (inside_p rs) ftp prm in
  (set_params ftp (buf s) (function_train_update_params (ftp_ft ftp) (buf s)), stores s).
Proof.
  unfold ft_param_update_inside_restricted_ranks, update_loops. cbv zeta.
  match goal with
  | |- (set_params _ (buf ?a) _, _) = (set_params _ (buf ?b) _, _) =>
      replace a with b; [done|]
  end.
  apply for_loop_ext; intros kk s1. apply for_loop_ext; intros jj s2.
  apply for_loop_ext; intros ii s3. f_equal. apply for_loop_ext; intros ll s4.
  unfold store_if, inside_p. f_equal.
  destruct (0 <? kk); done.
Qed.

(** Visiting one univariate function. *)
Definition visit_func (npu : list nat) (src : list double)
    (c : nat * nat * nat -> bool) (s0 : upd_state) (t : nat * nat * nat) : upd_state :=
  upd_next_func
    (for_loop 0 (rdn npu (ind s0)) (fun ll s => store_if src (c t) s) s0).

Lemma update_loops_visit (c : nat * nat * nat -> bool) (ftp : FTparam)
    (prm : list double) :
  update_loops c ftp prm =
  fold_left (visit_func (nparams_per_uni ftp) prm c) (rank_pairs ftp)
            (mkUpd 0 0 0 (params ftp) []).
Proof.
  unfold update_loops, rank_pairs. cbv zeta.
  rewrite for_loop_fold, fold_left_flat_map.
  apply fold_left_ext; intros s1 kk.
  rewrite for_loop_fold, fold_left_flat_map.
  apply fold_left_ext; intros s2 jj.
  rewrite for_loop_fold, fold_left_map. done.
Qed.

Lemma fold_store_if_ind (src : list double) (m : list bool) (s : upd_state) :
  ind (fold_left (fun s' b => store_if src b s') m s) = ind s.
Proof.
  revert s. induction m as [|b m IH]; intros s; simpl; [done|].
  rewrite IH. by destruct b.
Qed.

Lemma fold_store_if_set_ind (src : list double) (m : list bool) (i : nat) (s : upd_state) :
  fold_left (fun s' b => store_if src b s') m (set_ind i s) =
  set_ind i (fold_left (fun s' b => store_if src b s') m s).
Proof.
  revert s. induction m as [|b m IH]; intros s; simpl; [done|].
  rewrite <- IH. f_equal. by destruct b.
Qed.

Lemma visit_func_flags (npu : list nat) (src : list double)
    (c : nat * nat * nat -> bool) (s : upd_state) (t : nat * nat * nat) :
  visit_func npu src c s t =
  set_ind (S (ind s))
    (fold_left (fun s' b => store_if src b s') (replicate (rdn npu (ind s)) (c t)) s).
Proof.
  unfold visit_func. rewrite for_loop_const.
  assert (Hin : forall n s1,
    fold_left (fun s' (_ : unit) => store_if src (c t) s') (replicate n ()) s1 =
    fold_left (fun s' b => store_if src b s') (replicate n (c t)) s1).
  { induction n as [|n IHn]; intros s1; simpl; [done|]. by rewrite IHn. }
  rewrite Hin. unfold upd_next_func, set_ind. by rewrite fold_store_if_ind.
Qed.

Lemma visit_func_mask (npu : list nat) (src : list double)
    (c : nat * nat * nat -> bool) (ts : list (nat * nat * nat)) (s : upd_state) :
  fold_left (visit_func npu src c) ts s =
  set_ind (ind s + length ts)
    (fold_left (fun s' b => store_if src b s') (mask_from npu c (ind s) ts) s).
Proof.
  revert s. induction ts as [|t ts IH]; intros s; simpl.
  - destruct s; unfold set_ind; simpl. f_equal. lia.
  - rewrite IH, visit_func_flags, fold_left_app.
    set (s1 := fold_left _ (replicate _ _) s).
    simpl. rewrite fold_store_if_set_ind.
    unfold set_ind; simpl. f_equal. lia.
Qed.

Lemma rd_cons_0 (x : double) (l : list double) : rd (x :: l) 0 = x.
Proof. done. Qed.

(** The loop over the flags, in closed form. *)
Lemma fold_store_if_spec (src : list double) (m : list bool) :
  forall (done_ rest : list double) (i n : nat) (st : list nat),
    length m <= length rest ->
    fold_left (fun s' b => store_if src b s') m
      (mkUpd i n (length done_) (done_ ++ rest) st) =
    mkUpd i (n + count_true m) (length done_ + length m)
      (done_ ++ scatter m (drop n src) rest)
      (st ++ true_positions (length done_) m).
Proof.
  induction m as [|b m IH]; intros done_ rest i n st Hlen; simpl.
  - rewrite app_nil_r. f_equal; lia.
  - destruct rest as [|x rest]; simpl in Hlen; [lia|].
    destruct b; unfold store_if, upd_store, upd_next_param; simpl.
    + rewrite insert_app_r_alt by lia. rewrite Nat.sub_diag. simpl.
      rewrite (cons_middle (rd src n)), app_assoc.
      replace (S (length done_)) with (length (done_ ++ [rd src n]))
        by (rewrite length_app; simpl; lia).
      rewrite IH by lia. rewrite length_app. simpl.
      rewrite rd_drop, Nat.add_0_r, drop_drop, <- !app_assoc. simpl.
      replace (n + 1) with (S n) by lia. f_equal; lia.
    + rewrite (cons_middle x), app_assoc.
      replace (S (length done_)) with (length (done_ ++ [x]))
        by (rewrite length_app; simpl; lia).
      rewrite IH by lia. rewrite length_app, <- !app_assoc. simpl.
      f_equal; lia.
Qed.

Lemma length_mask_from (npu : list nat) (c : nat * nat * nat -> bool) (i : nat)
    (ts : list (nat * nat * nat)) :
  length (mask_from npu c i ts) = foldr Nat.add 0 (map (rdn npu) (seq i (length ts))).
Proof.
  revert i. induction ts as [|t ts IH]; intros i; simpl; [done|].
  by rewrite length_app, length_replicate, IH.
Qed.

Lemma length_param_mask (c : nat * nat * nat -> bool) (ftp : FTparam) :
  length (param_mask c ftp) = nparams_of_funcs ftp.
Proof. apply length_mask_from. Qed.

Lemma mask_from_ext (npu : list nat) (c c' : nat * nat * nat -> bool) (i : nat)
    (ts : list (nat * nat * nat)) :
  (forall t, c t = c' t) -> mask_from npu c i ts = mask_from npu c' i ts.
Proof.
  intros Hc. revert i. induction ts as [|t ts IH]; intros i; simpl; [done|].
  by rewrite Hc, IH.
Qed.

Lemma mask_from_negb (npu : list nat) (c : nat * nat * nat -> bool) (i : nat)
    (ts : list (nat * nat * nat)) :
  mask_from npu (fun t => negb (c t)) i ts = map negb (mask_from npu c i ts).
Proof.
  revert i. induction ts as [|t ts IH]; intros i; simpl; [done|].
  rewrite map_app, IH. f_equal.
  generalize (rdn npu i). intros n. induction n as [|n IHn]; simpl; [done|].
  by rewrite IHn.
Qed.

Lemma param_mask_inside (rs : list nat) (ftp : FTparam) :
  param_mask (inside_p rs) ftp = map negb (param_mask (restricted_p rs) ftp).
Proof.
  unfold param_mask. rewrite <- mask_from_negb. apply mask_from_ext.
  apply inside_p_negb.
Qed.

Lemma length_select (m : list bool) (v : list double) :
  length v = length m -> length (select m v) = count_true m.
Proof.
  revert v. induction m as [|b m IH]; intros [|x v] Hl; simpl in *; try done.
  destruct b; simpl; rewrite IH; lia.
Qed.

Lemma scatter_select (m : list bool) :
  forall v r : list double,
    length v = length m -> length r = length m ->
    scatter (map negb m) (select (map negb m) v) (scatter m (select m v) r) = v.
Proof.
  induction m as [|b m IH]; intros [|x v] [|y r] Hv Hr; simpl in *; try done.
  destruct b; simpl.
  - rewrite drop_0. f_equal. apply IH; lia.
  - rewrite drop_0. f_equal. apply IH; lia.
Qed.

Lemma true_positions_perm (m : list bool) (g : nat) :
  Permutation (true_positions g m ++ true_positions g (map negb m)) (seq g (length m)).
Proof.
  revert g. induction m as [|b m IH]; intros g; simpl; [done|].
  destruct b; simpl.
  - constructor. apply IH.
  - rewrite <- Permutation_middle. constructor. apply IH.
Qed.

Lemma update_loops_spec (c : nat * nat * nat -> bool) (ftp : FTparam)
    (prm : list double) :
  length (param_mask c ftp) <= length (params ftp) ->
  buf (update_loops c ftp prm) = scatter (param_mask c ftp) prm (params ftp) /\
  stores (update_loops c ftp prm) = true_positions 0 (param_mask c ftp).
Proof.
  intros Hlen. rewrite update_loops_visit, visit_func_mask. simpl.
  fold (param_mask c ftp).
  pose proof (fold_store_if_spec prm (param_mask c ftp) [] (params ftp) 0 0 [] Hlen)
    as Hspec.
  simpl in Hspec. rewrite Hspec. simpl. by rewrite drop_0.
Qed.

(** C2. Splitting a full parameter vector [v] into the entries owned by
    functions at or above the thresholds and the complementary entries, then
    calling [ft_param_update_restricted_ranks] with the first part and
    [ft_param_update_inside_restricted_ranks] with the second, leaves the
    [FTparam] exactly as one [ft_param_update_params] with [v] does; the two
    calls store to every index of the flat buffer exactly once; and both
    visit the parameters in the order of [rank_pairs]: dimension, then
    output-rank index, then input-rank index. *)
Theorem restricted_then_inside_is_full_update
    (ftp : FTparam) (rank_start : list nat) (v : list double) :
  ftparam_wf ftp ->
  length v = nparams ftp ->
  ftp_dim ftp <= length rank_start ->
  let m := param_mask (restricted_p rank_start) ftp in
  let r1 := ft_param_update_restricted_ranks ftp (select m v) rank_start in
  let r2 := ft_param_update_inside_restricted_ranks
              (fst r1) (select (map negb m) v) rank_start in
  fst r2 = ft_param_update_params ftp v /\
  params (fst r2) = v /\
  snd r1 = true_positions 0 m /\
  snd r2 = true_positions 0 (map negb m) /\
  Permutation (snd r1 ++ snd r2) (seq 0 (nparams ftp)).
Proof.
  intros [Hbuf Hn] Hv _ m. cbv zeta.
  assert (Hm : length m = nparams ftp).
  { unfold m. by rewrite length_param_mask. }
  destruct (update_loops_spec (restricted_p rank_start) ftp (select m v)) as [Hb1 Hs1].
  { fold m. lia. }
  fold m in Hb1, Hs1.
  rewrite update_restricted_loops. cbv zeta. rewrite Hb1, Hs1. cbn [fst snd].
  set (b1 := scatter m (select m v) (params ftp)).
  set (ftp1 := set_params ftp b1 (function_train_update_params (ftp_ft ftp) b1)).
  assert (Hm1 : param_mask (inside_p rank_start) ftp1 = map negb m).
  { apply param_mask_inside. }
  assert (Hlen1 : length b1 = length m).
  { unfold b1. clear -Hbuf Hm Hv. rewrite <- Hm in Hbuf, Hv. clear Hm.
    revert Hbuf Hv. generalize (params ftp). revert v.
    induction m as [|b m IH]; intros [|x v] [|y r] Hr Hv; simpl in *; try done.
    destruct b; simpl.
    - rewrite drop_0, IH; lia.
    - rewrite IH; lia. }
  destruct (update_loops_spec (inside_p rank_start) ftp1 (select (map negb m) v))
    as [Hb2 Hs2].
  { rewrite Hm1, length_map. unfold ftp1. cbn [params set_params]. lia. }
  rewrite Hm1 in Hb2, Hs2.
  assert (Hp1 : params ftp1 = b1) by done.
  rewrite Hp1 in Hb2. unfold b1 in Hb2. rewrite scatter_select in Hb2 by lia.
  rewrite update_inside_loops. cbv zeta. rewrite Hb2, Hs2. cbn [fst snd].
  repeat split.
  - unfold ft_param_update_params.
    replace (memmove (params ftp) 0 v 0 (nparams ftp)) with v.
    2:{ rewrite <- Hv. symmetry. apply memmove_all. lia. }
    unfold ftp1, set_params, function_train_update_params. cbn.
    by rewrite length_read_n.
  - rewrite <- Hm. apply true_positions_perm.
Qed.

Definition example_aopts : MultiApproxOpts := mkAopts [2; 2] [true; true].
Definition example_ftp : FTparam := ft_param_alloc 2 example_aopts None [1; 2; 1].

Lemma restricted_then_inside_is_full_update_witness :
  let v := [1; 2; 3; 4; 5; 6; 7; 8]%float in
  let m := param_mask (restricted_p [1; 0]) example_ftp in
  let r1 := ft_param_update_restricted_ranks example_ftp (select m v) [1; 0] in
  let r2 := ft_param_update_inside_restricted_ranks
              (fst r1) (select (map negb m) v) [1; 0] in
  fst r2 = ft_param_update_params example_ftp v /\
  params (fst r2) = v /\
  snd r1 = true_positions 0 m /\
  snd r2 = true_positions 0 (map negb m) /\
  Permutation (snd r1 ++ snd r2) (seq 0 (nparams example_ftp)).
Proof.
  apply (restricted_then_inside_is_full_update example_ftp [1; 0]
           [1; 2; 3; 4; 5; 6; 7; 8]%float).
  - split; reflexivity.
  - reflexivity.
  - simpl. lia.
Defined.

(** ** Regression options and the memory manager *)

Inductive REGTYPE : Type := ALS | AIO | REGNONE.
Inductive REGOBJ : Type := FTLS | FTLS_SPARSEL2 | REGOBJNONE.
Inductive FTPARAM_ST : Type := LINEAR_ST | NONE_ST.

Record RegressOpts : Type := mkRegressOpts {
  ropts_type : REGTYPE;
  ropts_obj : REGOBJ;
  ropts_dim : nat;
  ropts_verbose : Z;
  regularization_weight : double;
  max_als_sweeps : nat;
  als_active_core : nat;
  als_conv_tol : double;
  restrict_rank_opt : list nat
}.

Definition set_als_active_core (o : RegressOpts) (core : nat) : RegressOpts :=
  mkRegressOpts (ropts_type o) (ropts_obj o) (ropts_dim o) (ropts_verbose o)
    (regularization_weight o) (max_als_sweeps o) core (als_conv_tol o)
    (restrict_rank_opt o).

Definition set_restrict_rank_opt (o : RegressOpts) (r : list nat) : RegressOpts :=
  mkRegressOpts (ropts_type o) (ropts_obj o) (ropts_dim o) (ropts_verbose o)
    (regularization_weight o) (max_als_sweeps o) (als_active_core o) (als_conv_tol o) r.

Definition regress_opts_alloc (d : nat) (ty : REGTYPE) (ob : REGOBJ) : RegressOpts :=
  mkRegressOpts ty ob d 0 1e-10%float 10 0 1e-5%float (calloc_size_t d).

Definition regress_opts_create (d : nat) (ty : REGTYPE) (ob : REGOBJ)
    : outcome RegressOpts :=
  match ty with
  | REGNONE => Exits "Error: REGTYPE unavailable"
  | _ =>
      match ob with
      | REGOBJNONE => Exits "Error: REGOBJ unavailable"
      | _ => Returns (regress_opts_alloc d ty ob)
      end
  end.

Definition regress_opts_set_restrict_rank (o : RegressOpts) (i rank : nat) : RegressOpts :=
  set_restrict_rank_opt o (<[i := rank]> (restrict_rank_opt o)).

Record RegMemSpace : Type := mkRegMemSpace {
  ndata : nat;
  one_data_size : nat;
  vals : list double
}.

Definition reg_mem_space_alloc (n sz : nat) : RegMemSpace :=
  mkRegMemSpace n sz (calloc_double (n * sz)).

Definition reg_mem_space_get_data_inc (r : RegMemSpace) : nat := one_data_size r.

Definition set_vals (r : RegMemSpace) (v : list double) : RegMemSpace :=
  mkRegMemSpace (ndata r) (one_data_size r) v.

(** Modelled from the spec: a running core total is a scratch accumulator of
    partial core evaluations that [restart] clears. *)
Definition RunningCoreTotal : Type := list double.
Definition running_core_total_alloc (n : nat) : RunningCoreTotal := calloc_double n.
Definition running_core_total_restart (r : RunningCoreTotal) : RunningCoreTotal :=
  calloc_double (length r).

(** [lin_structure_vals[ii]] is a pointer: [Some jj] stands for
    [all_grads[jj]->vals], [None] for the value [malloc] left there. *)
Record RegressionMemManager : Type := mkMem {
  mem_dim : nat;
  mem_N : nat;
  running_evals_lr : RunningCoreTotal;
  running_evals_rl : RunningCoreTotal;
  running_grad : list RunningCoreTotal;
  evals : RegMemSpace;
  grad : RegMemSpace;
  grad_space : RegMemSpace;
  all_grads : list RegMemSpace;
  fparam_space : RegMemSpace;
  structure : FTPARAM_ST;
  once_eval_structure : Z;
  lin_structure_vals : list (option nat);
  lin_structure_inc : list nat
}.

Definition regress_mem_manager_alloc (d n : nat) (num_params_per_core rks : list nat)
    (max_param_within_uni : nat) (st : FTPARAM_ST) : RegressionMemManager :=
  let mr2 := fun ii => rdn rks ii * rdn rks (ii + 1) in
  let mr2_max := foldl Nat.max 0 (map mr2 (seq 0 d)) in
  let num_tot_params := foldl Nat.add 0 (map (rdn num_params_per_core) (seq 0 d)) in
  let max_param_within_core :=
    foldl Nat.max 0 (map (rdn num_params_per_core) (seq 0 d)) in
  mkMem d n
    (running_core_total_alloc mr2_max) (running_core_total_alloc mr2_max)
    (replicate d (running_core_total_alloc mr2_max))
    (reg_mem_space_alloc n 1)
    (reg_mem_space_alloc n num_tot_params)
    (reg_mem_space_alloc n (max_param_within_core * mr2_max))
    (map (fun ii => reg_mem_space_alloc n (rdn num_params_per_core ii * mr2 ii)) (seq 0 d))
    (reg_mem_space_alloc 1 max_param_within_uni)
    st 0 (replicate d None) (calloc_size_t d).

Definition regress_mem_manager_enough (mem : RegressionMemManager) (n : nat) : Z :=
  if mem_N mem <? n then 0 else 1.

Definition set_running (mem : RegressionMemManager)
    (lr rl : RunningCoreTotal) (rg : list RunningCoreTotal) : RegressionMemManager :=
  mkMem (mem_dim mem) (mem_N mem) lr rl rg (evals mem) (grad mem) (grad_space mem)
    (all_grads mem) (fparam_space mem) (structure mem) (once_eval_structure mem)
    (lin_structure_vals mem) (lin_structure_inc mem).

Definition regress_mem_manager_reset_running (mem : RegressionMemManager)
    : RegressionMemManager :=
  set_running mem (running_core_total_restart (running_evals_lr mem))
    (running_core_total_restart (running_evals_rl mem))
    (map running_core_total_restart (running_grad mem)).

Definition set_structure_cache (mem : RegressionMemManager)
    (ag : list RegMemSpace) (once : Z) (lv : list (option nat)) (li : list nat)
    : RegressionMemManager :=
  mkMem (mem_dim mem) (mem_N mem) (running_evals_lr mem) (running_evals_rl mem)
    (running_grad mem) (evals mem) (grad mem) (grad_space mem) ag (fparam_space mem)
    (structure mem) once lv li.

(** What the optimizer hands to the objective as [void * args]. *)
Record PP : Type := mkPP {
  pp_ftp : FTparam;
  pp_opts : RegressOpts;
  pp_mem : RegressionMemManager;
  pp_N : nat;
  pp_x : list double;
  pp_y : list double
}.

(** An objective as the optimizer sees it: parameters, an optional gradient
    buffer and the state behind [args]; it returns the value, the gradient
    buffer and the state, or terminates the process. *)
Definition objective : Type :=
  nat -> list double -> option (list double) -> PP ->
  outcome (double * option (list double) * PP).

(** ** External collaborators *)

(** Modelled from the spec: the collaborators the regression layer consumes
    (function-train evaluation and gradients, rounding, norms, BLAS-style
    regularisation helpers, the least-squares seed, and the optimizer
    [c3opt_minimize], which receives the objective and its state).  Their
    code is not in the files at hand; every definition below takes them as
    given.  A function that fills scratch buffers of the memory manager has
    the manager as argument and result. *)
Class Collaborators : Type := mkCollaborators {
  c3Opt : Type;
  qmarray_param_grad_eval :
    FunctionTrain -> nat -> nat -> list double -> nat -> nat -> nat -> list double ->
    list double;
  qmarray_param_grad_eval_sparse_mult :
    FunctionTrain -> nat -> nat -> list double -> nat -> nat -> nat -> list double ->
    list double;
  function_train_param_grad_eval :
    FunctionTrain -> nat -> list double -> list nat -> bool ->
    RegressionMemManager -> RegressionMemManager;
  function_train_linparam_grad_eval :
    FunctionTrain -> nat -> list double -> list nat ->
    RegressionMemManager -> RegressionMemManager;
  function_train_core_param_grad_eval :
    FunctionTrain -> nat -> nat -> list double -> nat -> bool ->
    RegressionMemManager -> RegressionMemManager;
  function_train_core_linparam_grad_eval :
    FunctionTrain -> nat -> nat -> list double -> nat ->
    RegressionMemManager -> RegressionMemManager;
  function_train_core_pre_post_run :
    FunctionTrain -> nat -> nat -> list double ->
    RegressionMemManager -> RegressionMemManager;
  function_train_param_grad_sqnorm :
    FunctionTrain -> list double -> option (list double) -> double * option (list double);
  qmarray_param_grad_sqnorm :
    FunctionTrain -> nat -> double -> option (list double) -> double * option (list double);
  function_train_eval : FunctionTrain -> list double -> nat -> double;
  function_train_core_param_grad_eval_at :
    FunctionTrain -> list double -> nat -> nat -> nat -> double * list double;
  function_train_round : FunctionTrain -> double -> MultiApproxOpts -> FunctionTrain;
  function_train_norm2diff : FunctionTrain -> FunctionTrain -> double;
  function_train_norm2 : FunctionTrain -> double;
  lin_ls_seed : FTparam -> nat -> list double -> list double -> double -> list double;
  c3opt_minimize :
    c3Opt -> nat -> objective -> list double -> PP ->
    outcome (c3Opt * Z * list double * double * PP)
}.

(** [cblas_daxpy(n, a, x + xoff, 1, y, 1)]: [y[i] += a * x[xoff + i]]. *)
Definition cblas_daxpy (n : nat) (a : double) (x : list double) (xoff : nat)
    (y : list double) : list double :=
  for_loop 0 n (fun i y' => <[i := (rd y' i + a * rd x (xoff + i))%float]> y') y.

(** [cblas_ddot(n, x, 1, y, 1)]. *)
Definition cblas_ddot (n : nat) (x y : list double) : double :=
  for_loop 0 n (fun i acc => (acc + rd x i * rd y i)%float) 0%float.

(** ** Objectives and optimizer callbacks *)

Section Regression.
Context `{ops : Collaborators}.

Definition ft_param_extract_structure (ftp : FTparam) : FTPARAM_ST :=
  if forallb (multi_approx_opts_linear_p (approx_opts ftp)) (seq 0 (ftp_dim ftp))
  then LINEAR_ST else NONE_ST.

Definition reg_mem_space_at (l : list RegMemSpace) (ii : nat) : RegMemSpace :=
  nth ii l (mkRegMemSpace 0 0 []).

(** Loop state of [regress_mem_manager_check_structure]; [evaluated] records
    the dimensions whose gradient block was evaluated. *)
Record structure_state : Type := mkStructureState {
  st_all_grads : list RegMemSpace;
  st_vals : list (option nat);
  st_inc : list nat;
  evaluated : list nat
}.

Definition regress_mem_manager_check_structure (mem : RegressionMemManager)
    (ftp : FTparam) (x : list double) : RegressionMemManager * list nat :=
  match structure mem with
  | LINEAR_ST =>
      if (once_eval_structure mem =? 0)%Z then
        let s :=
          for_loop 0 (ftp_dim ftp) (fun ii s =>
            let blk := reg_mem_space_at (st_all_grads s) ii in
            let v :=
              if ii =? 0 then
                qmarray_param_grad_eval (ftp_ft ftp) ii (mem_N mem) x ii (ftp_dim ftp)
                  (reg_mem_space_get_data_inc blk) (vals blk)
              else
                qmarray_param_grad_eval_sparse_mult (ftp_ft ftp) ii (mem_N mem) x ii
                  (ftp_dim ftp) (reg_mem_space_get_data_inc blk) (vals blk) in
            let ag := <[ii := set_vals blk v]> (st_all_grads s) in
            mkStructureState ag (<[ii := Some ii]> (st_vals s))
              (<[ii := reg_mem_space_get_data_inc (reg_mem_space_at ag ii)]> (st_inc s))
              (evaluated s ++ [ii]))
            (mkStructureState (all_grads mem) (lin_structure_vals mem)
               (lin_structure_inc mem) []) in
        (set_structure_cache mem (st_all_grads s) 1 (st_vals s) (st_inc s), evaluated s)
      else (mem, [])
  | NONE_ST => (mem, [])
  end.

Definition ft_param_update_core_params (ftp : FTparam) (core : nat) (prm : list double)
    : FTparam :=
  let runparam :=
    for_loop 0 core (fun ii acc => acc + rdn (nparams_per_core ftp) ii) 0 in
  let n := rdn (nparams_per_core ftp) core in
  set_params ftp (memmove (params ftp) runparam prm 0 n)
    (function_train_core_update_params (ftp_ft ftp) core n prm).

Definition ft_param_prepare_als_core (ftp : FTparam) (core : nat)
    (mem : RegressionMemManager) (n : nat) (x : list double) : RegressionMemManager :=
  function_train_core_pre_post_run (ftp_ft ftp) core n x mem.

Definition ft_param_eval_objective_aio_ls (ftp : FTparam) (mem : RegressionMemManager)
    (n : nat) (x y : list double) (g : option (list double))
    : outcome (double * option (list double) * RegressionMemManager) :=
  match g with
  | Some g0 =>
      let mem1 :=
        match structure mem with
        | LINEAR_ST =>
            function_train_linparam_grad_eval (ftp_ft ftp) n x (nparams_per_core ftp) mem
        | NONE_ST =>
            function_train_param_grad_eval (ftp_ft ftp) n x (nparams_per_core ftp) true mem
        end in
      '(out, g1) ← for_loop_m 0 n (fun ii '(out, g1) =>
          let resid := (rd y ii - rd (vals (evals mem1)) ii)%float in
          if isnan (rd (vals (evals mem1)) ii) then
            Exits "Warning, evaluation of FT is nan in aio_ls"
          else if isinf (rd (vals (evals mem1)) ii) then
            Exits "Warning, evaluation of FT is inf in aio_ls"
          else
            let out' := (out + 0.5 * resid * resid)%float in
            if isinf out' then Exits "out = %G,resid=%G,memeval=%G,y=%G"
            else Returns (out', cblas_daxpy (nparams ftp) (- resid)%float
                                  (vals (grad mem1)) (ii * nparams ftp) g1))
          (0%float, g0);
      let out' := (out / double_of_size_t n)%float in
      let g2 :=
        for_loop 0 (nparams ftp)
          (fun ii g' => <[ii := (rd g' ii / double_of_size_t n)%float]> g') g1 in
      if isnan out' then
        Exits "Regress aio eval objective ls (with grad != NULL) is NaN"
      else if isinf out' then
        Exits "Regress aio eval objective ls (with grad != NULL) is Inf"
      else Returns (out', Some g2, mem1)
  | None =>
      let mem1 :=
        function_train_param_grad_eval (ftp_ft ftp) n x (nparams_per_core ftp) false mem in
      let out :=
        for_loop 0 n (fun ii out =>
          let resid := (rd y ii - rd (vals (evals mem1)) ii)%float in
          (out + 0.5 * resid * resid)%float) 0%float in
      let out' := (out / double_of_size_t n)%float in
      if isnan out' then
        Exits "Regress aio eval objective ls (with grad = NULL) is NaN"
      else if isinf out' then
        Exits "Regress aio eval objective ls (with grad = NULL) is Inf"
      else Returns (out', None, mem1)
  end.

Definition ft_param_eval_objective_als_ls (ftp : FTparam) (active_core : nat)
    (mem : RegressionMemManager) (n : nat) (x y : list double)
    (g : option (list double)) : double * option (list double) * RegressionMemManager :=
  let nc := rdn (nparams_per_core ftp) active_core in
  match g with
  | Some g0 =>
      let mem1 :=
        match structure mem with
        | LINEAR_ST =>
            function_train_core_linparam_grad_eval (ftp_ft ftp) active_core n x nc mem
        | NONE_ST =>
            function_train_core_param_grad_eval (ftp_ft ftp) active_core n x nc true mem
        end in
      let '(out, g1) :=
        for_loop 0 n (fun ii '(out, g1) =>
          let resid := (rd y ii - rd (vals (evals mem1)) ii)%float in
          ((out + 0.5 * resid * resid)%float,
           cblas_daxpy nc (- resid)%float (vals (grad mem1)) (ii * nc) g1))
          (0%float, g0) in
      let g2 :=
        for_loop 0 nc (fun ii g' => <[ii := (rd g' ii / double_of_size_t n)%float]> g') g1 in
      ((out / double_of_size_t n)%float, Some g2, mem1)
  | None =>
      let mem1 :=
        function_train_core_param_grad_eval (ftp_ft ftp) active_core n x nc false mem in
      let out :=
        for_loop 0 n (fun ii out =>
          let resid := (rd y ii - rd (vals (evals mem1)) ii)%float in
          (out + 0.5 * resid * resid)%float) 0%float in
      ((out / double_of_size_t n)%float, None, mem1)
  end.

Definition restrict_ranksp (opts : RegressOpts) : Z :=
  if existsb (fun ii => 0 <? rdn (restrict_rank_opt opts) ii) (seq 0 (ropts_dim opts))
  then 1 else 0.

(** Loop state of [extract_restricted_vals]. *)
Record ext_state : Type := mkExt {
  ext_ind : nat;
  ext_onparam : nat;
  ext_onparam_new : nat;
  restrict_vals : list double
}.

Definition extract_restricted_vals (regopts : RegressOpts) (ftp : FTparam)
    (full_vals out : list double) : list double :=
  let rks := ranks (ftp_ft ftp) in
  let rank_start := restrict_rank_opt regopts in
  restrict_vals
    (for_loop 0 (ropts_dim regopts) (fun kk =>
      for_loop 0 (rdn rks (kk + 1)) (fun jj =>
        for_loop 0 (rdn rks kk) (fun ii s0 =>
          let np := rdn (nparams_per_uni ftp) (ext_ind s0) in
          let s1 :=
            for_loop 0 np (fun ll s =>
              let s' :=
                if (if 0 <? kk then
                      (rdn rank_start (kk - 1) <=? ii) || (rdn rank_start kk <=? jj)
                    else rdn rank_start kk <=? jj)
                then mkExt (ext_ind s) (ext_onparam s) (S (ext_onparam_new s))
                       (<[ext_onparam_new s := rd full_vals (ext_onparam s)]>
                          (restrict_vals s))
                else s in
              mkExt (ext_ind s') (S (ext_onparam s')) (ext_onparam_new s')
                (restrict_vals s')) s0 in
          mkExt (S (ext_ind s1)) (ext_onparam s1) (ext_onparam_new s1) (restrict_vals s1))))
      (mkExt 0 0 0 out)).

Definition ft_param_get_nparams_restrict (ftp : FTparam) (rank_start : list nat) : nat :=
  let rks := ranks (ftp_ft ftp) in
  snd
    (for_loop 0 (ftp_dim ftp) (fun kk =>
      for_loop 0 (rdn rks (kk + 1)) (fun jj =>
        for_loop 0 (rdn rks kk) (fun ii '(i, n) =>
          (S i,
           if (if 0 <? kk then
                 (rdn rank_start (kk - 1) <=? ii) || (rdn rank_start kk <=? jj)
               else rdn rank_start kk <=? jj)
           then n + rdn (nparams_per_uni ftp) i else n))))
      (0, 0)).

Definition ft_param_eval_objective_aio (ftp : FTparam) (regopts : RegressOpts)
    (mem : option RegressionMemManager) (n : nat) (x y : list double)
    (g : option (list double))
    : outcome (double * option (list double) * option RegressionMemManager) :=
  let mem_here :=
    match mem with
    | Some m => m
    | None =>
        regress_mem_manager_alloc (ftp_dim ftp) n (nparams_per_core ftp)
          (function_train_get_ranks (ftp_ft ftp)) (max_param_uni ftp) LINEAR_ST
    end in
  if (regress_mem_manager_enough mem_here n =? 0)%Z then Exits "assert (1 == 0)" else
  '(out, g', mem') ←
    match ropts_obj regopts with
    | FTLS => ft_param_eval_objective_aio_ls ftp mem_here n x y g
    | FTLS_SPARSEL2 =>
        '(out, g1, mem1) ← ft_param_eval_objective_aio_ls ftp mem_here n x y g;
        let weights :=
          replicate (ftp_dim ftp) (0.5 * regularization_weight regopts)%float in
        let '(regval, g2) := function_train_param_grad_sqnorm (ftp_ft ftp) weights g1 in
        Returns ((out + regval)%float, g2, mem1)
    | REGOBJNONE => Exits "assert (1 == 0)"
    end;
  if isnan out then Exits "Regress aio eval objective is NaN"
  else if isinf out then Exits "Regress aio eval objective is Inf"
  else Returns (out, g', match mem with Some _ => Some mem' | None => None end).

Definition ft_param_eval_objective_als (ftp : FTparam) (regopts : RegressOpts)
    (mem : RegressionMemManager) (n : nat) (x y : list double)
    (g : option (list double))
    : outcome (double * option (list double) * RegressionMemManager) :=
  if (regress_mem_manager_enough mem n =? 0)%Z then Exits "assert (1 == 0)" else
  match ropts_obj regopts with
  | FTLS =>
      Returns (ft_param_eval_objective_als_ls ftp (als_active_core regopts) mem n x y g)
  | FTLS_SPARSEL2 =>
      let '(out, g1, mem1) :=
        ft_param_eval_objective_als_ls ftp (als_active_core regopts) mem n x y g in
      let weight := (0.5 * regularization_weight regopts)%float in
      let '(regval, g2) :=
        qmarray_param_grad_sqnorm (ftp_ft ftp) (als_active_core regopts) weight g1 in
      Returns ((out + regval)%float, g2, mem1)
  | REGOBJNONE => Exits "assert (1 == 0)"
  end.

Definition set_pp (pp : PP) (ftp : FTparam) (mem : RegressionMemManager) : PP :=
  mkPP ftp (pp_opts pp) mem (pp_N pp) (pp_x pp) (pp_y pp).

Definition zero_first (n : nat) (g : list double) : list double :=
  for_loop 0 n (fun ii g' => <[ii := 0%float]> g') g.

Definition regress_opts_minimize_aio : objective := fun nparam param g pp =>
  _ ← for_loop_m 0 nparam (fun ii (_ : unit) =>
        if isnan (rd param ii) then Exits "Optimizer requesting params that are NaN"
        else if isinf (rd param ii) then Exits "Optimizer requesting params that are inf"
        else Returns ()) ();
  let mem1 := fst (regress_mem_manager_check_structure (pp_mem pp) (pp_ftp pp) (pp_x pp)) in
  let mem2 := regress_mem_manager_reset_running mem1 in
  '(eval, g', ftp', mem') ←
    (if (restrict_ranksp (pp_opts pp) =? 0)%Z then
       let ftp1 := ft_param_update_params (pp_ftp pp) param in
       let g1 := zero_first nparam <$> g in
       '(eval, g2, mem3) ←
         ft_param_eval_objective_aio ftp1 (pp_opts pp) (Some mem2)
           (pp_N pp) (pp_x pp) (pp_y pp) g1;
       Returns (eval, g2, ftp1, default mem2 mem3)
     else
       let ftp1 :=
         fst (ft_param_update_restricted_ranks (pp_ftp pp) param
                (restrict_rank_opt (pp_opts pp))) in
       match g with
       | Some g0 =>
           let grad_use := calloc_double (nparams ftp1) in
           '(eval, gu, mem3) ←
             ft_param_eval_objective_aio_ls ftp1 mem2 (pp_N pp) (pp_x pp) (pp_y pp)
               (Some grad_use);
           Returns (eval,
                    Some (extract_restricted_vals (pp_opts pp) ftp1
                            (default grad_use gu) g0),
                    ftp1, mem3)
       | None =>
           '(eval, g2, mem3) ←
             ft_param_eval_objective_aio ftp1 (pp_opts pp) (Some mem2)
               (pp_N pp) (pp_x pp) (pp_y pp) None;
           Returns (eval, g2, ftp1, default mem2 mem3)
       end);
  if isnan eval then Exits "Regress aio objective is NaN"
  else if isinf eval then Exits "Regress aio objective is Inf"
  else Returns (eval, g', set_pp pp ftp' mem').

Definition regress_opts_minimize_als : objective := fun nparam prm g pp =>
  let mem1 := fst (regress_mem_manager_check_structure (pp_mem pp) (pp_ftp pp) (pp_x pp)) in
  let core := als_active_core (pp_opts pp) in
  let mem2 :=
    set_running mem1 (running_evals_lr mem1) (running_evals_rl mem1)
      (<[core := running_core_total_restart (nth core (running_grad mem1) [])]>
         (running_grad mem1)) in
  let ftp1 := ft_param_update_core_params (pp_ftp pp) core prm in
  let g1 := zero_first nparam <$> g in
  '(eval, g2, mem3) ←
    ft_param_eval_objective_als ftp1 (pp_opts pp) mem2 (pp_N pp) (pp_x pp) (pp_y pp) g1;
  Returns (eval, g2, set_pp pp ftp1 mem3).



(** ** Facts about the loops of the objectives *)

Lemma for_loop_snoc {St : Type} (lo n : nat) (body : nat -> St -> St) (s : St) :
  for_loop lo (S n) body s = body (lo + n) (for_loop lo n body s).
Proof.
  revert lo s. induction n as [|n IH]; intros lo s.
  - simpl. by rewrite Nat.add_0_r.
  - change (for_loop lo (S (S n)) body s) with (for_loop (S lo) (S n) body (body lo s)).
    rewrite IH. simpl. f_equal. lia.
Qed.










(** ** The linear-structure cache *)

(** The gradient block [regress_mem_manager_check_structure] evaluates for
    dimension [ii], from the block [all_grads[ii]] as allocated. *)
Definition structure_block (mem : RegressionMemManager) (ftp : FTparam)
    (x : list double) (ii : nat) : list double :=
  let blk := reg_mem_space_at (all_grads mem) ii in
  if ii =? 0 then
    qmarray_param_grad_eval (ftp_ft ftp) ii (mem_N mem) x ii (ftp_dim ftp)
      (reg_mem_space_get_data_inc blk) (vals blk)
  else
    qmarray_param_grad_eval_sparse_mult (ftp_ft ftp) ii (mem_N mem) x ii (ftp_dim ftp)
      (reg_mem_space_get_data_inc blk) (vals blk).

Lemma check_structure_loop (mem : RegressionMemManager) (ftp : FTparam)
    (x : list double) (n : nat) :
  n <= length (all_grads mem) ->
  n <= length (lin_structure_vals mem) ->
  let s :=
    for_loop 0 n (fun ii s =>
      let blk := reg_mem_space_at (st_all_grads s) ii in
      let v :=
        if ii =? 0 then
          qmarray_param_grad_eval (ftp_ft ftp) ii (mem_N mem) x ii (ftp_dim ftp)
            (reg_mem_space_get_data_inc blk) (vals blk)
        else
          qmarray_param_grad_eval_sparse_mult (ftp_ft ftp) ii (mem_N mem) x ii
            (ftp_dim ftp) (reg_mem_space_get_data_inc blk) (vals blk) in
      let ag := <[ii := set_vals blk v]> (st_all_grads s) in
      mkStructureState ag (<[ii := Some ii]> (st_vals s))
        (<[ii := reg_mem_space_get_data_inc (reg_mem_space_at ag ii)]> (st_inc s))
        (evaluated s ++ [ii]))
      (mkStructureState (all_grads mem) (lin_structure_vals mem)
         (lin_structure_inc mem) []) in
  evaluated s = seq 0 n /\
  length (st_all_grads s) = length (all_grads mem) /\
  length (st_vals s) = length (lin_structure_vals mem) /\
  (forall ii, ii < n ->
     st_vals s !! ii = Some (Some ii) /\
     vals (reg_mem_space_at (st_all_grads s) ii) = structure_block mem ftp x ii) /\
  (forall ii, n <= ii ->
     reg_mem_space_at (st_all_grads s) ii = reg_mem_space_at (all_grads mem) ii).
Proof.
  induction n as [|n IH]; intros Hag Hlv.
  - simpl. split; [done|]. split; [done|]. split; [done|]. split; [|done].
    intros ii Hii. lia.
  - rewrite for_loop_snoc. cbn [Nat.add].
    destruct IH as (Hev & Hlag & Hllv & Hdone & Hrest); [lia|lia|].
    set (s := for_loop 0 n _ _) in *.
    cbn [evaluated st_all_grads st_vals st_inc].
    split; [|split; [|split; [|split]]].
    + rewrite Hev. by rewrite seq_S.
    + by rewrite length_insert.
    + by rewrite length_insert.
    + intros ii Hii. destruct (decide (ii = n)) as [->|Hne].
      * split; [apply list_lookup_insert_eq; lia|].
        unfold reg_mem_space_at at 1.
        rewrite nth_lookup, list_lookup_insert_eq by lia. simpl.
        unfold structure_block. cbv zeta. by rewrite (Hrest n) by lia.
      * rewrite list_lookup_insert_ne by done.
        unfold reg_mem_space_at at 1.
        rewrite nth_lookup, list_lookup_insert_ne by done. rewrite <- nth_lookup.
        apply Hdone. lia.
    + intros ii Hii. unfold reg_mem_space_at at 1.
      rewrite nth_lookup, list_lookup_insert_ne by lia. rewrite <- nth_lookup.
      apply Hrest. lia.
Qed.

(** C8. For a manager whose structure is [LINEAR_ST] and whose flag is
    still [0], [regress_mem_manager_check_structure] evaluates the gradient
    block of every dimension once, makes [lin_structure_vals[ii]] point to
    it and sets [once_eval_structure] to [1]; after that, a call with any
    train and any training set evaluates nothing and returns the manager
    unchanged.  For a manager whose structure is [NONE_ST] no block is ever
    evaluated. *)
Theorem check_structure_computed_once
    (mem : RegressionMemManager) (ftp : FTparam) (x : list double) :
  (structure mem = LINEAR_ST ->
   once_eval_structure mem = 0%Z ->
   ftp_dim ftp <= length (all_grads mem) ->
   ftp_dim ftp <= length (lin_structure_vals mem) ->
   let r := regress_mem_manager_check_structure mem ftp x in
   once_eval_structure (fst r) = 1%Z /\
   snd r = seq 0 (ftp_dim ftp) /\
   (forall ii, ii < ftp_dim ftp ->
      lin_structure_vals (fst r) !! ii = Some (Some ii) /\
      vals (reg_mem_space_at (all_grads (fst r)) ii) = structure_block mem ftp x ii) /\
   (forall ftp' x', regress_mem_manager_check_structure (fst r) ftp' x' = (fst r, []))) /\
  (structure mem = NONE_ST ->
   forall ftp' x', regress_mem_manager_check_structure mem ftp' x' = (mem, [])).
Proof.
  split.
  - intros Hst Honce Hag Hlv. cbv zeta.
    destruct (check_structure_loop mem ftp x (ftp_dim ftp) Hag Hlv)
      as (Hev & _ & _ & Hdone & _).
    match type of Hev with
    | evaluated ?s0 = _ =>
        assert (Hr : regress_mem_manager_check_structure mem ftp x =
                     (set_structure_cache mem (st_all_grads s0) 1 (st_vals s0) (st_inc s0),
                      evaluated s0))
    end.
    { unfold regress_mem_manager_check_structure. by rewrite Hst, Honce. }
    rewrite Hr. cbn [fst snd].
    split; [done|]. split; [done|]. split; [apply Hdone|].
    intros ftp' x'. unfold regress_mem_manager_check_structure.
    cbn [structure once_eval_structure set_structure_cache]. by rewrite Hst.
  - intros Hst ftp' x'. unfold regress_mem_manager_check_structure. by rewrite Hst.
Qed.

(** ** The least-squares objectives *)













(** ** The fatal-error checks of the all-at-once callback *)





Lemma check_structure_mem_N (mem : RegressionMemManager) (ftp : FTparam) (x : list double) :
  mem_N (fst (regress_mem_manager_check_structure mem ftp x)) = mem_N mem.
Proof.
  unfold regress_mem_manager_check_structure.
  destruct (structure mem); [|done]. by destruct (once_eval_structure mem =? 0)%Z.
Qed.

(** The alternating callback looks at no value: short of the two assertions
    of [ft_param_eval_objective_als] it returns, whatever the parameters. *)
Lemma minimize_als_returns (nparam : nat) (prm : list double) (g : option (list double))
    (pp : PP) :
  regress_mem_manager_enough (pp_mem pp) (pp_N pp) = 1%Z ->
  ropts_obj (pp_opts pp) <> REGOBJNONE ->
  exists v g' pp', regress_opts_minimize_als nparam prm g pp = Returns (v, g', pp').
Proof.
  intros Hmem Hobj. unfold regress_opts_minimize_als, ft_param_eval_objective_als.
  set (mem1 := fst (regress_mem_manager_check_structure _ _ _)).
  assert (Hen : regress_mem_manager_enough
                  (set_running mem1 (running_evals_lr mem1) (running_evals_rl mem1)
                     (<[als_active_core (pp_opts pp) :=
                          running_core_total_restart
                            (nth (als_active_core (pp_opts pp)) (running_grad mem1) [])]>
                        (running_grad mem1))) (pp_N pp) = 1%Z).
  { unfold regress_mem_manager_enough in *. cbn [mem_N set_running].
    unfold mem1. by rewrite check_structure_mem_N. }
  cbv zeta. rewrite Hen. cbn [Z.eqb].
  destruct (ropts_obj (pp_opts pp)); [| |done].
  - destruct (ft_param_eval_objective_als_ls _ _ _ _ _ _ _) as [[v g'] m'].
    cbn [mbind outcome_bind]. by eexists _, _, _.
  - destruct (ft_param_eval_objective_als_ls _ _ _ _ _ _ _) as [[v g'] m'].
    destruct (qmarray_param_grad_sqnorm _ _ _ _) as [rv g2].
    cbn [mbind outcome_bind]. by eexists _, _, _.
Qed.



(** ** The drivers: all-at-once and alternating least squares *)

(** What the optimizer may do to the state behind [args]: call the
    objective, any number of times. *)
Inductive objective_calls (f : objective) : PP -> PP -> Prop :=
  | calls_none (pp : PP) : objective_calls f pp pp
  | calls_more (pp pp1 pp2 : PP) (n : nat) (p : list double)
      (g g' : option (list double)) (v : double) :
      f n p g pp = Returns (v, g', pp1) ->
      objective_calls f pp1 pp2 ->
      objective_calls f pp pp2.

Definition optimizer_calls_objective_only : Prop :=
  forall opt n f guess pp opt' res guess' val pp',
    c3opt_minimize opt n f guess pp = Returns (opt', res, guess', val, pp') ->
    objective_calls f pp pp'.

Definition c3_regression_run_aio (ftp : FTparam) (ropts : RegressOpts)
    (optimizer : c3Opt) (n : nat) (x y : list double)
    : outcome (FTparam * c3Opt * FunctionTrain) :=
  let rks := function_train_get_ranks (ftp_ft ftp) in
  let st := ft_param_extract_structure ftp in
  let mem :=
    regress_mem_manager_alloc (ftp_dim ftp) n (nparams_per_core ftp) rks
      (max_param_uni ftp) st in
  let pp := mkPP ftp ropts mem n x y in
  let restrict_needed := restrict_ranksp ropts in
  let '(np, guess) :=
    if (restrict_needed =? 0)%Z then
      (function_train_get_nparams (ftp_ft ftp),
       memmove (calloc_double (nparams ftp)) 0 (params ftp) 0 (nparams ftp))
    else
      let np := ft_param_get_nparams_restrict ftp (restrict_rank_opt ropts) in
      (np, extract_restricted_vals ropts ftp (params ftp) (calloc_double np)) in
  _ ← for_loop_m 0 np (fun ii (_ : unit) =>
        if isnan (rd guess ii) then Exits "Initial guess for AIO regression is NaN"
        else if isinf (rd guess ii) then Exits "Initial guess for AIO regression is inf"
        else Returns ()) ();
  '(optimizer', res, guess', val, pp') ←
    c3opt_minimize optimizer np regress_opts_minimize_aio guess pp;
  let ftp' :=
    if (restrict_needed =? 0)%Z then ft_param_update_params (pp_ftp pp') guess'
    else fst (ft_param_update_restricted_ranks (pp_ftp pp') guess'
                (restrict_rank_opt ropts)) in
  Returns (ftp', optimizer', function_train_copy (ftp_ft ftp')).

(** State of the alternating driver; [visited] records, in order, the sweep
    number and the core of every call of the optimizer, [sweeps] the train
    before and after every sweep. *)
Record als_state : Type := mkAlsState {
  st_ftp : FTparam;
  st_opts : RegressOpts;
  st_mem : RegressionMemManager;
  st_optimizer : c3Opt;
  visited : list (nat * nat);
  sweeps : list (FunctionTrain * FunctionTrain)
}.

(** The body both passes of a sweep run for the core [ii]. *)
Definition als_optimize_core (sweep : nat) (n : nat) (x y : list double) (ii : nat)
    (s : als_state) : outcome als_state :=
  let mem1 := regress_mem_manager_reset_running (st_mem s) in
  let ropts := set_als_active_core (st_opts s) ii in
  let mem2 := ft_param_prepare_als_core (st_ftp s) ii mem1 n x in
  let pp := mkPP (st_ftp s) ropts mem2 n x y in
  let nc := rdn (nparams_per_core (st_ftp s)) ii in
  let guess := function_train_core_get_params (ftp_ft (st_ftp s)) ii in
  '(optimizer', res, guess', val, pp') ←
    c3opt_minimize (st_optimizer s) nc regress_opts_minimize_als guess pp;
  Returns (mkAlsState (ft_param_update_core_params (pp_ftp pp') ii guess')
             (pp_opts pp') (pp_mem pp') optimizer'
             (visited s ++ [(sweep, ii)]) (sweeps s)).

(** One sweep: every core from the first to the last, then the interior
    cores from the last but one down to the second.  The bound [dim - 1] of
    the second loop is computed on [size_t]; the model is the code's for a
    train of at least one core. *)
Definition als_sweep (sweep : nat) (n : nat) (x y : list double) (s : als_state)
    : outcome als_state :=
  let d := ftp_dim (st_ftp s) in
  s1 ← for_loop_m 0 d (fun ii s' => als_optimize_core sweep n x y ii s') s;
  for_loop_m 1 (d - 1 - 1) (fun jj s' => als_optimize_core sweep n x y (d - 1 - jj) s') s1.

(** The sweeps [sweep], [sweep + 1], ... while at most [fuel] remain. *)
Fixpoint als_sweeps (fuel sweep : nat) (n : nat) (x y : list double) (s : als_state)
    : outcome als_state :=
  match fuel with
  | O => Returns s
  | S fuel' =>
      let start := function_train_copy (ftp_ft (st_ftp s)) in
      s1 ← als_sweep sweep n x y s;
      let diff := function_train_norm2diff (ftp_ft (st_ftp s1)) start in
      let no := function_train_norm2 (ftp_ft (st_ftp s1)) in
      let s2 :=
        mkAlsState (st_ftp s1) (st_opts s1) (st_mem s1) (st_optimizer s1)
          (visited s1) (sweeps s1 ++ [(start, ftp_ft (st_ftp s1))]) in
      if (diff / no <? als_conv_tol (st_opts s1))%float then Returns s2
      else als_sweeps fuel' (S sweep) n x y s2
  end.

Definition c3_regression_run_als_state (ftp : FTparam) (ropts : RegressOpts)
    (optimizer : c3Opt) (n : nat) (x y : list double) : outcome als_state :=
  let st := ft_param_extract_structure ftp in
  let rks := function_train_get_ranks (ftp_ft ftp) in
  let mem :=
    regress_mem_manager_alloc (ftp_dim ftp) n (nparams_per_core ftp) rks
      (max_param_uni ftp) st in
  als_sweeps (max_als_sweeps ropts) 1 n x y (mkAlsState ftp ropts mem optimizer [] []).

Definition c3_regression_run_als (ftp : FTparam) (ropts : RegressOpts)
    (optimizer : c3Opt) (n : nat) (x y : list double)
    : outcome (FTparam * RegressOpts * c3Opt * FunctionTrain) :=
  s ← c3_regression_run_als_state ftp ropts optimizer n x y;
  Returns (st_ftp s, st_opts s, st_optimizer s, function_train_copy (ftp_ft (st_ftp s))).

(** [c3_regression_run]: the Christoffel block of the source fills a buffer
    that shadows [y] and leaks, so both drivers receive the labels as given. *)
Definition c3_regression_run (ftp : FTparam) (regopts : RegressOpts)
    (optimizer : c3Opt) (n : nat) (x yin : list double)
    : outcome (FTparam * RegressOpts * c3Opt * FunctionTrain) :=
  match ropts_type regopts with
  | AIO =>
      '(ftp', optimizer', f) ← c3_regression_run_aio ftp regopts optimizer n x yin;
      Returns (ftp', regopts, optimizer', f)
  | ALS => c3_regression_run_als ftp regopts optimizer n x yin
  | REGNONE => Exits "Regress opts of type %d is unknown"
  end.


(** ** The regression handle, cross validation and rank adaptation *)

Record FTRegress : Type := mkFTRegress {
  ftr_type : REGTYPE;
  ftr_obj : REGOBJ;
  ftr_dim : nat;
  ftr_approx_opts : MultiApproxOpts;
  ftr_ftp : FTparam;
  regopts : option RegressOpts;
  adapt : Z;
  kickrank : nat;
  maxrank : nat;
  roundtol : double;
  kfold : nat;
  finalize : Z;
  opt_restricted : Z
}.

Definition set_ftr_ftp (ftr : FTRegress) (a : MultiApproxOpts) (ftp : FTparam) : FTRegress :=
  mkFTRegress (ftr_type ftr) (ftr_obj ftr) (ftr_dim ftr) a ftp (regopts ftr) (adapt ftr)
    (kickrank ftr) (maxrank ftr) (roundtol ftr) (kfold ftr) (finalize ftr)
    (opt_restricted ftr).

Definition set_regopts (ftr : FTRegress) (o : option RegressOpts) : FTRegress :=
  mkFTRegress (ftr_type ftr) (ftr_obj ftr) (ftr_dim ftr) (ftr_approx_opts ftr)
    (ftr_ftp ftr) o (adapt ftr) (kickrank ftr) (maxrank ftr) (roundtol ftr) (kfold ftr)
    (finalize ftr) (opt_restricted ftr).

Definition set_adapt (ftr : FTRegress) (a : Z) : FTRegress :=
  mkFTRegress (ftr_type ftr) (ftr_obj ftr) (ftr_dim ftr) (ftr_approx_opts ftr)
    (ftr_ftp ftr) (regopts ftr) a (kickrank ftr) (maxrank ftr) (roundtol ftr) (kfold ftr)
    (finalize ftr) (opt_restricted ftr).

Definition ft_regress_alloc (d : nat) (aopts : MultiApproxOpts) (rks : list nat)
    : FTRegress :=
  mkFTRegress REGNONE REGOBJNONE d aopts (ft_param_alloc d aopts None rks) None
    0 1 10 1e-8%float 3 1 0.

Definition ft_regress_reset_param (ftr : FTRegress) (aopts : MultiApproxOpts)
    (rks : list nat) : FTRegress :=
  set_ftr_ftp ftr aopts (ft_param_alloc (ftr_dim ftr) aopts None rks).

Definition ft_regress_update_params (ftr : FTRegress) (prm : list double) : FTRegress :=
  set_ftr_ftp ftr (ftr_approx_opts ftr) (ft_param_update_params (ftr_ftp ftr) prm).

(** [ft_param_create_from_lin_ls]: the buffer is reallocated with [nparams]
    entries and pushed into the train; the values themselves come from a
    least-squares solve and a random perturbation, both external. *)
Definition ft_param_create_from_lin_ls (ftp : FTparam) (n : nat) (x y : list double)
    (perturb : double) : FTparam :=
  let p := read_n (lin_ls_seed ftp n x y perturb) 0 (nparams ftp) in
  set_params ftp p (function_train_update_params (ftp_ft ftp) p).

Record CrossValidate : Type := mkCrossValidate {
  cv_N : nat;
  cv_dim : nat;
  cv_x : list double;
  cv_y : list double;
  cv_kfold : nat;
  cv_verbose : Z
}.

Definition cross_validate_init (n d : nat) (x y : list double) (k : nat) (verbose : Z)
    : CrossValidate :=
  mkCrossValidate n d x y k verbose.

(** The four buffers [extract_data] fills. *)
Record cv_buffers : Type := mkCvBuffers {
  xtest : list double;
  ytest : list double;
  xtrain : list double;
  ytrain : list double
}.

Definition extract_data (cv : CrossValidate) (start num_extract : nat) (b : cv_buffers)
    : cv_buffers :=
  let d := cv_dim cv in
  let xtest' := memmove (xtest b) 0 (cv_x cv) (start * d) (d * num_extract) in
  let ytest' := memmove (ytest b) 0 (cv_y cv) start num_extract in
  let xtrain1 := memmove (xtrain b) 0 (cv_x cv) 0 (d * start) in
  let ytrain1 := memmove (ytrain b) 0 (cv_y cv) 0 start in
  let xtrain2 :=
    memmove xtrain1 (start * d) (cv_x cv) ((start + num_extract) * d)
      (d * (cv_N cv - start - num_extract)) in
  let ytrain2 :=
    memmove ytrain1 start (cv_y cv) (start + num_extract)
      (cv_N cv - start - num_extract) in
  mkCvBuffers xtest' ytest' xtrain2 ytrain2.

(** What one fold of [cross_validate_run] did: the block it held out, the
    buffers and the handle it passed to [ft_regress_run], the train it got
    back and the two sums it formed on the test block. *)
Record cv_fold : Type := mkCvFold {
  fold_start : nat;
  fold_batch : nat;
  fold_ntrain : nat;
  fold_buffers : cv_buffers;
  fold_reg : FTRegress;
  fold_ft : FunctionTrain;
  fold_newerr : double;
  fold_newnorm : double
}.

Record cv_state : Type := mkCvState {
  cvs_batch : nat;
  cvs_start_num : nat;
  cvs_erri : double;
  cvs_norm : double;
  cvs_reg : FTRegress;
  cvs_optimizer : c3Opt;
  cvs_buffers : cv_buffers;
  cvs_folds : list cv_fold
}.

Section Nested.
(** [ft_regress_run] as called from cross validation and rank adaptation. *)
Variable regress_run :
  FTRegress -> c3Opt -> nat -> list double -> list double ->
  outcome (FTRegress * c3Opt * FunctionTrain).

Definition cross_validate_fold (cv : CrossValidate) (prm : list double) (ii : nat)
    (s : cv_state) : outcome cv_state :=
  let batch := if ii =? cv_kfold cv - 1 then cv_N cv - cvs_start_num s else cvs_batch s in
  let b := extract_data cv (cvs_start_num s) batch (cvs_buffers s) in
  let ntrain := cv_N cv - batch in
  '(reg1, optimizer1, f) ←
    regress_run (cvs_reg s) (cvs_optimizer s) ntrain (xtrain b) (ytrain b);
  let '(newerr, newnorm) :=
    for_loop 0 batch (fun jj '(newerr, newnorm) =>
      let eval := function_train_eval f (xtest b) (jj * cv_dim cv) in
      ((newerr + (rd (ytest b) jj - eval) * (rd (ytest b) jj - eval))%float,
       (newnorm + rd (ytest b) jj * rd (ytest b) jj)%float))
      (0%float, 0%float) in
  Returns
    (mkCvState batch (cvs_start_num s + batch)
       (cvs_erri s + newerr)%float (cvs_norm s + newnorm)%float
       (ft_regress_update_params reg1 prm) optimizer1 b
       (cvs_folds s ++
        [mkCvFold (cvs_start_num s) batch ntrain b (cvs_reg s) f newerr newnorm])).

(** [cross_validate_run]; an integer division by zero ends the process. *)
Definition cross_validate_run (cv : CrossValidate) (reg : FTRegress) (optimizer : c3Opt)
    : outcome (double * FTRegress * c3Opt * list cv_fold) :=
  if cv_kfold cv =? 0 then Exits "cv->N / cv->kfold: division by zero" else
  let batch := cv_N cv / cv_kfold cv in
  let b :=
    mkCvBuffers (calloc_double (cv_N cv * cv_dim cv)) (calloc_double (cv_N cv))
      (calloc_double (cv_N cv * cv_dim cv)) (calloc_double (cv_N cv)) in
  let np := nparams (ftr_ftp reg) in
  let prm := memmove (calloc_double np) 0 (params (ftr_ftp reg)) 0 np in
  s ← for_loop_m 0 (cv_kfold cv) (cross_validate_fold cv prm)
        (mkCvState batch 0 0%float 0%float reg optimizer b []);
  Returns ((cvs_erri s / cvs_norm s)%float, cvs_reg s, cvs_optimizer s, cvs_folds s).

(** [a + b] on [size_t]. *)
Definition size_t_add (a b : nat) : nat :=
  N.to_nat ((N.of_nat a + N.of_nat b) mod 2 ^ 64)%N.

Definition map_regopts (f : RegressOpts -> RegressOpts) (ftr : FTRegress) : FTRegress :=
  set_regopts ftr (f <$> regopts ftr).

Definition ftr_restrict (ftr : FTRegress) : list nat :=
  default [] (restrict_rank_opt <$> regopts ftr).

Definition clear_restrict (ftr : FTRegress) : FTRegress :=
  map_regopts (fun o =>
    set_restrict_rank_opt o
      (for_loop 0 (ftr_dim ftr) (fun ii r => <[ii := 0]> r) (restrict_rank_opt o))) ftr.

(** Loop state of the kick: the working ranks, the restriction thresholds
    and the flag [kicked]. *)
Record kick_state : Type := mkKick {
  k_ranks : list nat;
  k_restrict : list nat;
  kicked : Z
}.

Definition kick_ranks (d : nat) (ftr_ranks : list nat) (kick mx : nat) (s : kick_state)
    : kick_state :=
  for_loop 1 (d - 1) (fun ii s' =>
    if rdn ftr_ranks ii =? rdn (k_ranks s') ii then
      let r := size_t_add (rdn (k_ranks s') ii) kick in
      mkKick (<[ii := if mx <? r then mx else r]> (k_ranks s'))
             (<[ii - 1 := rdn (k_ranks s') ii]> (k_restrict s')) 1
    else s') s.

Definition all_at_max (d : nat) (rks : list nat) (mx : nat) : Z :=
  if forallb (fun ii => negb (rdn rks ii <? mx)) (seq 1 (d - 1)) then 1 else 0.

Record adapt_state : Type := mkAdaptState {
  ra_ftr : FTRegress;
  ra_optimizer : c3Opt;
  ra_ft : FunctionTrain;
  ra_ranks : list nat;
  ra_err : double
}.

(** One pass of the adaptation loop; the flag tells whether the loop goes
    on. *)
Definition rankadapt_iter (cv : CrossValidate) (tol : double) (mx kick : nat)
    (opt_only_restricted : Z) (n : nat) (x y : list double) (s : adapt_state)
    : outcome (adapt_state * bool) :=
  let ftr := ra_ftr s in
  let f := ra_ft s in
  let ftround := function_train_round f tol (approx_opts (ftr_ftp ftr)) in
  let ftr_ranks := function_train_get_ranks ftround in
  let k := kick_ranks (ft_dim f) ftr_ranks kick mx (mkKick (ra_ranks s) (ftr_restrict ftr) 0) in
  let ftr1 := map_regopts (fun o => set_restrict_rank_opt o (k_restrict k)) ftr in
  let allmax := all_at_max (ft_dim f) (k_ranks k) mx in
  if (kicked k =? 0)%Z || (allmax =? 1)%Z then
    Returns (mkAdaptState ftr1 (ra_optimizer s) f (k_ranks k) (ra_err s), false)
  else
    let rounded_params := function_train_get_params ftround in
    let ftr2 := ft_regress_reset_param ftr1 (approx_opts (ftr_ftp ftr1)) (k_ranks k) in
    let ftr3 :=
      if (opt_only_restricted =? 1)%Z then
        let ftp1 :=
          fst (ft_param_update_inside_restricted_ranks (ftr_ftp ftr2) rounded_params
                 (ftr_restrict ftr2)) in
        let nnew_solve := ft_param_get_nparams_restrict ftp1 (ftr_restrict ftr2) in
        let init_new := replicate nnew_solve 1e-4%float in
        set_ftr_ftp ftr2 (ftr_approx_opts ftr2)
          (fst (ft_param_update_restricted_ranks ftp1 init_new (ftr_restrict ftr2)))
      else clear_restrict ftr2 in
    '(new_err, ftr4, optimizer1, _) ← cross_validate_run cv ftr3 (ra_optimizer s);
    if (ra_err s <? new_err)%float then
      let ftr5 := ft_regress_reset_param ftr4 (approx_opts (ftr_ftp ftr4)) ftr_ranks in
      let ftr6 :=
        set_ftr_ftp ftr5 (ftr_approx_opts ftr5)
          (ft_param_update_params (ftr_ftp ftr5) rounded_params) in
      Returns (mkAdaptState ftr6 optimizer1 (function_train_copy (ftp_ft (ftr_ftp ftr6)))
                 (k_ranks k) (ra_err s), false)
    else
      '(ftr5, optimizer2, f') ← regress_run ftr4 optimizer1 n x y;
      Returns (mkAdaptState ftr5 optimizer2 f' (k_ranks k) new_err, true).

(** The adaptation loop with [maxiter] passes left. *)
Fixpoint rankadapt_loop (maxiter : nat) (cv : CrossValidate) (tol : double)
    (mx kick : nat) (opt_only_restricted : Z) (n : nat) (x y : list double)
    (s : adapt_state) : outcome adapt_state :=
  match maxiter with
  | O => Returns s
  | S m =>
      match rankadapt_iter cv tol mx kick opt_only_restricted n x y s with
      | Returns (s', true) =>
          rankadapt_loop m cv tol mx kick opt_only_restricted n x y s'
      | Returns (s', false) => Returns s'
      | Exits d => Exits d
      | Unfinished => Unfinished
      end
  end.

Definition ft_regress_run_rankadapt (ftr : FTRegress) (tol : double) (mx kick : nat)
    (optimizer : c3Opt) (opt_only_restricted : Z) (n : nat) (x y : list double)
    (fin : Z) : outcome (FTRegress * c3Opt * FunctionTrain) :=
  match regopts ftr with
  | None => Exits "assert (ftr->regopts != NULL)"
  | Some _ =>
      let ftr0 := set_adapt ftr 0 in
      let cv := cross_validate_init n (ftr_dim ftr0) x y 5 0 in
      '(err, ftr1, optimizer1, _) ← cross_validate_run cv ftr0 optimizer;
      '(ftr2, optimizer2, f) ← regress_run ftr1 optimizer1 n x y;
      let rks := map (rdn (function_train_get_ranks f)) (seq 0 (ftr_dim ftr2 + 1)) in
      s ← rankadapt_loop 10 cv tol mx kick opt_only_restricted n x y
            (mkAdaptState ftr2 optimizer2 f rks err);
      '(ftr3, optimizer3, f') ←
        (if (fin =? 1)%Z then
           regress_run (clear_restrict (ra_ftr s)) (ra_optimizer s) n x y
         else Returns (ra_ftr s, ra_optimizer s, ra_ft s));
      Returns (set_adapt ftr3 1, optimizer3, f')
  end.

End Nested.

(** [ft_regress_run]; [depth] bounds how deep runs nest in adaptations. *)
Fixpoint ft_regress_run (depth : nat) (ftr : FTRegress) (optimizer : c3Opt) (n : nat)
    (x y : list double) : outcome (FTRegress * c3Opt * FunctionTrain) :=
  match depth with
  | O => Unfinished
  | S depth' =>
      match regopts ftr with
      | None => Exits "assert (ftr->regopts != NULL)"
      | Some ro =>
          let ftp := ftr_ftp ftr in
          let param_norm := cblas_ddot (nparams ftp) (params ftp) (params ftp) in
          let ftp1 :=
            if (fabs param_norm <=? 1e-15)%float
            then ft_param_create_from_lin_ls ftp n x y 1e-3%float else ftp in
          let ftr1 := set_ftr_ftp ftr (ftr_approx_opts ftr) ftp1 in
          if (adapt ftr1 =? 1)%Z then
            ft_regress_run_rankadapt (ft_regress_run depth') ftr1 (roundtol ftr1)
              (maxrank ftr1) (kickrank ftr1) optimizer (opt_restricted ftr1) n x y
              (finalize ftr1)
          else
            '(ftp2, ro', optimizer', f) ← c3_regression_run ftp1 ro optimizer n x y;
            Returns (set_regopts (set_ftr_ftp ftr1 (ftr_approx_opts ftr1) ftp2) (Some ro'),
                     optimizer', f)
      end
  end.


(** ** Cross validation: the folds *)

Lemma length_memmove (dst : list double) (off : nat) (src : list double) (soff n : nat) :
  length (memmove dst off src soff n) = length dst.
Proof. unfold memmove. apply length_inserts. Qed.


Lemma rd_memmove (dst : list double) (off : nat) (src : list double) (soff n j : nat) :
  rd (memmove dst off src soff n) j =
  if decide (off <= j < off + n /\ j < length dst) then rd src (soff + (j - off))
  else rd dst j.
Proof.
  unfold memmove, rd at 1. rewrite nth_lookup.
  destruct (decide (off <= j < off + n /\ j < length dst)) as [[Hj Hl]|Hn].
  - rewrite list_lookup_inserts by (rewrite ?length_read_n; lia).
    unfold read_n. rewrite list_lookup_fmap, lookup_seq_lt by lia. done.
  - destruct (decide (j < length dst)) as [Hl|Hl].
    + destruct (decide (j < off)) as [Hlt|Hge].
      * rewrite list_lookup_inserts_lt by done. by rewrite <- nth_lookup.
      * rewrite list_lookup_inserts_ge by (rewrite length_read_n; lia).
        by rewrite <- nth_lookup.
    + rewrite lookup_ge_None_2 by (rewrite length_inserts; lia).
      unfold rd. rewrite nth_overflow by lia. done.
Qed.













(** ** What the updates and the drivers leave unchanged *)

(** Two parameterised trains of the same shape: the same dimension, counts,
    ranks and buffer sizes; only parameter values may differ. *)
Definition same_shape (a b : FTparam) : Prop :=
  ftp_dim b = ftp_dim a /\
  nparams_per_uni b = nparams_per_uni a /\
  nparams_per_core b = nparams_per_core a /\
  max_param_uni b = max_param_uni a /\
  nparams b = nparams a /\
  approx_opts b = approx_opts a /\
  length (params b) = length (params a) /\
  ft_dim (ftp_ft b) = ft_dim (ftp_ft a) /\
  ranks (ftp_ft b) = ranks (ftp_ft a) /\
  ft_core_nparams (ftp_ft b) = ft_core_nparams (ftp_ft a) /\
  length (ft_vals (ftp_ft b)) = length (ft_vals (ftp_ft a)).

Definition params_sized (ftp : FTparam) : Prop := length (params ftp) = nparams ftp.

Lemma same_shape_refl (a : FTparam) : same_shape a a.
Proof. unfold same_shape. repeat split; done. Qed.

Lemma same_shape_trans (a b c : FTparam) :
  same_shape a b -> same_shape b c -> same_shape a c.
Proof.
  unfold same_shape. intros H1 H2.
  destruct H1 as (?&?&?&?&?&?&?&?&?&?&?), H2 as (?&?&?&?&?&?&?&?&?&?&?).
  repeat split; congruence.
Qed.

Lemma same_shape_sized (a b : FTparam) :
  same_shape a b -> params_sized a -> params_sized b.
Proof.
  unfold same_shape, params_sized. intros (?&?&?&?&?&?&?&?&?&?&?) ?. congruence.
Qed.

Lemma same_shape_update_params (ftp : FTparam) (p : list double) :
  same_shape ftp (ft_param_update_params ftp p).
Proof.
  unfold same_shape, ft_param_update_params. cbn.
  rewrite length_memmove, length_read_n. repeat split; done.
Qed.

Lemma length_buf_fold_store_if (src : list double) (m : list bool) (s : upd_state) :
  length (buf (fold_left (fun s' b => store_if src b s') m s)) = length (buf s).
Proof.
  revert s. induction m as [|b m IH]; intros s; [done|].
  cbn [fold_left]. rewrite IH. destruct b; cbn; [|done]. by rewrite length_insert.
Qed.

Lemma length_buf_update_loops (c : nat * nat * nat -> bool) (ftp : FTparam)
    (prm : list double) :
  length (buf (update_loops c ftp prm)) = length (params ftp).
Proof.
  rewrite update_loops_visit, visit_func_mask. cbn [buf set_ind].
  by rewrite length_buf_fold_store_if.
Qed.

Lemma same_shape_update_restricted (ftp : FTparam) (p : list double) (rs : list nat) :
  same_shape ftp (fst (ft_param_update_restricted_ranks ftp p rs)).
Proof.
  rewrite update_restricted_loops. unfold same_shape. cbn.
  rewrite length_buf_update_loops, length_read_n. repeat split; done.
Qed.

Lemma same_shape_update_inside (ftp : FTparam) (p : list double) (rs : list nat) :
  same_shape ftp (fst (ft_param_update_inside_restricted_ranks ftp p rs)).
Proof.
  rewrite update_inside_loops. unfold same_shape. cbn.
  rewrite length_buf_update_loops, length_read_n. repeat split; done.
Qed.

Lemma same_shape_update_core (ftp : FTparam) (core : nat) (p : list double) :
  same_shape ftp (ft_param_update_core_params ftp core p).
Proof.
  unfold same_shape, ft_param_update_core_params. cbn.
  rewrite !length_memmove. repeat split; done.
Qed.

Lemma same_shape_create_from_lin_ls (ftp : FTparam) (n : nat) (x y : list double)
    (perturb : double) :
  params_sized ftp -> same_shape ftp (ft_param_create_from_lin_ls ftp n x y perturb).
Proof.
  unfold same_shape, params_sized, ft_param_create_from_lin_ls. intros Hs. cbn.
  rewrite !length_read_n. repeat split; done.
Qed.

(** What a callback leaves unchanged in the state behind [args]. *)
Definition same_args (a b : PP) : Prop :=
  same_shape (pp_ftp a) (pp_ftp b) /\ pp_opts b = pp_opts a /\
  pp_N b = pp_N a /\ pp_x b = pp_x a /\ pp_y b = pp_y a.

Lemma same_args_refl (a : PP) : same_args a a.
Proof. unfold same_args. split; [apply same_shape_refl|done]. Qed.

Lemma same_args_trans (a b c : PP) : same_args a b -> same_args b c -> same_args a c.
Proof.
  unfold same_args. intros (?&?&?&?&?) (?&?&?&?&?).
  split; [by eapply same_shape_trans|]. repeat split; congruence.
Qed.

Lemma objective_calls_preserve (R : PP -> PP -> Prop) (f : objective) (pp pp' : PP) :
  (forall a, R a a) ->
  (forall a b c, R a b -> R b c -> R a c) ->
  (forall n p g a v g' b, f n p g a = Returns (v, g', b) -> R a b) ->
  objective_calls f pp pp' -> R pp pp'.
Proof.
  intros Hrefl Htrans Hstep Hcalls. induction Hcalls as [a|a b c n p g g' v Hf _ IH].
  - apply Hrefl.
  - eapply Htrans; [|exact IH]. by eapply Hstep.
Qed.

Lemma minimize_aio_same_args (n : nat) (p : list double) (g g' : option (list double))
    (pp pp' : PP) (v : double) :
  regress_opts_minimize_aio n p g pp = Returns (v, g', pp') -> same_args pp pp'.
Proof.
  unfold regress_opts_minimize_aio.
  destruct (for_loop_m 0 n _ ()) as [[]|dg|]; [|done|done].
  cbn [mbind outcome_bind].
  set (mem2 := regress_mem_manager_reset_running _).
  destruct (restrict_ranksp (pp_opts pp) =? 0)%Z.
  - destruct (ft_param_eval_objective_aio _ _ _ _ _ _ _)
      as [[[e g2] m3]|dg|]; [|done|done].
    cbn [mbind outcome_bind].
    destruct (isnan e); [done|]. destruct (isinf e); [done|].
    intros [= <- <- <-]. unfold same_args. cbn.
    split; [apply same_shape_update_params|done].
  - destruct g as [g0|].
    + destruct (ft_param_eval_objective_aio_ls _ _ _ _ _ _)
        as [[[e gu] m3]|dg|]; [|done|done].
      cbn [mbind outcome_bind].
      destruct (isnan e); [done|]. destruct (isinf e); [done|].
      intros [= <- <- <-]. unfold same_args. cbn.
      split; [apply same_shape_update_restricted|done].
    + destruct (ft_param_eval_objective_aio _ _ _ _ _ _ _)
        as [[[e g2] m3]|dg|]; [|done|done].
      cbn [mbind outcome_bind].
      destruct (isnan e); [done|]. destruct (isinf e); [done|].
      intros [= <- <- <-]. unfold same_args. cbn.
      split; [apply same_shape_update_restricted|done].
Qed.

Lemma minimize_als_same_args (n : nat) (p : list double) (g g' : option (list double))
    (pp pp' : PP) (v : double) :
  regress_opts_minimize_als n p g pp = Returns (v, g', pp') -> same_args pp pp'.
Proof.
  unfold regress_opts_minimize_als.
  destruct (ft_param_eval_objective_als _ _ _ _ _ _ _)
    as [[[e g2] m3]|dg|]; [|done|done].
  cbn [mbind outcome_bind]. intros [= <- <- <-]. unfold same_args. cbn.
  split; [apply same_shape_update_core|done].
Qed.

Lemma c3_regression_run_aio_shape (ftp : FTparam) (ropts : RegressOpts)
    (optimizer : c3Opt) (n : nat) (x y : list double) (ftp' : FTparam)
    (optimizer' : c3Opt) (f : FunctionTrain) :
  optimizer_calls_objective_only ->
  c3_regression_run_aio ftp ropts optimizer n x y = Returns (ftp', optimizer', f) ->
  same_shape ftp ftp' /\ f = ftp_ft ftp'.
Proof.
  intros Hopt. unfold c3_regression_run_aio.
  destruct (if (restrict_ranksp ropts =? 0)%Z then _ else _) as [np guess].
  destruct (for_loop_m 0 np _ ()) as [[]|dg|]; [|done|done].
  cbn [mbind outcome_bind].
  destruct (c3opt_minimize _ _ _ _ _) as [[[[[o res] guess'] val] pp']|dg|] eqn:Hmin;
    [|done|done].
  cbn [mbind outcome_bind]. intros [= <- <- <-]. split; [|done].
  apply Hopt in Hmin.
  apply (objective_calls_preserve same_args) in Hmin;
    [|apply same_args_refl|apply same_args_trans|].
  2:{ intros. by eapply minimize_aio_same_args. }
  destruct Hmin as [Hshape _]. cbn in Hshape.
  eapply same_shape_trans; [exact Hshape|].
  destruct (restrict_ranksp ropts =? 0)%Z;
    [apply same_shape_update_params|apply same_shape_update_restricted].
Qed.


(** ** Alternating least squares: the sweeps *)

(** The offset of a core in the flat buffer, as [ft_param_update_core_params]
    computes it. *)
Definition core_offset (ftp : FTparam) (core : nat) : nat :=
  for_loop 0 core (fun ii acc => acc + rdn (nparams_per_core ftp) ii) 0.

(** Every parameter outside the slice of [core] has the same value in [a]
    and [b]. *)
Definition outside_core_unchanged (core : nat) (a b : FTparam) : Prop :=
  forall j,
    ~ (core_offset a core <= j < core_offset a core + rdn (nparams_per_core a) core) ->
    rd (params b) j = rd (params a) j.

(** The cores in the order one sweep optimizes them. *)
Definition sweep_order (d : nat) : list nat := seq 0 d ++ reverse (seq 1 (d - 2)).

(** The relative change between the train before and after a sweep. *)
Definition rel_change (p : FunctionTrain * FunctionTrain) : double :=
  (function_train_norm2diff (snd p) (fst p) / function_train_norm2 (snd p))%float.

(** The sweeps in [l] stop by the rule of the driver: at most [fuel] of
    them, none but the last below the tolerance, and the last below it
    unless all [fuel] were run. *)
Definition stops_by_rule (tol : double) (fuel : nat)
    (l : list (FunctionTrain * FunctionTrain)) : Prop :=
  length l <= fuel /\
  (forall i p, l !! i = Some p -> S i < length l -> (rel_change p <? tol)%float = false) /\
  (length l < fuel ->
   exists p, last l = Some p /\ (rel_change p <? tol)%float = true).

(** Consecutive sweeps: each starts from the train the previous one left. *)
Fixpoint chained (f0 : FunctionTrain) (l : list (FunctionTrain * FunctionTrain))
    : Prop :=
  match l with
  | [] => True
  | p :: l' => fst p = f0 /\ chained (snd p) l'
  end.

Lemma outside_core_update (ftp : FTparam) (core : nat) (p : list double) :
  outside_core_unchanged core ftp (ft_param_update_core_params ftp core p).
Proof.
  intros j Hj. unfold ft_param_update_core_params. cbn [params set_params].
  rewrite rd_memmove. fold (core_offset ftp core).
  rewrite decide_False; [done|]. intros [Hin _]. by apply Hj.
Qed.

Lemma outside_core_trans (core : nat) (a b c : FTparam) :
  same_shape a b ->
  outside_core_unchanged core a b -> outside_core_unchanged core b c ->
  outside_core_unchanged core a c.
Proof.
  intros Hs Hab Hbc j Hj.
  assert (Hnpc : nparams_per_core b = nparams_per_core a) by apply Hs.
  assert (Hoff : core_offset b core = core_offset a core).
  { unfold core_offset. by rewrite Hnpc. }
  rewrite Hbc, Hab; [done|done|]. by rewrite Hoff, Hnpc.
Qed.

(** What a call of the alternating objective may change. *)
Definition als_args_step (a b : PP) : Prop :=
  same_args a b /\
  outside_core_unchanged (als_active_core (pp_opts a)) (pp_ftp a) (pp_ftp b).

Lemma minimize_als_step (n : nat) (p : list double) (g g' : option (list double))
    (pp pp' : PP) (v : double) :
  regress_opts_minimize_als n p g pp = Returns (v, g', pp') -> als_args_step pp pp'.
Proof.
  intros H. split; [by eapply minimize_als_same_args|].
  revert H. unfold regress_opts_minimize_als.
  destruct (ft_param_eval_objective_als _ _ _ _ _ _ _)
    as [[[e g2] m3]|dg|]; [|done|done].
  cbn [mbind outcome_bind]. intros [= <- <- <-]. cbn. apply outside_core_update.
Qed.

Lemma als_args_step_refl (a : PP) : als_args_step a a.
Proof. split; [apply same_args_refl|]. by intros j _. Qed.

Lemma als_args_step_trans (a b c : PP) :
  als_args_step a b -> als_args_step b c -> als_args_step a c.
Proof.
  intros [Hab Fab] [Hbc Fbc]. split; [by eapply same_args_trans|].
  assert (Ho : pp_opts b = pp_opts a) by apply Hab. rewrite Ho in Fbc.
  eapply outside_core_trans; [apply Hab|done|done].
Qed.

Lemma als_optimize_core_spec (sweep n : nat) (x y : list double) (ii : nat)
    (s s' : als_state) :
  optimizer_calls_objective_only ->
  als_optimize_core sweep n x y ii s = Returns s' ->
  same_shape (st_ftp s) (st_ftp s') /\
  outside_core_unchanged ii (st_ftp s) (st_ftp s') /\
  st_opts s' = set_als_active_core (st_opts s) ii /\
  visited s' = visited s ++ [(sweep, ii)] /\
  sweeps s' = sweeps s.
Proof.
  intros Hopt. unfold als_optimize_core.
  destruct (c3opt_minimize _ _ _ _ _) as [[[[[o res] guess'] val] pp']|dg|] eqn:Hmin;
    [|done|done].
  cbn [mbind outcome_bind]. intros [= <-]. cbn.
  apply Hopt in Hmin.
  apply (objective_calls_preserve als_args_step) in Hmin;
    [|apply als_args_step_refl|apply als_args_step_trans|].
  2:{ intros. by eapply minimize_als_step. }
  destruct Hmin as [(Hshape & Hopts & _) Hframe]. cbn in Hshape, Hopts, Hframe.
  split; [|split; [|done]].
  - eapply same_shape_trans; [exact Hshape|apply same_shape_update_core].
  - eapply outside_core_trans; [exact Hshape|exact Hframe|apply outside_core_update].
Qed.

Lemma als_pass_spec (sweep n : nat) (x y : list double) (core : nat -> nat)
    (lo cnt : nat) (s s' : als_state) :
  optimizer_calls_objective_only ->
  for_loop_m lo cnt (fun i t => als_optimize_core sweep n x y (core i) t) s = Returns s' ->
  same_shape (st_ftp s) (st_ftp s') /\
  als_conv_tol (st_opts s') = als_conv_tol (st_opts s) /\
  visited s' = visited s ++ map (fun i => (sweep, core i)) (seq lo cnt) /\
  sweeps s' = sweeps s.
Proof.
  intros Hopt. revert lo s. induction cnt as [|cnt IH]; intros lo s.
  - cbn. intros [= <-]. rewrite app_nil_r. split; [apply same_shape_refl|done].
  - cbn [for_loop_m].
    destruct (als_optimize_core sweep n x y (core lo) s) as [t|dg|] eqn:Hstep;
      [|done|done].
    cbn [mbind outcome_bind]. intros Hrest.
    apply als_optimize_core_spec in Hstep as (Hs1 & _ & Ho1 & Hv1 & Hw1); [|done].
    apply IH in Hrest as (Hs2 & Ho2 & Hv2 & Hw2).
    split; [by eapply same_shape_trans|]. split; [|split].
    + rewrite Ho2, Ho1. done.
    + rewrite Hv2, Hv1, <- app_assoc. done.
    + congruence.
Qed.

Lemma reverse_seq_interior (d : nat) :
  map (fun jj => d - 1 - jj) (seq 1 (d - 1 - 1)) = reverse (seq 1 (d - 2)).
Proof.
  apply list_eq. intros i.
  replace (d - 1 - 1) with (d - 2) by lia.
  destruct (decide (i < d - 2)) as [Hlt|Hge].
  - rewrite reverse_lookup by (rewrite length_seq; lia).
    rewrite length_seq, list_lookup_fmap, !lookup_seq_lt by lia. cbn. f_equal. lia.
  - rewrite !lookup_ge_None_2; [done| |];
      rewrite ?length_reverse, ?length_map, length_seq; lia.
Qed.

Lemma als_sweep_spec (sweep n : nat) (x y : list double) (s s' : als_state) :
  optimizer_calls_objective_only ->
  als_sweep sweep n x y s = Returns s' ->
  same_shape (st_ftp s) (st_ftp s') /\
  als_conv_tol (st_opts s') = als_conv_tol (st_opts s) /\
  visited s' = visited s ++ map (pair sweep) (sweep_order (ftp_dim (st_ftp s))) /\
  sweeps s' = sweeps s.
Proof.
  intros Hopt. unfold als_sweep.
  destruct (for_loop_m 0 _ _ s) as [s1|dg|] eqn:Hfwd; [|done|done].
  cbn [mbind outcome_bind]. intros Hbwd.
  apply (als_pass_spec sweep n x y (fun i => i)) in Hfwd as (Hs1 & Ho1 & Hv1 & Hw1);
    [|done].
  apply (als_pass_spec sweep n x y (fun jj => ftp_dim (st_ftp s) - 1 - jj)) in Hbwd
    as (Hs2 & Ho2 & Hv2 & Hw2); [|done].
  split; [by eapply same_shape_trans|]. split; [congruence|]. split; [|congruence].
  rewrite Hv2, Hv1, <- app_assoc. f_equal. unfold sweep_order.
  rewrite map_app, <- reverse_seq_interior, !map_map. done.
Qed.

Lemma als_sweeps_spec (fuel : nat) :
  forall (sweep n : nat) (x y : list double) (s s' : als_state),
    optimizer_calls_objective_only ->
    als_sweeps fuel sweep n x y s = Returns s' ->
    exists l,
      sweeps s' = sweeps s ++ l /\
      stops_by_rule (als_conv_tol (st_opts s)) fuel l /\
      chained (ftp_ft (st_ftp s)) l /\
      ftp_ft (st_ftp s') = default (ftp_ft (st_ftp s)) (snd <$> last l) /\
      same_shape (st_ftp s) (st_ftp s') /\
      visited s' =
        visited s ++
        flat_map (fun sw => map (pair sw) (sweep_order (ftp_dim (st_ftp s))))
                 (seq sweep (length l)).
Proof.
  induction fuel as [|fuel IH]; intros sweep n x y s s' Hopt.
  - cbn. intros [= <-]. exists []. rewrite !app_nil_r.
    split; [done|]. split.
    { split; [done|]. split; [by intros i p Hp; rewrite lookup_nil in Hp|].
      cbn. lia. }
    split; [done|]. split; [done|]. split; [apply same_shape_refl|done].
  - cbn [als_sweeps].
    destruct (als_sweep sweep n x y s) as [s1|dg|] eqn:Hsw; [|done|done].
    cbn [mbind outcome_bind].
    apply als_sweep_spec in Hsw as (Hs1 & Ho1 & Hv1 & Hw1); [|done].
    unfold function_train_copy.
    set (p := (ftp_ft (st_ftp s), ftp_ft (st_ftp s1))).
    change (function_train_norm2diff (ftp_ft (st_ftp s1)) (ftp_ft (st_ftp s)) /
            function_train_norm2 (ftp_ft (st_ftp s1)))%float with (rel_change p).
    destruct (rel_change p <? als_conv_tol (st_opts s1))%float eqn:Hcmp.
    + intros [= <-]. exists [p].
      cbn [sweeps visited st_ftp st_opts length seq flat_map last fmap option_fmap
           option_map default snd].
      rewrite Hw1, Hv1, app_nil_r.
      split; [done|]. split.
      { split; [cbn; lia|]. split.
        - intros i q Hq Hi. cbn in Hi. lia.
        - intros _. exists p. split; [done|]. by rewrite <- Ho1. }
      split; [done|]. split; [done|]. split; [done|done].
    + intros Hrest. apply IH in Hrest as (l & Hw & Hstop & Hch & Hft & Hs2 & Hv); [|done].
      cbn in Hw, Hstop, Hch, Hft, Hs2, Hv.
      exists (p :: l). rewrite Hw, Hw1, <- app_assoc.
      split; [done|]. split.
      { destruct Hstop as (Hlen & Hmid & Hlast). rewrite Ho1 in Hmid, Hlast.
        split; [cbn; lia|]. split.
        - intros i q Hq Hi. destruct i as [|i].
          + injection Hq as <-. by rewrite <- Ho1.
          + cbn in Hq, Hi. apply (Hmid i); [done|lia].
        - intros Hl. cbn in Hl. destruct Hlast as (q & Hq & Hlt); [lia|].
          exists q. split; [|done]. destruct l as [|q' l]; [done|].
          by change (last (p :: q' :: l)) with (last (q' :: l)). }
      split; [done|]. split.
      { rewrite Hft. destruct l as [|q l]; [done|].
        change (last (p :: q :: l)) with (last (q :: l)).
        destruct (last (q :: l)) as [r|] eqn:Hlast; [done|].
        by apply last_None in Hlast. }
      split; [by eapply same_shape_trans|].
      rewrite Hv, Hv1, <- app_assoc. cbn [length seq flat_map].
      assert (Hd : ftp_dim (st_ftp s1) = ftp_dim (st_ftp s)) by apply Hs1.
      by rewrite Hd.
Qed.



Lemma c3_regression_run_shape (ftp : FTparam) (ropts : RegressOpts)
    (optimizer : c3Opt) (n : nat) (x y : list double) (ftp' : FTparam)
    (ropts' : RegressOpts) (optimizer' : c3Opt) (f : FunctionTrain) :
  optimizer_calls_objective_only ->
  c3_regression_run ftp ropts optimizer n x y = Returns (ftp', ropts', optimizer', f) ->
  same_shape ftp ftp' /\ f = ftp_ft ftp'.
Proof.
  intros Hopt. unfold c3_regression_run. destruct (ropts_type ropts); [| |done].
  - unfold c3_regression_run_als, c3_regression_run_als_state.
    destruct (als_sweeps _ _ _ _ _ _) as [s|dg|] eqn:Hrun; [|done|done].
    cbn [mbind outcome_bind]. intros [= <- <- <- <-].
    apply als_sweeps_spec in Hrun as (l & _ & _ & _ & _ & Hs & _); [|done].
    by split.
  - destruct (c3_regression_run_aio _ _ _ _ _ _) as [[[p o] f0]|dg|] eqn:Hrun;
      [|done|done].
    cbn [mbind outcome_bind]. intros [= <- <- <- <-].
    by apply c3_regression_run_aio_shape in Hrun.
Qed.


(** ** Cross validation: the parameters *)

(** What cross validation and rank adaptation rely on in a run of the
    regression with adaptation off: the handle keeps adaptation off, its
    dimension and the shape of its train, and the train returned is a copy
    of the handle's. *)
Definition run_contract
    (run : FTRegress -> c3Opt -> nat -> list double -> list double ->
           outcome (FTRegress * c3Opt * FunctionTrain)) : Prop :=
  forall reg optimizer n x y reg' optimizer' f,
    adapt reg = 0%Z ->
    params_sized (ftr_ftp reg) ->
    run reg optimizer n x y = Returns (reg', optimizer', f) ->
    adapt reg' = 0%Z /\ ftr_dim reg' = ftr_dim reg /\
    same_shape (ftr_ftp reg) (ftr_ftp reg') /\ f = ftp_ft (ftr_ftp reg').

Lemma ft_regress_run_contract (depth : nat) :
  optimizer_calls_objective_only -> run_contract (ft_regress_run depth).
Proof.
  intros Hopt reg optimizer n x y reg' optimizer' f Hadapt Hsized.
  destruct depth as [|depth]; [done|]. cbn [ft_regress_run].
  destruct (regopts reg) as [ro|]; [|done].
  set (ftp1 := if (_ <=? _)%float then _ else _).
  assert (Hs1 : same_shape (ftr_ftp reg) ftp1).
  { unfold ftp1. destruct (_ <=? _)%float;
      [by apply same_shape_create_from_lin_ls|apply same_shape_refl]. }
  cbn [adapt set_ftr_ftp]. rewrite Hadapt. cbn [Z.eqb].
  destruct (c3_regression_run _ _ _ _ _ _) as [[[[p ro'] o] f0]|dg|] eqn:Hrun;
    [|done|done].
  cbn [mbind outcome_bind]. intros [= <- <- <-]. cbn.
  apply c3_regression_run_shape in Hrun as [Hs2 ->]; [|done].
  split; [done|]. split; [done|]. split; [by eapply same_shape_trans|done].
Qed.

Lemma snapshot_is_params (ftp : FTparam) :
  params_sized ftp ->
  memmove (calloc_double (nparams ftp)) 0 (params ftp) 0 (nparams ftp) = params ftp.
Proof.
  unfold params_sized. intros Hs. rewrite <- Hs. apply memmove_all.
  unfold calloc_double. by rewrite length_replicate.
Qed.

Lemma update_params_restores (ftp : FTparam) (prm : list double) :
  length (params ftp) = length prm -> nparams ftp = length prm ->
  params (ft_param_update_params ftp prm) = prm.
Proof.
  intros Hl Hn. unfold ft_param_update_params. cbn [params set_params].
  rewrite Hn. by apply memmove_all.
Qed.

(** The invariant of the loop over the folds, for the parameters. *)
Definition cv_params_inv (reg : FTRegress) (s : cv_state) : Prop :=
  adapt (cvs_reg s) = 0%Z /\ ftr_dim (cvs_reg s) = ftr_dim reg /\
  same_shape (ftr_ftp reg) (ftr_ftp (cvs_reg s)) /\
  params (ftr_ftp (cvs_reg s)) = params (ftr_ftp reg) /\
  (forall fd, fd ∈ cvs_folds s -> params (ftr_ftp (fold_reg fd)) = params (ftr_ftp reg)).

Lemma cross_validate_fold_params
    (run : FTRegress -> c3Opt -> nat -> list double -> list double ->
           outcome (FTRegress * c3Opt * FunctionTrain))
    (cv : CrossValidate) (reg : FTRegress) (i : nat) (s s' : cv_state) :
  run_contract run ->
  params_sized (ftr_ftp reg) ->
  cv_params_inv reg s ->
  cross_validate_fold run cv (params (ftr_ftp reg)) i s = Returns s' ->
  cv_params_inv reg s' /\
  ft_vals (ftp_ft (ftr_ftp (cvs_reg s'))) =
    read_n (params (ftr_ftp reg)) 0 (length (ft_vals (ftp_ft (ftr_ftp reg)))).
Proof.
  intros Hrun Hsized (Hadapt & Hdim & Hshape & Hparams & Hfolds).
  unfold cross_validate_fold.
  destruct (run _ _ _ _ _) as [[[reg1 opt1] f]|dg|] eqn:Hcall; [|done|done].
  cbn [mbind outcome_bind].
  destruct (for_loop 0 _ _ _) as [newerr newnorm].
  intros [= <-]. 
  apply Hrun in Hcall as (Ha1 & Hd1 & Hs1 & _);
    [|done|by eapply same_shape_sized].
  assert (Hs : same_shape (ftr_ftp reg) (ftr_ftp reg1)) by (by eapply same_shape_trans).
  assert (Hlen : length (params (ftr_ftp reg1)) = length (params (ftr_ftp reg)))
    by apply Hs.
  assert (Hnp : nparams (ftr_ftp reg1) = length (params (ftr_ftp reg))).
  { destruct Hs as (_&_&_&_&Hn&_). by rewrite Hn. }
  unfold cv_params_inv. cbn [cvs_reg cvs_folds]. split; [split; [|split; [|split; [|split]]]|].
  - done.
  - cbn. congruence.
  - cbn [ft_regress_update_params ftr_ftp set_ftr_ftp].
    eapply same_shape_trans; [exact Hs|apply same_shape_update_params].
  - cbn [ft_regress_update_params ftr_ftp set_ftr_ftp].
    by apply update_params_restores.
  - intros fd Hfd. apply elem_of_app in Hfd as [Hfd|Hfd]; [by apply Hfolds|].
    apply list_elem_of_singleton in Hfd as ->. done.
  - cbn [ft_regress_update_params ftr_ftp set_ftr_ftp].
    unfold ft_param_update_params. cbn [ftp_ft set_params].
    unfold function_train_update_params. cbn [ft_vals].
    rewrite Hnp, memmove_all by done. f_equal. apply Hs.
Qed.

Lemma cross_validate_run_restores
    (run : FTRegress -> c3Opt -> nat -> list double -> list double ->
           outcome (FTRegress * c3Opt * FunctionTrain))
    (cv : CrossValidate) (reg : FTRegress) (optimizer : c3Opt) (err : double)
    (reg' : FTRegress) (optimizer' : c3Opt) (folds : list cv_fold) :
  run_contract run ->
  adapt reg = 0%Z ->
  params_sized (ftr_ftp reg) ->
  cross_validate_run run cv reg optimizer = Returns (err, reg', optimizer', folds) ->
  adapt reg' = 0%Z /\ ftr_dim reg' = ftr_dim reg /\
  same_shape (ftr_ftp reg) (ftr_ftp reg') /\
  params (ftr_ftp reg') = params (ftr_ftp reg) /\
  (forall fd, fd ∈ folds -> params (ftr_ftp (fold_reg fd)) = params (ftr_ftp reg)) /\
  ft_vals (ftp_ft (ftr_ftp reg')) =
    read_n (params (ftr_ftp reg)) 0 (length (ft_vals (ftp_ft (ftr_ftp reg)))).
Proof.
  intros Hrun Hadapt Hsized. unfold cross_validate_run.
  destruct (Nat.eqb_spec (cv_kfold cv) 0) as [|Hk]; [done|].
  rewrite snapshot_is_params by done.
  destruct (for_loop_m 0 (cv_kfold cv) _ _) as [s|dg|] eqn:Hloop; [|done|done].
  cbn [mbind outcome_bind]. intros [= <- <- <- <-].
  destruct (cv_kfold cv) as [|k]; [done|].
  assert (Hinv : forall lo cnt t t',
    cv_params_inv reg t ->
    for_loop_m lo (S cnt) (cross_validate_fold run cv (params (ftr_ftp reg))) t
      = Returns t' ->
    cv_params_inv reg t' /\
    ft_vals (ftp_ft (ftr_ftp (cvs_reg t'))) =
      read_n (params (ftr_ftp reg)) 0 (length (ft_vals (ftp_ft (ftr_ftp reg))))).
  { intros lo cnt. revert lo. induction cnt as [|cnt IH]; intros lo t t' Ht.
    - cbn [for_loop_m].
      destruct (cross_validate_fold _ _ _ _ _) as [t1|dg|] eqn:Hf; [|done|done].
      cbn [mbind outcome_bind]. intros [= <-].
      by eapply cross_validate_fold_params.
    - change (for_loop_m lo (S (S cnt)) ?b t) with
        (mbind (for_loop_m (S lo) (S cnt) b) (b lo t)).
      destruct (cross_validate_fold _ _ _ lo t) as [t1|dg|] eqn:Hf; [|done|done].
      cbn [mbind outcome_bind]. intros Hrest.
      apply cross_validate_fold_params in Hf as [Ht1 _]; [|done|done|done].
      by eapply IH. }
  apply Hinv in Hloop as [(Ha & Hd & Hs & Hp & Hf) Hv].
  - done.
  - unfold cv_params_inv. cbn. split; [done|]. split; [done|].
    split; [apply same_shape_refl|]. split; [done|].
    intros fd Hfd. by apply elem_of_nil in Hfd.
Qed.

(** With rank adaptation off and an optimizer that touches the
    regression state only through the objective: every fold of
    [cross_validate_run] hands [ft_regress_run] a handle whose flat
    parameter vector is the one at entry, and when [cross_validate_run]
    returns, the handle's parameter vector is again the one at entry and has
    been pushed into the train. *)
Theorem cross_validate_run_restores_parameters
    (depth : nat) (cv : CrossValidate) (reg : FTRegress) (optimizer : c3Opt)
    (err : double) (reg' : FTRegress) (optimizer' : c3Opt) (folds : list cv_fold) :
  optimizer_calls_objective_only ->
  adapt reg = 0%Z ->
  params_sized (ftr_ftp reg) ->
  cross_validate_run (ft_regress_run depth) cv reg optimizer =
    Returns (err, reg', optimizer', folds) ->
  params (ftr_ftp reg') = params (ftr_ftp reg) /\
  (forall fd, fd ∈ folds -> params (ftr_ftp (fold_reg fd)) = params (ftr_ftp reg)) /\
  ft_vals (ftp_ft (ftr_ftp reg')) =
    read_n (params (ftr_ftp reg)) 0 (length (ft_vals (ftp_ft (ftr_ftp reg)))) /\
  same_shape (ftr_ftp reg) (ftr_ftp reg').
Proof.
  intros Hopt Hadapt Hsized Hcv.
  apply cross_validate_run_restores in Hcv as (_ & _ & Hs & Hp & Hf & Hv);
    [|by apply ft_regress_run_contract|done|done].
  done.
Qed.


(** ** Rank adaptation: the kick *)

Definition ranks_le (mx : nat) (rks : list nat) : Prop := Forall (fun r => r <= mx) rks.

Lemma ranks_le_rdn (mx : nat) (rks : list nat) :
  ranks_le mx rks <-> forall i, rdn rks i <= mx.
Proof.
  unfold ranks_le, rdn. rewrite Forall_lookup. split.
  - intros Hall i. rewrite nth_lookup. destruct (rks !! i) as [r|] eqn:Hi; cbn; [|lia].
    by eapply Hall.
  - intros Hall i r Hi. specialize (Hall i). by rewrite (nth_lookup_Some _ _ 0 _ Hi) in Hall.
Qed.

Lemma rdn_insert (l : list nat) (j v i : nat) :
  rdn (<[j := v]> l) i = if decide (i = j /\ j < length l) then v else rdn l i.
Proof.
  unfold rdn. rewrite !nth_lookup.
  destruct (decide (i = j /\ j < length l)) as [[-> Hj]|Hn].
  - by rewrite list_lookup_insert_eq.
  - destruct (decide (i = j)) as [->|Hne].
    + by rewrite list_insert_ge by lia.
    + by rewrite list_lookup_insert_ne.
Qed.

Lemma rdn_take_pad (rks : list nat) (m i : nat) :
  rdn (take m (rks ++ replicate m 0)) i = if decide (i < m) then rdn rks i else 0.
Proof.
  unfold rdn. rewrite !nth_lookup. destruct (decide (i < m)) as [Hi|Hi].
  - rewrite lookup_take_lt by done. destruct (decide (i < length rks)) as [Hl|Hl].
    + by rewrite lookup_app_l.
    + rewrite lookup_app_r by lia. rewrite lookup_replicate_2 by lia.
      rewrite (proj2 (lookup_ge_None rks i)) by lia. done.
  - by rewrite lookup_take_ge by lia.
Qed.

Lemma size_t_add_exact (a b : nat) :
  (N.of_nat a + N.of_nat b < 2 ^ 64)%N -> size_t_add a b = a + b.
Proof. intros Hlt. unfold size_t_add. rewrite N.mod_small by done. lia. Qed.

(** Whether the kick touches dimension [i]: an interior index below [hi]
    where the rounded rank equals the working rank. *)
Definition kicked_at (hi : nat) (ftr_ranks rks : list nat) (i : nat) : bool :=
  (1 <=? i) && (i <? hi) && (rdn ftr_ranks i =? rdn rks i).

Ltac bool_cases :=
  repeat match goal with
  | |- context [?a <=? ?b] => destruct (Nat.leb_spec a b)
  | |- context [?a <? ?b] => destruct (Nat.ltb_spec a b)
  | |- context [?a =? ?b] => destruct (Nat.eqb_spec a b)
  | |- context [decide ?P] => destruct (decide P)
  end; cbn [andb orb negb]; try done; try lia.

Lemma kick_loop_spec (n : nat) (ftr_ranks : list nat) (kick mx : nat)
    (rks rs : list nat) (z : Z) :
  let body := fun ii s' =>
    if rdn ftr_ranks ii =? rdn (k_ranks s') ii then
      let r := size_t_add (rdn (k_ranks s') ii) kick in
      mkKick (<[ii := if mx <? r then mx else r]> (k_ranks s'))
             (<[ii - 1 := rdn (k_ranks s') ii]> (k_restrict s')) 1%Z
    else s' in
  let k := for_loop 1 n body (mkKick rks rs z) in
  length (k_ranks k) = length rks /\
  length (k_restrict k) = length rs /\
  (forall i, rdn (k_ranks k) i =
     if kicked_at (S n) ftr_ranks rks i && (i <? length rks)
     then Nat.min mx (size_t_add (rdn rks i) kick) else rdn rks i) /\
  (forall j, rdn (k_restrict k) j =
     if kicked_at (S n) ftr_ranks rks (j + 1) && (j <? length rs)
     then rdn rks (j + 1) else rdn rs j) /\
  kicked k =
    if existsb (fun i => rdn ftr_ranks i =? rdn rks i) (seq 1 n) then 1%Z else z.
Proof.
  intros body. induction n as [|n IH].
  - cbn [for_loop k_ranks k_restrict kicked seq existsb]. unfold kicked_at.
    split; [done|]. split; [done|]. split; [|split; [|done]].
    + intros i. bool_cases.
    + intros j. bool_cases.
  - cbv zeta in IH |- *. rewrite for_loop_snoc.
    destruct IH as (Hlen & Hlenr & Hranks & Hrestr & Hkicked).
    set (s := for_loop 1 n body (mkKick rks rs z)) in *.
    assert (Hcur : rdn (k_ranks s) (1 + n) = rdn rks (1 + n)).
    { rewrite Hranks. unfold kicked_at. bool_cases. }
    rewrite seq_S, existsb_app. cbn [existsb]. rewrite orb_false_r.
    unfold body at 1 2 3 4 5. rewrite Hcur.
    destruct (Nat.eqb_spec (rdn ftr_ranks (1 + n)) (rdn rks (1 + n))) as [Heq|Hne].
    + cbn [k_ranks k_restrict kicked]. rewrite !length_insert, orb_true_r.
      split; [done|]. split; [done|]. split; [|split; [|done]].
      * intros i. rewrite rdn_insert, Hranks, Hlen. unfold kicked_at.
        destruct (decide (i = 1 + n /\ 1 + n < length rks)) as [[-> Hl]|Hn].
        -- rewrite Heq. rewrite Nat.eqb_refl.
           replace (1 <=? 1 + n) with true by (symmetry; apply Nat.leb_le; lia).
           replace (1 + n <? S (S n)) with true by (symmetry; apply Nat.ltb_lt; lia).
           replace (1 + n <? length rks) with true by (symmetry; apply Nat.ltb_lt; lia).
           cbn [andb]. destruct (Nat.ltb_spec mx (size_t_add (rdn rks (1 + n)) kick)); lia.
        -- destruct (Nat.eqb_spec (rdn ftr_ranks i) (rdn rks i));
             rewrite ?andb_false_r; cbn [andb]; [|done].
           rewrite !andb_true_r. bool_cases.
      * intros j. rewrite rdn_insert, Hrestr, Hlenr. unfold kicked_at.
        replace (1 + n - 1) with n by lia.
        destruct (decide (j = n /\ n < length rs)) as [[-> Hl]|Hn].
        -- replace (n + 1) with (1 + n) by lia. rewrite Heq, Nat.eqb_refl.
           replace (1 <=? 1 + n) with true by (symmetry; apply Nat.leb_le; lia).
           replace (1 + n <? S (S n)) with true by (symmetry; apply Nat.ltb_lt; lia).
           replace (n <? length rs) with true by (symmetry; apply Nat.ltb_lt; lia).
           done.
        -- destruct (Nat.eqb_spec (rdn ftr_ranks (j + 1)) (rdn rks (j + 1)));
             rewrite ?andb_false_r; cbn [andb]; [|done].
           rewrite !andb_true_r. bool_cases.
    + rewrite orb_false_r.
      split; [done|]. split; [done|]. split; [|split; [|done]].
      * intros i. rewrite Hranks. unfold kicked_at.
        destruct (Nat.eqb_spec (rdn ftr_ranks i) (rdn rks i));
          rewrite ?andb_false_r; cbn [andb]; [|done].
        rewrite !andb_true_r. bool_cases.
        all: assert (i = 1 + n) as -> by lia; congruence.
      * intros j. rewrite Hrestr. unfold kicked_at.
        destruct (Nat.eqb_spec (rdn ftr_ranks (j + 1)) (rdn rks (j + 1)));
          rewrite ?andb_false_r; cbn [andb]; [|done].
        rewrite !andb_true_r. bool_cases.
        all: assert (j + 1 = 1 + n) as Hj by lia; rewrite Hj in *; congruence.
Qed.


Lemma kicked_at_dim (d : nat) (ftr_ranks rks : list nat) (i : nat) :
  kicked_at (S (d - 1)) ftr_ranks rks i = kicked_at d ftr_ranks rks i.
Proof. unfold kicked_at. destruct d; bool_cases. Qed.

Lemma kick_ranks_spec (d : nat) (ftr_ranks : list nat) (kick mx : nat)
    (rks rs : list nat) (z : Z) :
  let k := kick_ranks d ftr_ranks kick mx (mkKick rks rs z) in
  length (k_ranks k) = length rks /\
  length (k_restrict k) = length rs /\
  (forall i, rdn (k_ranks k) i =
     if kicked_at d ftr_ranks rks i && (i <? length rks)
     then Nat.min mx (size_t_add (rdn rks i) kick) else rdn rks i) /\
  (forall j, rdn (k_restrict k) j =
     if kicked_at d ftr_ranks rks (j + 1) && (j <? length rs)
     then rdn rks (j + 1) else rdn rs j) /\
  kicked k =
    if existsb (fun i => rdn ftr_ranks i =? rdn rks i) (seq 1 (d - 1)) then 1%Z else z.
Proof.
  pose proof (kick_loop_spec (d - 1) ftr_ranks kick mx rks rs z) as H.
  cbv zeta in H. destruct H as (H1 & H2 & H3 & H4 & H5).
  cbv zeta. unfold kick_ranks. split; [done|]. split; [done|].
  split; [|split; [|done]].
  - intros i. by rewrite H3, kicked_at_dim.
  - intros j. by rewrite H4, kicked_at_dim.
Qed.

Lemma kick_ranks_le (d : nat) (ftr_ranks : list nat) (kick mx : nat)
    (rks rs : list nat) (z : Z) :
  ranks_le mx rks ->
  ranks_le mx (k_ranks (kick_ranks d ftr_ranks kick mx (mkKick rks rs z))).
Proof.
  rewrite !ranks_le_rdn. intros Hle i.
  destruct (kick_ranks_spec d ftr_ranks kick mx rks rs z) as (_ & _ & Hr & _).
  rewrite Hr. destruct (_ && _); [lia|apply Hle].
Qed.

Lemma kicked_flag (d : nat) (ftr_ranks : list nat) (kick mx : nat) (rks rs : list nat) :
  let k := kick_ranks d ftr_ranks kick mx (mkKick rks rs 0) in
  (kicked k = 1%Z <-> exists i, 1 <= i < d /\ rdn ftr_ranks i = rdn rks i) /\
  (kicked k = 0%Z <-> forall i, 1 <= i < d -> rdn ftr_ranks i <> rdn rks i).
Proof.
  destruct (kick_ranks_spec d ftr_ranks kick mx rks rs 0) as (_ & _ & _ & _ & Hk).
  cbv zeta. rewrite Hk.
  destruct (existsb _ _) eqn:Hex.
  - apply existsb_exists in Hex as (i & Hi & Heq).
    apply in_seq in Hi. apply Nat.eqb_eq in Heq.
    split; split; try done.
    + intros _. exists i. split; [lia|done].
    + intros Hall. exfalso. apply (Hall i); [lia|done].
  - split; split; try done.
    + intros (i & Hi & Heq). exfalso.
      assert (Ht : existsb (fun i => rdn ftr_ranks i =? rdn rks i) (seq 1 (d - 1)) = true).
      { apply existsb_exists. exists i. split; [apply in_seq; lia|by apply Nat.eqb_eq]. }
      congruence.
    + intros _ i Hi Heq.
      assert (Ht : existsb (fun i => rdn ftr_ranks i =? rdn rks i) (seq 1 (d - 1)) = true).
      { apply existsb_exists. exists i. split; [apply in_seq; lia|by apply Nat.eqb_eq]. }
      congruence.
Qed.

Lemma forallb_false_ex {A : Type} (f : A -> bool) (l : list A) :
  forallb f l = false -> exists x, In x l /\ f x = false.
Proof.
  induction l as [|a l IH]; cbn [forallb]; [done|].
  destruct (f a) eqn:Hfa; cbn [andb].
  - intros (x & Hx & Hf)%IH. exists x. split; [by right|done].
  - intros _. exists a. split; [by left|done].
Qed.

Lemma all_at_max_spec (d : nat) (rks : list nat) (mx : nat) :
  (all_at_max d rks mx = 1%Z <-> forall i, 1 <= i < d -> mx <= rdn rks i) /\
  (all_at_max d rks mx = 0%Z <-> exists i, 1 <= i < d /\ rdn rks i < mx).
Proof.
  unfold all_at_max. destruct (forallb _ _) eqn:Hall.
  - assert (H : forall i, 1 <= i < d -> mx <= rdn rks i).
    { intros i Hi. rewrite forallb_forall in Hall.
      specialize (Hall i). rewrite in_seq in Hall.
      assert (Hn : negb (rdn rks i <? mx) = true) by (apply Hall; lia).
      destruct (Nat.ltb_spec (rdn rks i) mx); [done|lia]. }
    split; split; try done. intros (i & Hi & Hlt). specialize (H i Hi). lia.
  - assert (H : exists i, 1 <= i < d /\ rdn rks i < mx).
    { destruct (forallb_false_ex _ _ Hall) as (i & Hi & Hlt).
      apply in_seq in Hi. exists i. split; [lia|].
      destruct (Nat.ltb_spec (rdn rks i) mx); [done|done]. }
    split; split; try done. intros Hge. destruct H as (i & Hi & Hlt).
    specialize (Hge i Hi). lia.
Qed.


(** ** Rank adaptation: the ranks of the handle *)

(** Rounding at tolerance [tol] keeps ranks within [mx]. *)
Definition round_within (mx : nat) (tol : double) : Prop :=
  forall f a, ranks_le mx (ranks f) -> ranks_le mx (ranks (function_train_round f tol a)).

Lemma params_sized_alloc (d : nat) (a : MultiApproxOpts) (rks : list nat) :
  params_sized (ft_param_alloc d a None rks).
Proof. unfold params_sized, ft_param_alloc, calloc_double. cbn. by rewrite length_replicate. Qed.

Lemma ranks_alloc (d : nat) (a : MultiApproxOpts) (rks : list nat) :
  ranks (ftp_ft (ft_param_alloc d a None rks)) = take (d + 1) (rks ++ replicate (d + 1) 0).
Proof. done. Qed.

Lemma ranks_le_alloc (mx d : nat) (a : MultiApproxOpts) (rks : list nat) :
  ranks_le mx rks -> ranks_le mx (ranks (ftp_ft (ft_param_alloc d a None rks))).
Proof.
  intros Hle. rewrite ranks_alloc. unfold ranks_le. apply Forall_take, Forall_app.
  split; [done|]. apply Forall_replicate. lia.
Qed.

Definition adapt_inv (mx : nat) (s : adapt_state) : Prop :=
  adapt (ra_ftr s) = 0%Z /\ params_sized (ftr_ftp (ra_ftr s)) /\
  ranks_le mx (ra_ranks s) /\ ranks_le mx (ranks (ra_ft s)) /\
  ranks (ftp_ft (ftr_ftp (ra_ftr s))) = ranks (ra_ft s).

Lemma same_shape_ranks (a b : FTparam) :
  same_shape a b -> ranks (ftp_ft b) = ranks (ftp_ft a).
Proof. by intros (?&?&?&?&?&?&?&?&?&?&?). Qed.

Lemma restricted_start_shape (ftr : FTRegress) (oor : Z) (rounded : list double) :
  let ftr3 :=
    if (oor =? 1)%Z then
      let ftp1 :=
        fst (ft_param_update_inside_restricted_ranks (ftr_ftp ftr) rounded
               (ftr_restrict ftr)) in
      let nnew_solve := ft_param_get_nparams_restrict ftp1 (ftr_restrict ftr) in
      let init_new := replicate nnew_solve 1e-4%float in
      set_ftr_ftp ftr (ftr_approx_opts ftr)
        (fst (ft_param_update_restricted_ranks ftp1 init_new (ftr_restrict ftr)))
    else clear_restrict ftr in
  adapt ftr3 = adapt ftr /\ same_shape (ftr_ftp ftr) (ftr_ftp ftr3).
Proof.
  cbv zeta. destruct (oor =? 1)%Z.
  - cbn [adapt set_ftr_ftp ftr_ftp]. split; [done|].
    eapply same_shape_trans; [apply same_shape_update_inside|apply same_shape_update_restricted].
  - split; [done|apply same_shape_refl].
Qed.

Lemma rankadapt_iter_inv
    (run : FTRegress -> c3Opt -> nat -> list double -> list double ->
           outcome (FTRegress * c3Opt * FunctionTrain))
    (cv : CrossValidate) (tol : double) (mx kick : nat) (oor : Z) (n : nat)
    (x y : list double) (s s' : adapt_state) (again : bool) :
  run_contract run -> round_within mx tol -> adapt_inv mx s ->
  rankadapt_iter run cv tol mx kick oor n x y s = Returns (s', again) ->
  adapt_inv mx s'.
Proof.
  intros Hrun Hround (Hadapt & Hsized & Hrks & Hft & Hsame). unfold rankadapt_iter.
  set (ftround := function_train_round _ _ _).
  set (k := kick_ranks _ _ _ _ _).
  assert (Hk : ranks_le mx (k_ranks k)) by (by apply kick_ranks_le).
  destruct ((kicked k =? 0)%Z || (_ =? 1)%Z).
  { intros [= <- <-]. unfold adapt_inv. cbn. done. }
  set (ftr1 := map_regopts _ _).
  set (ftr2 := ft_regress_reset_param _ _ _).
  set (ftr3 := if (oor =? 1)%Z then _ else _).
  destruct (restricted_start_shape ftr2 oor (function_train_get_params ftround))
    as [Ha3 Hs3].
  cbv zeta in Ha3, Hs3. fold ftr3 in Ha3, Hs3.
  assert (Hsz2 : params_sized (ftr_ftp ftr2)) by apply params_sized_alloc.
  destruct (cross_validate_run run cv ftr3 (ra_optimizer s))
    as [[[[new_err ftr4] opt1] folds]|dg|] eqn:Hcv; [|done|done].
  cbn [mbind outcome_bind].
  apply cross_validate_run_restores in Hcv as (Ha4 & _ & Hs4 & _);
    [|done|by rewrite Ha3|by eapply same_shape_sized].
  destruct (ra_err s <? new_err)%float.
  - intros [= <- <-]. unfold adapt_inv. cbn [ra_ftr ra_ft ra_ranks].
    split; [done|]. split; [|split; [done|split; [|done]]].
    + eapply same_shape_sized; [apply same_shape_update_params|apply params_sized_alloc].
    + unfold function_train_copy. cbn. apply Forall_take, Forall_app.
      split; [by apply Hround|]. apply Forall_replicate. lia.
  - destruct (run ftr4 opt1 n x y) as [[[ftr5 opt2] f']|dg|] eqn:Hcall; [|done|done].
    cbn [mbind outcome_bind]. intros [= <- <-].
    apply Hrun in Hcall as (Ha5 & _ & Hs5 & ->);
      [|done|by eapply same_shape_sized; [|eapply same_shape_sized]].
    unfold adapt_inv. cbn [ra_ftr ra_ft ra_ranks].
    split; [done|]. split; [|split; [done|split; [|done]]].
    + eapply same_shape_sized; [exact Hs5|]. eapply same_shape_sized; [exact Hs4|].
      by eapply same_shape_sized.
    + rewrite (same_shape_ranks _ _ Hs5), (same_shape_ranks _ _ Hs4),
        (same_shape_ranks _ _ Hs3).
      by apply ranks_le_alloc.
Qed.

Lemma rankadapt_loop_inv
    (run : FTRegress -> c3Opt -> nat -> list double -> list double ->
           outcome (FTRegress * c3Opt * FunctionTrain))
    (maxiter : nat) (cv : CrossValidate) (tol : double) (mx kick : nat) (oor : Z)
    (n : nat) (x y : list double) (s s' : adapt_state) :
  run_contract run -> round_within mx tol -> adapt_inv mx s ->
  rankadapt_loop run maxiter cv tol mx kick oor n x y s = Returns s' ->
  adapt_inv mx s'.
Proof.
  intros Hrun Hround. revert s. induction maxiter as [|m IH]; intros s Hinv.
  - cbn. by intros [= <-].
  - cbn [rankadapt_loop].
    destruct (rankadapt_iter run cv tol mx kick oor n x y s) as [[s1 [|]]|dg|] eqn:Hit;
      [| |done|done].
    + intros Hrest. eapply IH; [|exact Hrest]. by eapply rankadapt_iter_inv.
    + intros [= <-]. by eapply rankadapt_iter_inv.
Qed.

Lemma rankadapt_ranks_bounded
    (run : FTRegress -> c3Opt -> nat -> list double -> list double ->
           outcome (FTRegress * c3Opt * FunctionTrain))
    (ftr : FTRegress) (tol : double) (mx kick : nat) (optimizer : c3Opt) (oor : Z)
    (n : nat) (x y : list double) (fin : Z) (ftr' : FTRegress) (optimizer' : c3Opt)
    (f : FunctionTrain) :
  run_contract run -> round_within mx tol ->
  params_sized (ftr_ftp ftr) -> ranks_le mx (ranks (ftp_ft (ftr_ftp ftr))) ->
  ft_regress_run_rankadapt run ftr tol mx kick optimizer oor n x y fin =
    Returns (ftr', optimizer', f) ->
  ranks_le mx (ranks f) /\ ranks (ftp_ft (ftr_ftp ftr')) = ranks f /\ adapt ftr' = 1%Z.
Proof.
  intros Hrun Hround Hsized Hle. unfold ft_regress_run_rankadapt.
  destruct (regopts ftr) as [ro|]; [|done].
  destruct (cross_validate_run run _ (set_adapt ftr 0) optimizer)
    as [[[[err ftr1] opt1] folds]|dg|] eqn:Hcv; [|done|done].
  cbn [mbind outcome_bind].
  apply cross_validate_run_restores in Hcv as (Ha1 & _ & Hs1 & _); [|done|done|done].
  cbn [ftr_ftp set_adapt] in Hs1.
  destruct (run ftr1 opt1 n x y) as [[[ftr2 opt2] f0]|dg|] eqn:Hcall; [|done|done].
  cbn [mbind outcome_bind].
  apply Hrun in Hcall as (Ha2 & _ & Hs2 & ->); [|done|by eapply same_shape_sized].
  destruct (rankadapt_loop _ _ _ _ _ _ _ _ _ _ _) as [s|dg|] eqn:Hloop; [|done|done].
  cbn [mbind outcome_bind].
  apply rankadapt_loop_inv in Hloop as (Has & Hszs & _ & Hfts & Hsames); [|done|done|].
  - destruct (fin =? 1)%Z.
    + destruct (run _ _ n x y) as [[[ftr3 opt3] f1]|dg|] eqn:Hfin; [|done|done].
      cbn [mbind outcome_bind]. intros [= <- <- <-].
      apply Hrun in Hfin as (_ & _ & Hs3 & ->); [|done|done].
      cbn [ftr_ftp set_adapt adapt]. rewrite (same_shape_ranks _ _ Hs3).
      change (ftr_ftp (clear_restrict (ra_ftr s))) with (ftr_ftp (ra_ftr s)).
      by rewrite Hsames.
    + cbn [mbind outcome_bind]. intros [= <- <- <-]. done.
  - unfold adapt_inv. cbn [ra_ftr ra_ft ra_ranks function_train_get_ranks].
    assert (Hr : ranks (ftp_ft (ftr_ftp ftr2)) = ranks (ftp_ft (ftr_ftp ftr))).
    { by rewrite (same_shape_ranks _ _ Hs2), (same_shape_ranks _ _ Hs1). }
    split; [done|]. split; [|split; [|split; [by rewrite Hr|done]]].
    + eapply same_shape_sized; [exact Hs2|]. by eapply same_shape_sized.
    + unfold function_train_get_ranks. rewrite Hr.
      apply ranks_le_rdn. intros i. unfold rdn at 1.
      destruct (decide (i < ftr_dim ftr2 + 1)) as [Hi|Hi].
      * rewrite nth_lookup, list_lookup_fmap, lookup_seq_lt by done. cbn.
        by apply ranks_le_rdn.
      * rewrite nth_overflow by (rewrite length_map, length_seq; lia). lia.
Qed.


(** [adapt_reaches run … s t]: the adaptation loop started in [s] begins a
    pass in [t]. *)
Inductive adapt_reaches
    (run : FTRegress -> c3Opt -> nat -> list double -> list double ->
           outcome (FTRegress * c3Opt * FunctionTrain))
    (cv : CrossValidate) (tol : double) (mx kick : nat) (oor : Z) (n : nat)
    (x y : list double) : adapt_state -> adapt_state -> Prop :=
  | reaches_here (s : adapt_state) :
      adapt_reaches run cv tol mx kick oor n x y s s
  | reaches_next (s s1 t : adapt_state) :
      rankadapt_iter run cv tol mx kick oor n x y s = Returns (s1, true) ->
      adapt_reaches run cv tol mx kick oor n x y s1 t ->
      adapt_reaches run cv tol mx kick oor n x y s t.

(** At the start of a pass the working ranks are the ranks of the current
    train, one per core boundary. *)
Definition working_ranks_inv (s : adapt_state) : Prop :=
  adapt (ra_ftr s) = 0%Z /\ params_sized (ftr_ftp (ra_ftr s)) /\
  ra_ranks s = ranks (ra_ft s) /\ length (ra_ranks s) = ftr_dim (ra_ftr s) + 1.

Lemma rankadapt_iter_working_ranks
    (run : FTRegress -> c3Opt -> nat -> list double -> list double ->
           outcome (FTRegress * c3Opt * FunctionTrain))
    (cv : CrossValidate) (tol : double) (mx kick : nat) (oor : Z) (n : nat)
    (x y : list double) (s s' : adapt_state) :
  run_contract run -> working_ranks_inv s ->
  rankadapt_iter run cv tol mx kick oor n x y s = Returns (s', true) ->
  working_ranks_inv s'.
Proof.
  intros Hrun (Hadapt & Hsized & Hrks & Hlen). unfold rankadapt_iter.
  set (ftround := function_train_round _ _ _).
  set (k := kick_ranks _ _ _ _ _).
  assert (Hklen : length (k_ranks k) = ftr_dim (ra_ftr s) + 1).
  { unfold k. destruct (kick_ranks_spec (ft_dim (ra_ft s))
      (function_train_get_ranks ftround) kick mx (ra_ranks s) (ftr_restrict (ra_ftr s)) 0)
      as (Hl & _). cbv zeta in Hl. by rewrite Hl. }
  destruct ((kicked k =? 0)%Z || (_ =? 1)%Z); [done|].
  set (ftr1 := map_regopts _ _).
  set (ftr2 := ft_regress_reset_param _ _ _).
  set (ftr3 := if (oor =? 1)%Z then _ else _).
  destruct (restricted_start_shape ftr2 oor (function_train_get_params ftround))
    as [Ha3 Hs3].
  cbv zeta in Ha3, Hs3. fold ftr3 in Ha3, Hs3.
  assert (Hd3 : ftr_dim ftr3 = ftr_dim (ra_ftr s)) by (unfold ftr3; by destruct (oor =? 1)%Z).
  assert (Hsz2 : params_sized (ftr_ftp ftr2)) by apply params_sized_alloc.
  destruct (cross_validate_run run cv ftr3 (ra_optimizer s))
    as [[[[new_err ftr4] opt1] folds]|dg|] eqn:Hcv; [|done|done].
  cbn [mbind outcome_bind].
  apply cross_validate_run_restores in Hcv as (Ha4 & Hd4 & Hs4 & _);
    [|done|by rewrite Ha3|by eapply same_shape_sized].
  destruct (ra_err s <? new_err)%float; [done|].
  destruct (run ftr4 opt1 n x y) as [[[ftr5 opt2] f']|dg|] eqn:Hcall; [|done|done].
  cbn [mbind outcome_bind]. intros [= <-].
  apply Hrun in Hcall as (Ha5 & Hd5 & Hs5 & ->);
    [|done|by eapply same_shape_sized; [|eapply same_shape_sized]].
  unfold working_ranks_inv. cbn [ra_ftr ra_ft ra_ranks].
  split; [done|]. split; [|split].
  - eapply same_shape_sized; [exact Hs5|]. eapply same_shape_sized; [exact Hs4|].
    by eapply same_shape_sized.
  - rewrite (same_shape_ranks _ _ Hs5), (same_shape_ranks _ _ Hs4),
      (same_shape_ranks _ _ Hs3).
    unfold ftr2, ft_regress_reset_param. cbn [ftr_ftp set_ftr_ftp].
    rewrite ranks_alloc. symmetry. by apply take_app_length'.
  - congruence.
Qed.

Lemma adapt_reaches_working_ranks
    (run : FTRegress -> c3Opt -> nat -> list double -> list double ->
           outcome (FTRegress * c3Opt * FunctionTrain))
    (cv : CrossValidate) (tol : double) (mx kick : nat) (oor : Z) (n : nat)
    (x y : list double) (s t : adapt_state) :
  run_contract run -> working_ranks_inv s ->
  adapt_reaches run cv tol mx kick oor n x y s t ->
  working_ranks_inv t.
Proof.
  intros Hrun Hinv Hreach. induction Hreach as [s|s s1 t Hit _ IH]; [done|].
  apply IH. by eapply rankadapt_iter_working_ranks.
Qed.

Lemma rankadapt_start_working_ranks
    (run : FTRegress -> c3Opt -> nat -> list double -> list double ->
           outcome (FTRegress * c3Opt * FunctionTrain))
    (ftr : FTRegress) (optimizer : c3Opt) (n : nat) (x y : list double)
    (cv : CrossValidate) (err : double) (ftr1 ftr2 : FTRegress) (opt1 opt2 : c3Opt)
    (folds : list cv_fold) (f0 : FunctionTrain) :
  run_contract run ->
  params_sized (ftr_ftp ftr) ->
  length (ranks (ftp_ft (ftr_ftp ftr))) = ftr_dim ftr + 1 ->
  cross_validate_run run cv (set_adapt ftr 0) optimizer = Returns (err, ftr1, opt1, folds) ->
  run ftr1 opt1 n x y = Returns (ftr2, opt2, f0) ->
  working_ranks_inv
    (mkAdaptState ftr2 opt2 f0
       (map (rdn (function_train_get_ranks f0)) (seq 0 (ftr_dim ftr2 + 1))) err).
Proof.
  intros Hrun Hsized Hlen Hcv Hcall.
  apply cross_validate_run_restores in Hcv as (Ha1 & Hd1 & Hs1 & _); [|done|done|done].
  cbn [ftr_ftp ftr_dim set_adapt] in Hs1, Hd1.
  apply Hrun in Hcall as (Ha2 & Hd2 & Hs2 & ->); [|done|by eapply same_shape_sized].
  assert (Hr : ranks (ftp_ft (ftr_ftp ftr2)) = ranks (ftp_ft (ftr_ftp ftr))).
  { by rewrite (same_shape_ranks _ _ Hs2), (same_shape_ranks _ _ Hs1). }
  unfold working_ranks_inv. cbn [ra_ftr ra_ft ra_ranks]. unfold function_train_get_ranks.
  split; [done|]. split; [|split].
  - eapply same_shape_sized; [exact Hs2|]. by eapply same_shape_sized.
  - rewrite Hr. apply list_eq. intros i. rewrite list_lookup_fmap.
    destruct (decide (i < ftr_dim ftr2 + 1)) as [Hi|Hi].
    + rewrite lookup_seq_lt by done. cbn. unfold rdn. rewrite nth_lookup.
      destruct (lookup_lt_is_Some_2 (ranks (ftp_ft (ftr_ftp ftr))) i) as [r Hri];
        [rewrite Hlen; lia|].
      by rewrite Hri.
    + rewrite lookup_seq_ge by lia. cbn. symmetry. apply lookup_ge_None. lia.
  - rewrite length_map, length_seq. done.
Qed.

(** C5, as the code has it.  In [ft_regress_run_rankadapt]: the kick changes the
    working rank of a dimension only at an interior index whose rounded rank
    equals the working rank; a kicked rank becomes the smaller of [maxrank]
    and the [size_t] sum of the rank and [kickrank] (the plain sum when it
    does not wrap), and the old rank is recorded as restriction threshold;
    a pass in which no dimension was kicked, or after whose kick every
    interior rank is at least [maxrank], ends the loop and keeps the current
    train; when the ranks of the handle at entry are at most [maxrank]
    and rounding keeps ranks within [maxrank], no rank of the returned train
    exceeds [maxrank]; and at the start of every pass the working ranks are
    the ranks of the train that is rounded. *)
Theorem rankadapt_kick_cap_stop_and_bound :
  (forall d ftr_ranks kick mx rks rs,
     let k := kick_ranks d ftr_ranks kick mx (mkKick rks rs 0) in
     (forall i, rdn (k_ranks k) i <> rdn rks i ->
        1 <= i < d /\ rdn ftr_ranks i = rdn rks i) /\
     (forall i, 1 <= i < d -> i < length rks -> rdn ftr_ranks i = rdn rks i ->
        rdn (k_ranks k) i = Nat.min mx (size_t_add (rdn rks i) kick)) /\
     (forall i, 1 <= i < d -> i - 1 < length rs -> rdn ftr_ranks i = rdn rks i ->
        rdn (k_restrict k) (i - 1) = rdn rks i) /\
     (kicked k = 1%Z <-> exists i, 1 <= i < d /\ rdn ftr_ranks i = rdn rks i) /\
     (kicked k = 0%Z <-> forall i, 1 <= i < d -> rdn ftr_ranks i <> rdn rks i)) /\
  (forall a b, (N.of_nat a + N.of_nat b < 2 ^ 64)%N -> size_t_add a b = a + b) /\
  (forall run cv tol mx kick oor n x y s,
     let f := ra_ft s in
     let ftround := function_train_round f tol (approx_opts (ftr_ftp (ra_ftr s))) in
     let k := kick_ranks (ft_dim f) (function_train_get_ranks ftround) kick mx
                (mkKick (ra_ranks s) (ftr_restrict (ra_ftr s)) 0) in
     kicked k = 0%Z \/ (forall i, 1 <= i < ft_dim f -> mx <= rdn (k_ranks k) i) ->
     exists s',
       rankadapt_iter run cv tol mx kick oor n x y s = Returns (s', false) /\
       ra_ft s' = f /\ ftr_ftp (ra_ftr s') = ftr_ftp (ra_ftr s) /\
       ra_err s' = ra_err s /\ ra_ranks s' = k_ranks k) /\
  (forall depth ftr tol mx kick optimizer oor n x y fin ftr' optimizer' f,
     optimizer_calls_objective_only -> round_within mx tol ->
     params_sized (ftr_ftp ftr) -> ranks_le mx (ranks (ftp_ft (ftr_ftp ftr))) ->
     ft_regress_run_rankadapt (ft_regress_run depth) ftr tol mx kick optimizer oor
       n x y fin = Returns (ftr', optimizer', f) ->
     ranks_le mx (ranks f)) /\
  (forall depth ftr tol mx kick optimizer oor n x y err ftr1 opt1 folds ftr2 opt2 f0 t,
     let run := ft_regress_run depth in
     let cv := cross_validate_init n (ftr_dim ftr) x y 5 0 in
     optimizer_calls_objective_only ->
     params_sized (ftr_ftp ftr) ->
     length (ranks (ftp_ft (ftr_ftp ftr))) = ftr_dim ftr + 1 ->
     cross_validate_run run cv (set_adapt ftr 0) optimizer =
       Returns (err, ftr1, opt1, folds) ->
     run ftr1 opt1 n x y = Returns (ftr2, opt2, f0) ->
     adapt_reaches run cv tol mx kick oor n x y
       (mkAdaptState ftr2 opt2 f0
          (map (rdn (function_train_get_ranks f0)) (seq 0 (ftr_dim ftr2 + 1))) err) t ->
     ra_ranks t = ranks (ra_ft t)).
Proof.
  rewrite !(and_assoc _ _ _)%type. split.
  2:{ intros depth ftr tol mx kick optimizer oor n x y err ftr1 opt1 folds ftr2 opt2 f0 t
        run cv Hopt Hsized Hlen Hcv Hcall Hreach.
      assert (Hrun : run_contract run) by (by apply ft_regress_run_contract).
      eapply adapt_reaches_working_ranks in Hreach as (_ & _ & Hagree & _); [done|done|].
      by eapply rankadapt_start_working_ranks. }
  rewrite <- !(and_assoc _ _ _)%type.
  split; [|split; [exact size_t_add_exact|split]].
  - intros d ftr_ranks kick mx rks rs.
    destruct (kick_ranks_spec d ftr_ranks kick mx rks rs 0) as (_ & _ & Hr & Hs & _).
    destruct (kicked_flag d ftr_ranks kick mx rks rs) as [Hk1 Hk0].
    cbv zeta in *. split; [|split; [|split; [|split; [exact Hk1|exact Hk0]]]].
    + intros i. rewrite Hr. unfold kicked_at.
      destruct (Nat.leb_spec 1 i), (Nat.ltb_spec i d),
        (Nat.eqb_spec (rdn ftr_ranks i) (rdn rks i)); cbn [andb]; done.
    + intros i Hi Hl Heq. rewrite Hr. unfold kicked_at. rewrite Heq, Nat.eqb_refl.
      replace (1 <=? i) with true by (symmetry; apply Nat.leb_le; lia).
      replace (i <? d) with true by (symmetry; apply Nat.ltb_lt; lia).
      replace (i <? length rks) with true by (symmetry; apply Nat.ltb_lt; lia).
      done.
    + intros i Hi Hl Heq. rewrite Hs. unfold kicked_at.
      replace (i - 1 + 1) with i by lia. rewrite Heq, Nat.eqb_refl.
      replace (1 <=? i) with true by (symmetry; apply Nat.leb_le; lia).
      replace (i <? d) with true by (symmetry; apply Nat.ltb_lt; lia).
      replace (i - 1 <? length rs) with true by (symmetry; apply Nat.ltb_lt; lia).
      done.
  - intros run cv tol mx kick oor n x y s f ftround k Hstop.
    unfold rankadapt_iter. fold f. fold ftround. fold k.
    assert (Hb : (kicked k =? 0)%Z || (all_at_max (ft_dim f) (k_ranks k) mx =? 1)%Z = true).
    { destruct Hstop as [Hk|Hall].
      - rewrite Hk. done.
      - apply (proj1 (all_at_max_spec _ _ _)) in Hall. rewrite Hall.
        apply orb_true_r. }
    rewrite Hb. eexists. split; [done|]. done.
  - intros depth ftr tol mx kick optimizer oor n x y fin ftr' optimizer' f
      Hopt Hround Hsized Hle Hrun.
    eapply rankadapt_ranks_bounded in Hrun as [Hf _]; try done.
    by apply ft_regress_run_contract.
Qed.

(** ** Rank adaptation: acceptance and rollback *)

(** [adapt_passes run … k s again s']: [k] passes of the adaptation loop
    lead from [s] to [s']; [again] tells whether the last of them asked for
    another one. *)
Inductive adapt_passes
    (run : FTRegress -> c3Opt -> nat -> list double -> list double ->
           outcome (FTRegress * c3Opt * FunctionTrain))
    (cv : CrossValidate) (tol : double) (mx kick : nat) (oor : Z) (n : nat)
    (x y : list double) : nat -> adapt_state -> bool -> adapt_state -> Prop :=
  | passes_none (s : adapt_state) :
      adapt_passes run cv tol mx kick oor n x y 0 s true s
  | passes_stop (s s' : adapt_state) :
      rankadapt_iter run cv tol mx kick oor n x y s = Returns (s', false) ->
      adapt_passes run cv tol mx kick oor n x y 1 s false s'
  | passes_go (k : nat) (s s1 s' : adapt_state) (again : bool) :
      rankadapt_iter run cv tol mx kick oor n x y s = Returns (s1, true) ->
      adapt_passes run cv tol mx kick oor n x y k s1 again s' ->
      adapt_passes run cv tol mx kick oor n x y (S k) s again s'.

Lemma rankadapt_loop_passes
    (run : FTRegress -> c3Opt -> nat -> list double -> list double ->
           outcome (FTRegress * c3Opt * FunctionTrain))
    (maxiter : nat) (cv : CrossValidate) (tol : double) (mx kick : nat) (oor : Z)
    (n : nat) (x y : list double) (s s' : adapt_state) :
  rankadapt_loop run maxiter cv tol mx kick oor n x y s = Returns s' <->
  exists k again,
    adapt_passes run cv tol mx kick oor n x y k s again s' /\
    k <= maxiter /\ (again = true -> k = maxiter).
Proof.
  split.
  - revert s. induction maxiter as [|m IH]; intros s.
    + cbn. intros [= <-]. exists 0, true. split; [constructor|]. split; [lia|done].
    + cbn [rankadapt_loop].
      destruct (rankadapt_iter run cv tol mx kick oor n x y s) as [[s1 [|]]|dg|] eqn:Hit;
        [| |done|done].
      * intros (k & again & Hp & Hk & Hcap)%IH. exists (S k), again.
        split; [by eapply passes_go|]. split; [lia|]. intros Ha. by rewrite Hcap.
      * intros [= <-]. exists 1, false. split; [by apply passes_stop|].
        split; [lia|done].
  - intros (k & again & Hp & Hk & Hcap). revert maxiter Hk Hcap.
    induction Hp as [s|s s' Hit|k s s1 s' again Hit Hp IH]; intros maxiter Hk Hcap.
    + rewrite <- Hcap by done. done.
    + destruct maxiter as [|m]; [lia|]. cbn [rankadapt_loop]. by rewrite Hit.
    + destruct maxiter as [|m]; [lia|]. cbn [rankadapt_loop]. rewrite Hit.
      apply IH; [lia|]. intros Ha. specialize (Hcap Ha). lia.
Qed.


Lemma update_params_full (ftp : FTparam) (p : list double) :
  params_sized ftp -> length p = nparams ftp ->
  length (ft_vals (ftp_ft ftp)) = nparams ftp ->
  params (ft_param_update_params ftp p) = p /\
  ft_vals (ftp_ft (ft_param_update_params ftp p)) = p.
Proof.
  unfold params_sized, ft_param_update_params. intros Hs Hp Hv.
  cbn [params ftp_ft set_params function_train_update_params ft_vals].
  rewrite Hv, <- Hp, memmove_all by lia. split; [done|apply read_n_all].
Qed.

Lemma length_vals_alloc (d : nat) (a : MultiApproxOpts) (rks : list nat) :
  length (ft_vals (ftp_ft (ft_param_alloc d a None rks))) =
  nparams (ft_param_alloc d a None rks).
Proof.
  unfold ft_param_alloc, function_train_zeros, calloc_double.
  cbn [ftp_ft ft_vals nparams]. by rewrite length_replicate.
Qed.

(** C6. In a pass of the adaptation loop that kicked some rank and left some
    interior rank below [maxrank], cross validation is run on the handle
    re-allocated with the kicked ranks, and its error [new_err] is compared
    with the error [ra_err] accepted so far.  If [new_err > ra_err], the
    handle is re-allocated with the ranks of the rounded train and loaded
    with its parameters, that train is the current one, the accepted error
    stays, and the loop ends.  Otherwise the regression is run on the
    enlarged handle, its train becomes the current one, [new_err] becomes the
    accepted error, and the loop goes on.  The loop of
    [ft_regress_run_rankadapt] makes at most 10 passes, after an initial
    cross validation with 5 folds and an initial run. *)
Theorem rankadapt_accepts_or_rolls_back :
  (forall run cv tol mx kick oor n x y s new_err ftr4 opt1 folds,
     let f := ra_ft s in
     let ftround := function_train_round f tol (approx_opts (ftr_ftp (ra_ftr s))) in
     let k := kick_ranks (ft_dim f) (function_train_get_ranks ftround) kick mx
                (mkKick (ra_ranks s) (ftr_restrict (ra_ftr s)) 0) in
     let ftr1 := map_regopts (fun o => set_restrict_rank_opt o (k_restrict k)) (ra_ftr s) in
     let ftr2 := ft_regress_reset_param ftr1 (approx_opts (ftr_ftp ftr1)) (k_ranks k) in
     let ftr3 :=
       if (oor =? 1)%Z then
         let ftp1 :=
           fst (ft_param_update_inside_restricted_ranks (ftr_ftp ftr2)
                  (function_train_get_params ftround) (ftr_restrict ftr2)) in
         let nnew_solve := ft_param_get_nparams_restrict ftp1 (ftr_restrict ftr2) in
         let init_new := replicate nnew_solve 1e-4%float in
         set_ftr_ftp ftr2 (ftr_approx_opts ftr2)
           (fst (ft_param_update_restricted_ranks ftp1 init_new (ftr_restrict ftr2)))
       else clear_restrict ftr2 in
     let rolled :=
       ft_param_update_params
         (ft_param_alloc (ftr_dim ftr4) (approx_opts (ftr_ftp ftr4)) None (ranks ftround))
         (ft_vals ftround) in
     kicked k = 1%Z ->
     (exists i, 1 <= i < ft_dim f /\ rdn (k_ranks k) i < mx) ->
     cross_validate_run run cv ftr3 (ra_optimizer s) = Returns (new_err, ftr4, opt1, folds) ->
     ranks (ftp_ft (ftr_ftp ftr3)) =
       take (ftr_dim (ra_ftr s) + 1) (k_ranks k ++ replicate (ftr_dim (ra_ftr s) + 1) 0) /\
     ((ra_err s <? new_err)%float = true ->
        exists s',
          rankadapt_iter run cv tol mx kick oor n x y s = Returns (s', false) /\
          ra_err s' = ra_err s /\
          ftr_ftp (ra_ftr s') = rolled /\
          ra_ft s' = ftp_ft rolled /\
          (length (ranks ftround) = ftr_dim ftr4 + 1 -> ranks (ra_ft s') = ranks ftround) /\
          (length (ft_vals ftround) = nparams rolled ->
           params rolled = ft_vals ftround /\ ft_vals (ra_ft s') = ft_vals ftround)) /\
     ((ra_err s <? new_err)%float = false ->
        forall ftr5 opt2 f',
          run ftr4 opt1 n x y = Returns (ftr5, opt2, f') ->
          rankadapt_iter run cv tol mx kick oor n x y s =
            Returns (mkAdaptState ftr5 opt2 f' (k_ranks k) new_err, true))) /\
  (forall run ftr tol mx kick optimizer oor n x y fin ftr' optimizer' f',
     ft_regress_run_rankadapt run ftr tol mx kick optimizer oor n x y fin =
       Returns (ftr', optimizer', f') ->
     let cv := cross_validate_init n (ftr_dim ftr) x y 5 0 in
     exists err ftr1 opt1 folds ftr2 opt2 f0 s passes again,
       cross_validate_run run cv (set_adapt ftr 0) optimizer =
         Returns (err, ftr1, opt1, folds) /\
       run ftr1 opt1 n x y = Returns (ftr2, opt2, f0) /\
       adapt_passes run cv tol mx kick oor n x y passes
         (mkAdaptState ftr2 opt2 f0
            (map (rdn (function_train_get_ranks f0)) (seq 0 (ftr_dim ftr2 + 1))) err)
         again s /\
       passes <= 10 /\ (again = true -> passes = 10) /\
       (fin <> 1%Z -> f' = ra_ft s)).
Proof.
  split.
  - intros run cv tol mx kick oor n x y s new_err ftr4 opt1 folds
      f ftround k ftr1 ftr2 ftr3 rolled Hk (i & Hi & Hlt) Hcv.
    assert (Hb : (kicked k =? 0)%Z || (all_at_max (ft_dim f) (k_ranks k) mx =? 1)%Z = false).
    { rewrite Hk. cbn [Z.eqb orb].
      assert (Hz : all_at_max (ft_dim f) (k_ranks k) mx = 0%Z).
      { apply all_at_max_spec. by exists i. }
      by rewrite Hz. }
    split; [|split].
    + destruct (restricted_start_shape ftr2 oor (function_train_get_params ftround))
        as [_ Hs3].
      cbv zeta in Hs3. fold ftr3 in Hs3. by rewrite (same_shape_ranks _ _ Hs3).
    + intros Hgt. eexists. split.
      * unfold rankadapt_iter. fold f. fold ftround. fold k. rewrite Hb.
        fold ftr1. fold ftr2. fold ftr3. rewrite Hcv. cbn [mbind outcome_bind].
        rewrite Hgt. reflexivity.
      * cbn [ra_err ra_ftr ra_ft]. split; [done|]. split; [done|].
        split; [done|]. split.
        -- intros Hlen. unfold rolled, function_train_copy. cbn.
           by rewrite take_app_length'.
        -- intros Hlen. unfold function_train_copy.
           change (ftr_ftp _) with rolled.
           apply update_params_full.
           ++ apply params_sized_alloc.
           ++ exact Hlen.
           ++ apply length_vals_alloc.
    + intros Hle ftr5 opt2 f' Hcall.
      unfold rankadapt_iter. fold f. fold ftround. fold k. rewrite Hb.
      fold ftr1. fold ftr2. fold ftr3. rewrite Hcv. cbn [mbind outcome_bind].
      rewrite Hle, Hcall. reflexivity.
  - intros run ftr tol mx kick optimizer oor n x y fin ftr' optimizer' f'.
    unfold ft_regress_run_rankadapt.
    destruct (regopts ftr) as [ro|]; [|done].
    cbn [ftr_dim set_adapt].
    destruct (cross_validate_run run _ (set_adapt ftr 0) optimizer)
      as [[[[err ftr1] opt1] folds]|dg|] eqn:Hcv; [|done|done].
    cbn [mbind outcome_bind].
    destruct (run ftr1 opt1 n x y) as [[[ftr2 opt2] f0]|dg|] eqn:Hcall; [|done|done].
    cbn [mbind outcome_bind].
    destruct (rankadapt_loop _ _ _ _ _ _ _ _ _ _ _) as [s|dg|] eqn:Hloop; [|done|done].
    cbn [mbind outcome_bind]. intros Hfin.
    apply rankadapt_loop_passes in Hloop as (passes & again & Hp & Hk & Hcap).
    exists err, ftr1, opt1, folds, ftr2, opt2, f0, s, passes, again.
    split; [done|]. split; [done|]. split; [done|]. split; [done|]. split; [done|].
    intros Hne. destruct (Z.eqb_spec fin 1) as [|_]; [done|].
    cbn [mbind outcome_bind] in Hfin. by injection Hfin as _ _ <-.
Qed.
(** ** The bound on nested runs *)

(** [Unfinished] arises only where [ft_regress_run] is out of depth.  A run
    nests at most twice (an adaptive run calls runs with adaptation off),
    so depth two is enough for every handle, given an optimizer that
    answers whenever its objective does. *)
Definition finishes {A : Type} (o : outcome A) : Prop := o <> Unfinished.

Definition optimizer_finishes : Prop :=
  forall opt n (f : objective) guess pp,
    (forall n' p g pp', finishes (f n' p g pp')) ->
    finishes (c3opt_minimize opt n f guess pp).

Lemma finishes_bind {A B : Type} (m : outcome A) (k : A -> outcome B) :
  finishes m -> (forall a, m = Returns a -> finishes (k a)) -> finishes (m ≫= k).
Proof.
  unfold finishes. destruct m as [a|dg|]; cbn; [|done|done].
  intros _ Hk. by apply Hk.
Qed.

Lemma for_loop_m_finishes {St : Type} (P : St -> Prop) (lo n : nat)
    (body : nat -> St -> outcome St) (s : St) :
  (forall i t, P t -> finishes (body i t) /\ forall t', body i t = Returns t' -> P t') ->
  P s ->
  finishes (for_loop_m lo n body s) /\
  forall s', for_loop_m lo n body s = Returns s' -> P s'.
Proof.
  intros Hb. revert lo s. induction n as [|n IH]; intros lo s HP; cbn [for_loop_m].
  - split; [done|]. by intros s' [= <-].
  - destruct (Hb lo s HP) as [Hfin Hnext].
    destruct (body lo s) as [t|dg|] eqn:Hbody; cbn; [|done|done].
    apply IH. by apply Hnext.
Qed.

Lemma aio_ls_finishes (ftp : FTparam) (mem : RegressionMemManager) (n : nat)
    (x y : list double) (g : option (list double)) :
  finishes (ft_param_eval_objective_aio_ls ftp mem n x y g).
Proof.
  unfold ft_param_eval_objective_aio_ls. destruct g as [g0|].
  - apply finishes_bind.
    + apply (for_loop_m_finishes (fun _ => True)); [|done].
      intros i [out g1] _. split; [|done].
      destruct (isnan _); [done|]. destruct (isinf _); [done|]. by destruct (isinf _).
    + intros [out g1] _. destruct (isnan _); [done|]. by destruct (isinf _).
  - cbv zeta. destruct (isnan _); [done|]. by destruct (isinf _).
Qed.

Lemma objective_aio_finishes (ftp : FTparam) (regopts : RegressOpts)
    (mem : option RegressionMemManager) (n : nat) (x y : list double)
    (g : option (list double)) :
  finishes (ft_param_eval_objective_aio ftp regopts mem n x y g).
Proof.
  unfold ft_param_eval_objective_aio. cbv zeta.
  destruct (_ =? 0)%Z; [done|]. apply finishes_bind.
  - destruct (ropts_obj regopts); [apply aio_ls_finishes| |done].
    apply finishes_bind; [apply aio_ls_finishes|].
    intros [[out g1] mem1] _. by destruct (function_train_param_grad_sqnorm _ _ _).
  - intros [[out g'] mem'] _. destruct (isnan _); [done|]. by destruct (isinf _).
Qed.

Lemma minimize_aio_finishes (nparam : nat) (param : list double)
    (g : option (list double)) (pp : PP) :
  finishes (regress_opts_minimize_aio nparam param g pp).
Proof.
  unfold regress_opts_minimize_aio. apply finishes_bind.
  - apply (for_loop_m_finishes (fun _ => True)); [|done].
    intros i t _. split; [|done]. destruct (isnan _); [done|]. by destruct (isinf _).
  - intros _ _. cbv zeta. apply finishes_bind.
    + destruct (_ =? 0)%Z.
      * apply finishes_bind; [apply objective_aio_finishes|]. by intros [[? ?] ?] _.
      * destruct g as [g0|].
        -- apply finishes_bind; [apply aio_ls_finishes|]. by intros [[? ?] ?] _.
        -- apply finishes_bind; [apply objective_aio_finishes|]. by intros [[? ?] ?] _.
    + intros [[[eval g'] ftp'] mem'] _. destruct (isnan _); [done|]. by destruct (isinf _).
Qed.

Lemma minimize_als_finishes (nparam : nat) (prm : list double)
    (g : option (list double)) (pp : PP) :
  finishes (regress_opts_minimize_als nparam prm g pp).
Proof.
  unfold regress_opts_minimize_als. cbv zeta. apply finishes_bind.
  - unfold ft_param_eval_objective_als. destruct (_ =? 0)%Z; [done|].
    destruct (ropts_obj (pp_opts pp)); [done| |done].
    destruct (ft_param_eval_objective_als_ls _ _ _ _ _ _ _) as [[out g1] mem1].
    by destruct (qmarray_param_grad_sqnorm _ _ _ _).
  - by intros [[? ?] ?] _.
Qed.

Lemma c3_regression_run_finishes (ftp : FTparam) (ropts : RegressOpts)
    (optimizer : c3Opt) (n : nat) (x y : list double) :
  optimizer_finishes -> finishes (c3_regression_run ftp ropts optimizer n x y).
Proof.
  intros Hopt. unfold c3_regression_run. destruct (ropts_type ropts); [| |done].
  - unfold c3_regression_run_als, c3_regression_run_als_state. apply finishes_bind.
    + generalize (mkAlsState ftp ropts
        (regress_mem_manager_alloc (ftp_dim ftp) n (nparams_per_core ftp)
           (function_train_get_ranks (ftp_ft ftp)) (max_param_uni ftp)
           (ft_param_extract_structure ftp)) optimizer [] []).
      generalize 1 at 1. 
      induction (max_als_sweeps ropts) as [|fuel IH]; intros sweep s; [done|].
      cbn [als_sweeps]. apply finishes_bind.
      * unfold als_sweep. apply finishes_bind.
        -- apply (for_loop_m_finishes (fun _ => True)); [|done].
           intros i t _. split; [|done]. unfold als_optimize_core. cbv zeta.
           apply finishes_bind; [|by intros [[[[? ?] ?] ?] ?] _].
           apply Hopt. apply minimize_als_finishes.
        -- intros s1 _. apply (for_loop_m_finishes (fun _ => True)); [|done].
           intros i t _. split; [|done]. unfold als_optimize_core. cbv zeta.
           apply finishes_bind; [|by intros [[[[? ?] ?] ?] ?] _].
           apply Hopt. apply minimize_als_finishes.
      * intros s1 _. cbv zeta. destruct (_ <? _)%float; [done|]. apply IH.
    + done.
  - apply finishes_bind; [|by intros [[? ?] ?] _].
    unfold c3_regression_run_aio. cbv zeta.
    destruct (if (_ =? 0)%Z then _ else _) as [np guess].
    apply finishes_bind.
    + apply (for_loop_m_finishes (fun _ => True)); [|done].
      intros i t _. split; [|done]. destruct (isnan _); [done|]. by destruct (isinf _).
    + intros _ _. apply finishes_bind; [|by intros [[[[? ?] ?] ?] ?] _].
      apply Hopt. apply minimize_aio_finishes.
Qed.

(** A callee that answers on a handle with adaptation off, and leaves it
    off. *)
Definition run_ok
    (run : FTRegress -> c3Opt -> nat -> list double -> list double ->
           outcome (FTRegress * c3Opt * FunctionTrain)) : Prop :=
  forall reg optimizer n x y,
    adapt reg = 0%Z ->
    finishes (run reg optimizer n x y) /\
    forall reg' optimizer' f,
      run reg optimizer n x y = Returns (reg', optimizer', f) -> adapt reg' = 0%Z.

Lemma ft_regress_run_ok (depth : nat) :
  optimizer_finishes -> run_ok (ft_regress_run (S depth)).
Proof.
  intros Hopt reg optimizer n x y Hadapt. cbn [ft_regress_run].
  destruct (regopts reg) as [ro|]; [|done].
  cbn [adapt set_ftr_ftp]. rewrite Hadapt. cbn [Z.eqb].
  pose proof (c3_regression_run_finishes
                (if (fabs (cblas_ddot (nparams (ftr_ftp reg)) (params (ftr_ftp reg))
                             (params (ftr_ftp reg))) <=? 1e-15)%float
                 then ft_param_create_from_lin_ls (ftr_ftp reg) n x y 1e-3%float
                 else ftr_ftp reg) ro optimizer n x y Hopt) as Hfin.
  destruct (c3_regression_run _ _ _ _ _ _) as [[[[p ro'] o] f0]|dg|]; [|done|done].
  split; [done|]. cbn. by intros reg' optimizer' f [= <- _ _].
Qed.

Lemma cross_validate_run_ok
    (run : FTRegress -> c3Opt -> nat -> list double -> list double ->
           outcome (FTRegress * c3Opt * FunctionTrain))
    (cv : CrossValidate) (reg : FTRegress) (optimizer : c3Opt) :
  run_ok run -> adapt reg = 0%Z ->
  finishes (cross_validate_run run cv reg optimizer) /\
  forall err reg' optimizer' folds,
    cross_validate_run run cv reg optimizer = Returns (err, reg', optimizer', folds) ->
    adapt reg' = 0%Z.
Proof.
  intros Hrun Hadapt. unfold cross_validate_run.
  destruct (cv_kfold cv =? 0); [done|]. cbv zeta.
  set (prm := memmove _ _ _ _ _).
  destruct (for_loop_m_finishes (fun s => adapt (cvs_reg s) = 0%Z) 0 (cv_kfold cv)
              (cross_validate_fold run cv prm)
              (mkCvState (cv_N cv / cv_kfold cv) 0 0%float 0%float reg optimizer
                 (mkCvBuffers (calloc_double (cv_N cv * cv_dim cv)) (calloc_double (cv_N cv))
                    (calloc_double (cv_N cv * cv_dim cv)) (calloc_double (cv_N cv))) []))
    as [Hfin Hinv].
  - intros i t Ht. unfold cross_validate_fold. cbv zeta.
    destruct (Hrun (cvs_reg t) (cvs_optimizer t)
                (cv_N cv - (if i =? cv_kfold cv - 1 then cv_N cv - cvs_start_num t
                            else cvs_batch t))
                (xtrain (extract_data cv (cvs_start_num t)
                           (if i =? cv_kfold cv - 1 then cv_N cv - cvs_start_num t
                            else cvs_batch t) (cvs_buffers t)))
                (ytrain (extract_data cv (cvs_start_num t)
                           (if i =? cv_kfold cv - 1 then cv_N cv - cvs_start_num t
                            else cvs_batch t) (cvs_buffers t))) Ht) as [Hf Ha].
    destruct (run _ _ _ _ _) as [[[reg1 opt1] f]|dg|]; [|done|done].
    cbn [mbind outcome_bind]. destruct (for_loop 0 _ _ _) as [newerr newnorm].
    split; [done|]. intros t' [= <-]. cbn. by eapply Ha.
  - done.
  - destruct (for_loop_m 0 (cv_kfold cv) _ _) as [s|dg|]; [|done|done].
    split; [done|]. cbn. intros err reg' optimizer' folds [= _ <- _ _]. by apply Hinv.
Qed.

Lemma rankadapt_iter_ok
    (run : FTRegress -> c3Opt -> nat -> list double -> list double ->
           outcome (FTRegress * c3Opt * FunctionTrain))
    (cv : CrossValidate) (tol : double) (mx kick : nat) (oor : Z) (n : nat)
    (x y : list double) (s : adapt_state) :
  run_ok run -> adapt (ra_ftr s) = 0%Z ->
  finishes (rankadapt_iter run cv tol mx kick oor n x y s) /\
  forall s' again,
    rankadapt_iter run cv tol mx kick oor n x y s = Returns (s', again) ->
    adapt (ra_ftr s') = 0%Z.
Proof.
  intros Hrun Hadapt. unfold rankadapt_iter.
  set (ftround := function_train_round _ _ _).
  set (k := kick_ranks _ _ _ _ _).
  destruct ((kicked k =? 0)%Z || (_ =? 1)%Z).
  { split; [done|]. by intros s' again [= <- _]. }
  set (ftr1 := map_regopts _ _).
  set (ftr2 := ft_regress_reset_param _ _ _).
  set (ftr3 := if (oor =? 1)%Z then _ else _).
  destruct (restricted_start_shape ftr2 oor (function_train_get_params ftround))
    as [Ha3 _].
  cbv zeta in Ha3. fold ftr3 in Ha3.
  destruct (cross_validate_run_ok run cv ftr3 (ra_optimizer s) Hrun) as [Hfin Hcv];
    [by rewrite Ha3|].
  destruct (cross_validate_run run cv ftr3 (ra_optimizer s))
    as [[[[new_err ftr4] opt1] folds]|dg|]; [|done|done].
  cbn [mbind outcome_bind]. specialize (Hcv _ _ _ _ eq_refl).
  destruct (ra_err s <? new_err)%float.
  - split; [done|]. by intros s' again [= <- _].
  - destruct (Hrun ftr4 opt1 n x y Hcv) as [Hf Ha].
    destruct (run ftr4 opt1 n x y) as [[[ftr5 opt2] f']|dg|]; [|done|done].
    cbn [mbind outcome_bind]. split; [done|].
    intros s' again [= <- _]. cbn. by eapply Ha.
Qed.

Lemma rankadapt_loop_ok
    (run : FTRegress -> c3Opt -> nat -> list double -> list double ->
           outcome (FTRegress * c3Opt * FunctionTrain))
    (maxiter : nat) (cv : CrossValidate) (tol : double) (mx kick : nat) (oor : Z)
    (n : nat) (x y : list double) (s : adapt_state) :
  run_ok run -> adapt (ra_ftr s) = 0%Z ->
  finishes (rankadapt_loop run maxiter cv tol mx kick oor n x y s) /\
  forall s',
    rankadapt_loop run maxiter cv tol mx kick oor n x y s = Returns s' ->
    adapt (ra_ftr s') = 0%Z.
Proof.
  intros Hrun. revert s. induction maxiter as [|m IH]; intros s Hadapt.
  - cbn. split; [done|]. by intros s' [= <-].
  - cbn [rankadapt_loop].
    destruct (rankadapt_iter_ok run cv tol mx kick oor n x y s Hrun Hadapt) as [Hfin Hit].
    destruct (rankadapt_iter run cv tol mx kick oor n x y s) as [[s1 [|]]|dg|];
      [| |done|done].
    + apply IH. by eapply Hit.
    + split; [done|]. intros s' [= <-]. by eapply Hit.
Qed.

Lemma rankadapt_finishes
    (run : FTRegress -> c3Opt -> nat -> list double -> list double ->
           outcome (FTRegress * c3Opt * FunctionTrain))
    (ftr : FTRegress) (tol : double) (mx kick : nat) (optimizer : c3Opt) (oor : Z)
    (n : nat) (x y : list double) (fin : Z) :
  run_ok run ->
  finishes (ft_regress_run_rankadapt run ftr tol mx kick optimizer oor n x y fin).
Proof.
  intros Hrun. unfold ft_regress_run_rankadapt.
  destruct (regopts ftr) as [ro|]; [|done]. cbv zeta.
  destruct (cross_validate_run_ok run (cross_validate_init n (ftr_dim (set_adapt ftr 0)) x y 5 0)
              (set_adapt ftr 0) optimizer Hrun eq_refl) as [Hfin Hcv].
  apply finishes_bind; [done|]. intros [[[err ftr1] opt1] folds] Hcv1.
  apply Hcv in Hcv1. destruct (Hrun ftr1 opt1 n x y Hcv1) as [Hf Ha].
  apply finishes_bind; [done|]. intros [[ftr2 opt2] f] Hcall. apply Ha in Hcall.
  destruct (rankadapt_loop_ok run 10 (cross_validate_init n (ftr_dim (set_adapt ftr 0)) x y 5 0)
              tol mx kick oor n x y
              (mkAdaptState ftr2 opt2 f
                 (map (rdn (function_train_get_ranks f)) (seq 0 (ftr_dim ftr2 + 1))) err)
              Hrun Hcall) as [Hl Hs].
  apply finishes_bind; [done|]. intros s Hloop. apply Hs in Hloop.
  apply finishes_bind; [|by intros [[? ?] ?] _].
  destruct (fin =? 1)%Z; [|done]. by apply Hrun.
Qed.

(** Depth two is enough: with it [ft_regress_run] returns or terminates the
    process, for every handle. *)
Lemma ft_regress_run_depth (depth : nat) (ftr : FTRegress) (optimizer : c3Opt)
    (n : nat) (x y : list double) :
  optimizer_finishes -> 2 <= depth ->
  finishes (ft_regress_run depth ftr optimizer n x y).
Proof.
  intros Hopt Hdepth. destruct depth as [|[|depth]]; [lia|lia|].
  change (ft_regress_run (S (S depth)) ftr optimizer n x y) with
    (match regopts ftr with
     | None => Exits "assert (ftr->regopts != NULL)"
     | Some ro =>
         let ftp := ftr_ftp ftr in
         let param_norm := cblas_ddot (nparams ftp) (params ftp) (params ftp) in
         let ftp1 :=
           if (fabs param_norm <=? 1e-15)%float
           then ft_param_create_from_lin_ls ftp n x y 1e-3%float else ftp in
         let ftr1 := set_ftr_ftp ftr (ftr_approx_opts ftr) ftp1 in
         if (adapt ftr1 =? 1)%Z then
           ft_regress_run_rankadapt (ft_regress_run (S depth)) ftr1 (roundtol ftr1)
             (maxrank ftr1) (kickrank ftr1) optimizer (opt_restricted ftr1) n x y
             (finalize ftr1)
         else
           '(ftp2, ro', optimizer', f) ← c3_regression_run ftp1 ro optimizer n x y;
           Returns (set_regopts (set_ftr_ftp ftr1 (ftr_approx_opts ftr1) ftp2) (Some ro'),
                    optimizer', f)
     end).
  destruct (regopts ftr) as [ro|]; [|done]. cbv zeta.
  destruct (_ =? 1)%Z.
  - apply rankadapt_finishes. by apply ft_regress_run_ok.
  - apply finishes_bind; [by apply c3_regression_run_finishes|].
    by intros [[[? ?] ?] ?] _.
Qed.

End Regression.

(** * A small instance of the collaborators *)

(** The statements above are run on a stand-in for the function-train
    library: the value of a train at every point is [ev f], every entry of
    its parameter gradient is [gv], rounding is [rnd], and the optimizer
    evaluates the objective once, at the guess and with a gradient buffer,
    and moves every parameter by one. *)
Definition fill (r : RegMemSpace) (v : double) : RegMemSpace :=
  set_vals r (replicate (length (vals r)) v).

Definition fill_mem (e g : double) (mem : RegressionMemManager) : RegressionMemManager :=
  mkMem (mem_dim mem) (mem_N mem) (running_evals_lr mem) (running_evals_rl mem)
    (running_grad mem) (fill (evals mem) e) (fill (grad mem) g) (grad_space mem)
    (all_grads mem) (fparam_space mem) (structure mem) (once_eval_structure mem)
    (lin_structure_vals mem) (lin_structure_inc mem).

Definition one_call_minimize (opt : unit) (n : nat) (f : objective) (guess : list double)
    (pp : PP) : outcome (unit * Z * list double * double * PP) :=
  '(v, _, pp') ← f n guess (Some (calloc_double n)) pp;
  Returns (opt, 0%Z, (fun p => (p + 1)%float) <$> guess, v, pp').

Definition sample_ops (ev : FunctionTrain -> double) (gv : double)
    (rnd : FunctionTrain -> FunctionTrain) : Collaborators :=
  {| c3Opt := unit;
     qmarray_param_grad_eval := fun _ _ _ _ _ _ _ out => out;
     qmarray_param_grad_eval_sparse_mult := fun _ _ _ _ _ _ _ out => out;
     function_train_param_grad_eval := fun f _ _ _ _ mem => fill_mem (ev f) gv mem;
     function_train_linparam_grad_eval := fun f _ _ _ mem => fill_mem (ev f) gv mem;
     function_train_core_param_grad_eval := fun f _ _ _ _ _ mem => fill_mem (ev f) gv mem;
     function_train_core_linparam_grad_eval := fun f _ _ _ _ mem => fill_mem (ev f) gv mem;
     function_train_core_pre_post_run := fun _ _ _ _ mem => mem;
     function_train_param_grad_sqnorm := fun _ _ g => (0%float, g);
     qmarray_param_grad_sqnorm := fun _ _ _ g => (0%float, g);
     function_train_eval := fun f _ _ => ev f;
     function_train_core_param_grad_eval_at := fun f _ _ _ n => (ev f, replicate n gv);
     function_train_round := fun f _ _ => rnd f;
     function_train_norm2diff := fun a b => fabs (ev a - ev b)%float;
     function_train_norm2 := fun a => fabs (ev a);
     lin_ls_seed := fun ftp _ _ _ _ => replicate (nparams ftp) 1%float;
     c3opt_minimize := one_call_minimize |}.

(** The value of the stand-in train: its first parameter. *)
Definition first_param (f : FunctionTrain) : double := rd (ft_vals f) 0.

Lemma one_call_objective_only (ev : FunctionTrain -> double) (gv : double)
    (rnd : FunctionTrain -> FunctionTrain) :
  @optimizer_calls_objective_only (sample_ops ev gv rnd).
Proof.
  intros opt n f guess pp opt' res guess' val pp'. cbn. unfold one_call_minimize.
  destruct (f n guess (Some (calloc_double n)) pp) as [[[v g] pp1]|dg|] eqn:Hf;
    [|done|done].
  cbn. intros [= _ _ _ _ <-]. eapply calls_more; [exact Hf|apply calls_none].
Qed.

Lemma one_call_finishes (ev : FunctionTrain -> double) (gv : double)
    (rnd : FunctionTrain -> FunctionTrain) :
  @optimizer_finishes (sample_ops ev gv rnd).
Proof.
  intros opt n f guess pp Hf. cbn. unfold one_call_minimize.
  apply finishes_bind; [apply Hf|]. by intros [[? ?] ?] _.
Qed.

(** ** Sample data *)

Definition ops0 : Collaborators := sample_ops first_param 1%float (fun f => f).


Definition xs3 : list double := [1; 2; 3; 4; 5; 6]%float.
Definition ys3 : list double := [1; 2; 3]%float.

Definition sample_mem (st : FTPARAM_ST) : RegressionMemManager :=
  regress_mem_manager_alloc 2 3 (nparams_per_core example_ftp) [1; 2; 1]
    (max_param_uni example_ftp) st.



(** ** The objectives on the sample *)



(** ** The callbacks on the sample *)



(** ** The structure cache on the sample *)

Lemma check_structure_computed_once_witness :
  let r := @regress_mem_manager_check_structure ops0 (sample_mem LINEAR_ST) example_ftp xs3 in
  once_eval_structure (fst r) = 1%Z /\
  snd r = [0; 1] /\
  @regress_mem_manager_check_structure ops0 (fst r) example_ftp ys3 = (fst r, []).
Proof.
  destruct (proj1 (@check_structure_computed_once ops0 (sample_mem LINEAR_ST) example_ftp xs3))
    as (Hflag & Hev & _ & Hlater).
  - reflexivity.
  - reflexivity.
  - vm_compute. lia.
  - vm_compute. lia.
  - cbv zeta. split; [exact Hflag|]. split; [exact Hev|]. apply Hlater.
Defined.

(** ** Cross validation and rank adaptation on the sample *)

Definition xs10 : list double :=
  [1; 2; 3; 4; 5; 6; 7; 8; 9; 10; 1; 2; 3; 4; 5; 6; 7; 8; 9; 10]%float.
Definition ys10 : list double := [1; 2; 3; 4; 5; 1; 2; 3; 4; 5]%float.

(** A handle of dimension 2 for all-at-once least squares, as
    [ft_regress_alloc], [ft_regress_set_alg_and_obj], [ft_regress_set_adapt]
    and [ft_regress_set_maxrank] leave it, with initial parameters [prm]. *)
Definition sample_handle (rks : list nat) (prm : option (list double)) (a : Z) (mx : nat)
    : FTRegress :=
  mkFTRegress AIO FTLS 2 example_aopts (ft_param_alloc 2 example_aopts prm rks)
    (Some (regress_opts_alloc 2 AIO FTLS)) a 1 mx 1e-8%float 3 1 0.

Definition sample_cv (k : nat) : CrossValidate := cross_validate_init 10 2 xs10 ys10 k 0.


(** C4, at a handle with rank adaptation on, ranks [1; 1; 1], four
    parameters [5; 6; 7; 8] and [maxrank = 3]: the first fold of
    [cross_validate_run] lets [ft_regress_run] adapt the ranks, which
    re-allocates the handle's parameters with ranks [1; 2; 1]; the reset that
    follows copies eight entries out of the snapshot of four; the second
    fold starts from the ranks the first one chose, and the handle returned
    has eight parameters and ranks [1; 2; 1]. *)
Theorem cross_validate_run_adaptation_on :
  exists err reg' folds,
    @cross_validate_run ops0 (@ft_regress_run ops0 2) (sample_cv 2)
      (sample_handle [1; 1; 1] (Some [5; 6; 7; 8]%float) 1 3) tt =
      Returns (err, reg', tt, folds) /\
    params (ftr_ftp (sample_handle [1; 1; 1] (Some [5; 6; 7; 8]%float) 1 3)) =
      [5; 6; 7; 8]%float /\
    length (params (ftr_ftp reg')) = 8 /\
    ranks (ftp_ft (ftr_ftp reg')) = [1; 2; 1] /\
    map (fun fd => ranks (ftp_ft (ftr_ftp (fold_reg fd)))) folds = [[1; 1; 1]; [1; 2; 1]] /\
    map (fun fd => length (params (ftr_ftp (fold_reg fd)))) folds = [4; 8].
Proof.
  eexists _, _, _. split; [vm_compute; reflexivity|].
  repeat split; vm_compute; reflexivity.
Qed.

Lemma cross_validate_run_restores_parameters_witness :
  exists err reg' folds,
    @cross_validate_run ops0 (@ft_regress_run ops0 1) (sample_cv 2)
      (sample_handle [1; 1; 1] (Some [5; 6; 7; 8]%float) 0 3) tt =
      Returns (err, reg', tt, folds) /\
    map (fun fd => ft_vals (fold_ft fd)) folds =
      [[6; 7; 8; 9]; [6; 7; 8; 9]]%float /\
    params (ftr_ftp reg') = [5; 6; 7; 8]%float.
Proof.
  eexists _, _, _. split; [vm_compute; reflexivity|].
  split; [vm_compute; reflexivity|].
  eapply (@cross_validate_run_restores_parameters ops0 1 (sample_cv 2)
            (sample_handle [1; 1; 1] (Some [5; 6; 7; 8]%float) 0 3) tt).
  - apply one_call_objective_only.
  - reflexivity.
  - reflexivity.
  - vm_compute. reflexivity.
Defined.

Lemma rankadapt_kick_cap_stop_and_bound_witness :
  exists ftr' f,
    @ft_regress_run_rankadapt ops0 (@ft_regress_run ops0 1)
      (sample_handle [1; 1; 1] (Some [5; 6; 7; 8]%float) 1 3) 1e-8%float 3 1 tt 0 10
      xs10 ys10 1 = Returns (ftr', tt, f) /\
    ranks f = [1; 2; 1] /\
    ranks_le 3 (ranks f).
Proof.
  eexists _, _. split; [vm_compute; reflexivity|]. split; [reflexivity|].
  eapply (proj1 (proj2 (proj2 (proj2 (@rankadapt_kick_cap_stop_and_bound ops0)))) 1
            (sample_handle [1; 1; 1] (Some [5; 6; 7; 8]%float) 1 3)
            1e-8%float 3 1 tt 0%Z 10 xs10 ys10 1%Z).
  - apply one_call_objective_only.
  - intros f a Hle. exact Hle.
  - reflexivity.
  - unfold ranks_le. cbn. repeat constructor.
  - vm_compute. reflexivity.
Defined.

(** Ranks [1; 12; 1] at entry and [maxrank = 10]: the kick caps the working
    rank at [10], the loop ends, and the train returned is the one of the
    initial run, of rank [12]. *)
Lemma rankadapt_returns_rank_above_maxrank :
  exists ftr' f,
    @ft_regress_run_rankadapt ops0 (@ft_regress_run ops0 1)
      (sample_handle [1; 12; 1] None 1 10) 1e-8%float 10 1 tt 0 10 xs10 ys10 1 =
      Returns (ftr', tt, f) /\
    ranks f = [1; 12; 1] /\
    maxrank (sample_handle [1; 12; 1] None 1 10) = 10 /\
    (10 <? rdn (ranks f) 1) = true.
Proof.
  eexists _, _. split; [vm_compute; reflexivity|]. repeat split; reflexivity.
Defined.

(** The state of the adaptation loop before its first pass, with accepted
    error [err]. *)
Definition sample_adapt_state (err : double) : @adapt_state ops0 :=
  let h := sample_handle [1; 1; 1] (Some [5; 6; 7; 8]%float) 0 3 in
  @mkAdaptState ops0 h tt (ftp_ft (ftr_ftp h)) [1; 1; 1] err.

Lemma rankadapt_accepts_or_rolls_back_witness :
  (exists s',
     @rankadapt_iter ops0 (@ft_regress_run ops0 1) (sample_cv 5) 1e-8%float 3 1 0 10
       xs10 ys10 (sample_adapt_state 0.25%float) = Returns (s', false) /\
     ra_err s' = 0.25%float /\ ranks (ra_ft s') = [1; 1; 1] /\
     ft_vals (ra_ft s') = [5; 6; 7; 8]%float) /\
  (exists s',
     @rankadapt_iter ops0 (@ft_regress_run ops0 1) (sample_cv 5) 1e-8%float 3 1 0 10
       xs10 ys10 (sample_adapt_state 0.5%float) = Returns (s', true) /\
     ranks (ra_ft s') = [1; 2; 1]).
Proof.
  split.
  - edestruct (proj1 (@rankadapt_accepts_or_rolls_back ops0) (@ft_regress_run ops0 1)
                 (sample_cv 5) 1e-8%float 3 1 0%Z 10 xs10 ys10 (sample_adapt_state 0.25%float))
      as (_ & Hroll & _).
    + vm_compute. reflexivity.
    + exists 1. vm_compute. lia.
    + vm_compute. reflexivity.
    + destruct Hroll as (s' & Hs' & Herr & _ & Hft & Hranks & Hvals);
        [vm_compute; reflexivity|].
      exists s'. split; [exact Hs'|]. split; [exact Herr|].
      split; [apply Hranks; reflexivity|].
      apply Hvals. vm_compute. reflexivity.
  - edestruct (proj1 (@rankadapt_accepts_or_rolls_back ops0) (@ft_regress_run ops0 1)
                 (sample_cv 5) 1e-8%float 3 1 0%Z 10 xs10 ys10 (sample_adapt_state 0.5%float))
      as (_ & _ & Hacc).
    + vm_compute. reflexivity.
    + exists 1. vm_compute. lia.
    + vm_compute. reflexivity.
    + eexists. split.
      * apply Hacc; vm_compute; reflexivity.
      * vm_compute. reflexivity.
Defined.

(** ** Alternating least squares on the sample *)




(** * The function monitor (monitoring.c) *)

(** A [char *] that holds text is the string of its characters up to the
    terminating NUL, so [strlen]/[strncpy] copies are the string itself and
    [strcmp(a, b) == 0] is equality of strings. *)
Record Cpair : Type := mkCpair {
  cp_a : string;
  cp_b : string
}.

Definition cpair_create (a b : string) : Cpair := mkCpair a b.

Definition copy_cpair (pair : Cpair) : Cpair := cpair_create (cp_a pair) (cp_b pair).

(** A [struct PairList *]: the list of the nodes, head first. *)
Definition PairList : Type := list Cpair.

Definition pair_push (l : PairList) (data : Cpair) : PairList := copy_cpair data :: l.

Record HashtableCpair : Type := mkHashtable {
  ht_size : nat;
  ht_table : list PairList
}.

(** [create_hashtable_cp] returns [NULL] for a size below one. *)
Definition create_hashtable_cp (size : nat) : option HashtableCpair :=
  if size <? 1 then None else Some (mkHashtable size (replicate size [])).

(** [(size_t) *str] for a [char] that is signed. *)
Definition char_to_size_t (c : ascii) : N :=
  let n := N_of_ascii c in
  if (n <? 128)%N then n else (n + 2 ^ 64 - 256)%N.

(** [hashval = (size_t) *str + (hashval << 5) - hashval] on 64 bits. *)
Definition hash_step (hashval : N) (c : ascii) : N :=
  ((char_to_size_t c + (hashval * 32) mod 2 ^ 64 + 2 ^ 64 - hashval) mod 2 ^ 64)%N.

Definition hashsimple (size : nat) (str : string) : nat :=
  N.to_nat (fold_left hash_step (list_ascii_of_string str) 0%N mod N.of_nat size)%N.

(** The walk of [lookup_key] along one bucket. *)
Fixpoint lookup_bucket (pl : PairList) (key : string) : option string :=
  match pl with
  | [] => None
  | data :: next =>
      if String.eqb key (cp_a data) then Some (cp_b data) else lookup_bucket next key
  end.

Definition lookup_key (ht : HashtableCpair) (key : string) : option string :=
  lookup_bucket (nth (hashsimple (ht_size ht) key) (ht_table ht) []) key.

(** [add_cpair]: the table and the code returned. *)
Definition add_cpair (ht : HashtableCpair) (cp : Cpair) : HashtableCpair * Z :=
  let val := hashsimple (ht_size ht) (cp_a cp) in
  match lookup_key ht (cp_a cp) with
  | Some _ => (ht, 2%Z)
  | None =>
      (mkHashtable (ht_size ht)
         (<[val := pair_push (nth val (ht_table ht) []) cp]> (ht_table ht)), 0%Z)
  end.

(** The monitor of an n-dimensional function; [evals] is [None] when
    [create_hashtable_cp] returned [NULL]. *)
Record FunctionMonitor : Type := mkFunctionMonitor {
  fm_ftype : Z;
  fm_dim : nat;
  fm_f : list double -> double;
  fm_evals : option HashtableCpair
}.

Definition function_monitor_initnd (f : list double -> double) (d tsize : nat)
    : FunctionMonitor :=
  mkFunctionMonitor 0 d f (create_hashtable_cp tsize).

Definition set_evals (fm : FunctionMonitor) (ht : HashtableCpair) : FunctionMonitor :=
  mkFunctionMonitor (fm_ftype fm) (fm_dim fm) (fm_f fm) (Some ht).

Section Monitor.
(** The text serialisation of stringmanip.c. *)
Variable serialize_darray_to_text : nat -> list double -> string.
Variable serialize_double_to_text : double -> string.
Variable deserialize_double_from_text : string -> double.

(** [function_monitor_eval]: the value, the monitor afterwards and the
    points at which the wrapped function was called.  With a [NULL] table
    the first lookup dereferences it: there is no result. *)
Definition function_monitor_eval (x : list double) (fm : FunctionMonitor)
    : option (double * FunctionMonitor * list (list double)) :=
  match fm_evals fm with
  | None => None
  | Some ht =>
      let ser := serialize_darray_to_text (fm_dim fm) x in
      match lookup_key ht ser with
      | Some sval => Some (deserialize_double_from_text sval, fm, [])
      | None =>
          let val := fm_f fm x in
          let sval := serialize_double_to_text val in
          let cp := cpair_create ser sval in
          Some (val, set_evals fm (fst (add_cpair ht cp)), [x])
      end
  end.

(** Evaluations at the points [xs], one after the other. *)
Fixpoint function_monitor_evals (xs : list (list double)) (fm : FunctionMonitor)
    : option (list double * FunctionMonitor * list (list double)) :=
  match xs with
  | [] => Some ([], fm, [])
  | x :: rest =>
      match function_monitor_eval x fm with
      | None => None
      | Some (v, fm1, c1) =>
          match function_monitor_evals rest fm1 with
          | None => None
          | Some (vs, fm2, c2) => Some (v :: vs, fm2, c1 ++ c2)
          end
      end
  end.

End Monitor.

(** A table as [create_hashtable_cp] makes it and [add_cpair] keeps it. *)
Definition table_wf (ht : HashtableCpair) : Prop :=
  0 < ht_size ht /\ length (ht_table ht) = ht_size ht.

Lemma create_hashtable_cp_wf (size : nat) (ht : HashtableCpair) :
  create_hashtable_cp size = Some ht -> table_wf ht /\ forall key, lookup_key ht key = None.
Proof.
  unfold create_hashtable_cp. destruct (Nat.ltb_spec size 1) as [|Hs]; [done|].
  intros [= <-]. split.
  - unfold table_wf. cbn. rewrite length_replicate. lia.
  - intros key. unfold lookup_key. cbn [ht_table ht_size].
    rewrite nth_lookup.
    destruct (_ !! hashsimple size key) as [pl|] eqn:Hpl; [|done].
    apply lookup_replicate in Hpl as [-> _]. done.
Qed.

Lemma hashsimple_lt (size : nat) (str : string) : 0 < size -> hashsimple size str < size.
Proof.
  intros Hs. unfold hashsimple.
  assert (H : (fold_left hash_step (list_ascii_of_string str) 0 mod N.of_nat size
               < N.of_nat size)%N) by (apply N.mod_lt; lia).
  lia.
Qed.

Lemma add_cpair_wf (ht : HashtableCpair) (cp : Cpair) :
  table_wf ht -> table_wf (fst (add_cpair ht cp)).
Proof.
  unfold add_cpair, table_wf. destruct (lookup_key ht (cp_a cp)); [done|].
  cbn. by rewrite length_insert.
Qed.

Lemma lookup_add_cpair (ht : HashtableCpair) (cp : Cpair) (key : string) :
  table_wf ht ->
  lookup_key (fst (add_cpair ht cp)) key =
    match lookup_key ht key with
    | Some sval => Some sval
    | None => if String.eqb key (cp_a cp) then Some (cp_b cp) else None
    end.
Proof.
  intros [Hpos Hlen]. unfold add_cpair.
  destruct (lookup_key ht (cp_a cp)) as [old|] eqn:Hcp; cbn [fst].
  - destruct (lookup_key ht key) as [sval|] eqn:Hkey; [done|].
    destruct (String.eqb_spec key (cp_a cp)) as [->|]; [congruence|done].
  - unfold lookup_key at 1. cbn [ht_size ht_table].
    destruct (decide (hashsimple (ht_size ht) key = hashsimple (ht_size ht) (cp_a cp)))
      as [Heq|Hne].
    + rewrite Heq, nth_lookup, list_lookup_insert_eq
        by (rewrite Hlen; by apply hashsimple_lt).
      cbn [default]. unfold id, pair_push, copy_cpair, cpair_create.
      cbn [lookup_bucket cp_a cp_b].
      destruct (String.eqb_spec key (cp_a cp)) as [->|Hk].
      * by rewrite Hcp.
      * unfold lookup_key. rewrite Heq. by destruct (lookup_bucket _ key).
    + rewrite nth_lookup, list_lookup_insert_ne, <- nth_lookup by done.
      fold (lookup_key ht key).
      destruct (String.eqb_spec key (cp_a cp)) as [->|Hk]; [done|].
      by destruct (lookup_key ht key).
Qed.

Section MonitorFacts.
Variable serialize_darray_to_text : nat -> list double -> string.
Variable serialize_double_to_text : double -> string.
Variable deserialize_double_from_text : string -> double.

Local Notation "'eval'" :=
  (function_monitor_eval serialize_darray_to_text serialize_double_to_text
     deserialize_double_from_text) (only parsing).
Local Notation "'evals'" :=
  (function_monitor_evals serialize_darray_to_text serialize_double_to_text
     deserialize_double_from_text) (only parsing).

(** The key under which the monitor files the point [x]. *)
Definition key_of (fm : FunctionMonitor) (x : list double) : string :=
  serialize_darray_to_text (fm_dim fm) x.

Definition monitor_wf (fm : FunctionMonitor) : Prop :=
  exists ht, fm_evals fm = Some ht /\ table_wf ht.

(** The text stored under [key], if any. *)
Definition stored (fm : FunctionMonitor) (key : string) : option string :=
  match fm_evals fm with
  | Some ht => lookup_key ht key
  | None => None
  end.

(** One monitor follows another: same function and dimension, a table in
    order, and nothing stored was lost or changed. *)
Definition extends (fm fm' : FunctionMonitor) : Prop :=
  monitor_wf fm' /\ fm_f fm' = fm_f fm /\ fm_dim fm' = fm_dim fm /\
  forall key sval, stored fm key = Some sval -> stored fm' key = Some sval.

Lemma extends_refl (fm : FunctionMonitor) : monitor_wf fm -> extends fm fm.
Proof. intros Hwf. unfold extends. done. Qed.

Lemma extends_trans (a b c : FunctionMonitor) : extends a b -> extends b c -> extends a c.
Proof.
  intros (_ & Hf1 & Hd1 & Hs1) (Hwf & Hf2 & Hd2 & Hs2). unfold extends.
  split; [done|]. split; [congruence|]. split; [congruence|]. auto.
Qed.

Lemma eval_spec (x : list double) (fm : FunctionMonitor) :
  monitor_wf fm ->
  exists v fm' c,
    eval x fm = Some (v, fm', c) /\ extends fm fm' /\
    match stored fm (key_of fm x) with
    | Some sval => v = deserialize_double_from_text sval /\ fm' = fm /\ c = []
    | None =>
        v = fm_f fm x /\ c = [x] /\
        stored fm' (key_of fm x) = Some (serialize_double_to_text v)
    end.
Proof.
  intros (ht & Hev & Hwf). unfold function_monitor_eval, stored, key_of. rewrite Hev.
  destruct (lookup_key ht _) as [sval|] eqn:Hlook.
  - eexists _, _, _. split; [done|]. split; [|done].
    apply extends_refl. by exists ht.
  - eexists _, _, _. split; [done|]. split; [|split; [done|split; [done|]]].
    + unfold extends, monitor_wf, stored. cbn [fm_evals set_evals fm_f fm_dim].
      split; [eexists; split; [done|by apply add_cpair_wf]|].
      split; [done|]. split; [done|]. rewrite Hev.
      intros key sval Hkey. rewrite lookup_add_cpair by done. by rewrite Hkey.
    + cbn [fm_evals set_evals]. rewrite lookup_add_cpair by done.
      rewrite Hlook. cbn [cp_a cp_b cpair_create]. by rewrite String.eqb_refl.
Qed.

Lemma evals_spec (xs : list (list double)) (fm : FunctionMonitor) :
  monitor_wf fm ->
  exists vs fm' cs,
    evals xs fm = Some (vs, fm', cs) /\ extends fm fm' /\
    length vs = length xs /\
    NoDup (key_of fm <$> cs) /\
    forall x, x ∈ cs ->
      x ∈ xs /\ stored fm (key_of fm x) = None /\ is_Some (stored fm' (key_of fm x)).
Proof.
  revert fm. induction xs as [|x rest IH]; intros fm Hwf.
  - exists [], fm, []. cbn. split; [done|]. split; [by apply extends_refl|].
    split; [done|]. split; [constructor|]. intros x Hx. by apply elem_of_nil in Hx.
  - destruct (eval_spec x fm Hwf) as (v & fm1 & c1 & Hev & Hext1 & Hcase).
    destruct (IH fm1 (proj1 Hext1)) as (vs & fm2 & c2 & Hevs & Hext2 & Hlen & Hnd & Hc2).
    assert (Hkey : forall y, key_of fm1 y = key_of fm y).
    { intros y. unfold key_of. by destruct Hext1 as (_ & _ & -> & _). }
    exists (v :: vs), fm2, (c1 ++ c2). cbn [function_monitor_evals].
    rewrite Hev, Hevs. split; [done|]. split; [by eapply extends_trans|].
    split; [cbn; by rewrite Hlen|].
    assert (Hc2' : forall y, y ∈ c2 ->
              y ∈ x :: rest /\ stored fm (key_of fm y) = None /\
              is_Some (stored fm2 (key_of fm y)) /\ stored fm1 (key_of fm y) = None).
    { intros y Hy. destruct (Hc2 y Hy) as (Hin & Hnone & Hsome). rewrite Hkey in *.
      split; [by right|]. split; [|done].
      destruct (stored fm (key_of fm y)) as [sv|] eqn:Hst; [|done].
      destruct Hext1 as (_ & _ & _ & Hkeep). apply Hkeep in Hst. congruence. }
    destruct (stored fm (key_of fm x)) as [sval|] eqn:Hst.
    + destruct Hcase as (_ & -> & ->). cbn [app].
      split; [exact Hnd|].
      intros y Hy. destruct (Hc2' y Hy) as (? & ? & ? & _). done.
    + destruct Hcase as (-> & -> & Hnew). cbn [app fmap list_fmap].
      split.
      * apply NoDup_cons. split.
        -- intros (y & Heq & Hy)%list_elem_of_fmap.
           destruct (Hc2' y Hy) as (_ & _ & _ & Hnone1). rewrite <- Heq in Hnone1.
           congruence.
        -- erewrite list_fmap_ext; [exact Hnd|]. intros i y _. by rewrite Hkey.
      * intros y [->|Hy]%elem_of_cons.
        -- split; [by left|]. split; [done|].
           destruct Hext2 as (_ & _ & _ & Hkeep). eexists. by apply Hkeep.
        -- destruct (Hc2' y Hy) as (? & ? & ? & _). done.
Qed.


End MonitorFacts.

(** ** The monitor on a sample *)

(** A stand-in for the text serialisation, exact on the values [1] and [2]. *)
Definition sample_double_to_text (v : double) : string :=
  if PrimFloat.eqb v 1 then "1" else if PrimFloat.eqb v 2 then "2" else "?".

Definition sample_double_from_text (s : string) : double :=
  if String.eqb s "1" then 1%float else if String.eqb s "2" then 2%float else 0%float.

Definition sample_darray_to_text (n : nat) (x : list double) : string :=
  String.concat " " (map (fun i => sample_double_to_text (rd x i)) (seq 0 n)).

(** The monitor of [x |-> x[0] + 1] with a table of four buckets. *)
Definition sample_monitor : FunctionMonitor :=
  function_monitor_initnd (fun x => (rd x 0 + 1)%float) 1 4.


(** * More of the regression layer *)

(** ** Counting and extracting the restricted parameters *)

Lemma count_true_app (a b : list bool) :
  count_true (a ++ b) = count_true a + count_true b.
Proof. induction a as [|x a IH]; simpl; [done|]. rewrite IH. lia. Qed.

Lemma count_true_replicate (n : nat) (b : bool) :
  count_true (replicate n b) = if b then n else 0.
Proof. induction n as [|n IH]; simpl; [by destruct b|]. rewrite IH. by destruct b. Qed.

Lemma count_true_negb (m : list bool) :
  count_true m + count_true (map negb m) = length m.
Proof. induction m as [|b m IH]; simpl; [done|]. destruct b; simpl; lia. Qed.

Lemma length_true_positions (g : nat) (m : list bool) :
  length (true_positions g m) = count_true m.
Proof.
  revert g. induction m as [|b m IH]; intros g; simpl; [done|].
  destruct b; simpl; by rewrite IH.
Qed.

(** The counter of [ft_param_get_nparams_restrict] after the functions
    [ts], started at function [i] with count [n]. *)
Lemma count_loop_mask (npu : list nat) (c : nat * nat * nat -> bool)
    (ts : list (nat * nat * nat)) (i n : nat) :
  fold_left (fun (s : nat * nat) t =>
               let '(i', n') := s in (S i', if c t then n' + rdn npu i' else n'))
            ts (i, n) =
  (i + length ts, n + count_true (mask_from npu c i ts)).
Proof.
  revert i n. induction ts as [|t ts IH]; intros i n; simpl.
  - f_equal; lia.
  - rewrite IH, count_true_app, count_true_replicate.
    destruct (c t); f_equal; lia.
Qed.

Lemma nparams_restrict_count (ftp : FTparam) (rs : list nat) :
  ft_param_get_nparams_restrict ftp rs = count_true (param_mask (restricted_p rs) ftp).
Proof.
  unfold ft_param_get_nparams_restrict, param_mask. cbv zeta.
  assert (Hloops :
    for_loop 0 (ftp_dim ftp) (fun kk =>
      for_loop 0 (rdn (ranks (ftp_ft ftp)) (kk + 1)) (fun jj =>
        for_loop 0 (rdn (ranks (ftp_ft ftp)) kk) (fun ii '(i, n) =>
          (S i,
           if (if 0 <? kk then
                 (rdn rs (kk - 1) <=? ii) || (rdn rs kk <=? jj)
               else rdn rs kk <=? jj)
           then n + rdn (nparams_per_uni ftp) i else n))))
      (0, 0) =
    fold_left (fun (s : nat * nat) t =>
                 let '(i', n') := s in
                 (S i', if restricted_p rs t then n' + rdn (nparams_per_uni ftp) i' else n'))
              (rank_pairs ftp) (0, 0)).
  { unfold rank_pairs. cbv zeta.
    rewrite for_loop_fold, fold_left_flat_map.
    apply fold_left_ext; intros s1 kk.
    rewrite for_loop_fold, fold_left_flat_map.
    apply fold_left_ext; intros s2 jj.
    rewrite for_loop_fold, fold_left_map. done. }
  rewrite Hloops, count_loop_mask. done.
Qed.

Lemma scatter_ext (m : list bool) (v v' r : list double) :
  (forall k, k < count_true m -> rd v k = rd v' k) ->
  scatter m v r = scatter m v' r.
Proof.
  revert v v' r. induction m as [|b m IH]; intros v v' r Hv; simpl; [done|].
  destruct r as [|x r]; [done|]. destruct b.
  - f_equal; [apply (Hv 0); simpl; lia|].
    apply IH. intros k Hk. rewrite !rd_drop. apply Hv. simpl. lia.
  - f_equal. apply IH. intros k Hk. apply Hv. simpl. lia.
Qed.

(** The extraction loop over the flags of the entries. *)
Definition ext_if (full : list double) (b : bool) (s : ext_state) : ext_state :=
  let s' :=
    if b then
      mkExt (ext_ind s) (ext_onparam s) (S (ext_onparam_new s))
        (<[ext_onparam_new s := rd full (ext_onparam s)]> (restrict_vals s))
    else s in
  mkExt (ext_ind s') (S (ext_onparam s')) (ext_onparam_new s') (restrict_vals s').

Lemma fold_ext_if_spec (full : list double) (m : list bool) :
  forall (done_ rest : list double) (i g : nat),
    count_true m <= length rest ->
    fold_left (fun s b => ext_if full b s) m
      (mkExt i g (length done_) (done_ ++ rest)) =
    mkExt i (g + length m) (length done_ + count_true m)
      (done_ ++ map (rd full) (true_positions g m) ++ drop (count_true m) rest).
Proof.
  induction m as [|b m IH]; intros done_ rest i g Hlen; simpl.
  - rewrite drop_0. f_equal; lia.
  - destruct b; unfold ext_if; cbn [ext_ind ext_onparam ext_onparam_new restrict_vals].
    + destruct rest as [|x rest]; simpl in Hlen; [lia|].
      rewrite insert_app_r_alt by lia. rewrite Nat.sub_diag. cbn [insert list_insert].
      rewrite (cons_middle (rd full g)), app_assoc.
      replace (S (length done_)) with (length (done_ ++ [rd full g]))
        by (rewrite length_app; simpl; lia).
      rewrite IH by lia. rewrite length_app. simpl. rewrite <- !app_assoc. simpl.
      f_equal; lia.
    + rewrite IH by (simpl in Hlen; lia). simpl. f_equal; lia.
Qed.

Lemma fold_ext_if_ind (full : list double) (m : list bool) (s : ext_state) (i : nat) :
  fold_left (fun s' b => ext_if full b s') m
    (mkExt i (ext_onparam s) (ext_onparam_new s) (restrict_vals s)) =
  let r := fold_left (fun s' b => ext_if full b s') m s in
  mkExt i (ext_onparam r) (ext_onparam_new r) (restrict_vals r).
Proof.
  revert s. induction m as [|b m IH]; intros s; simpl; [done|].
  rewrite <- IH. f_equal. by destruct b.
Qed.

Lemma fold_ext_if_keeps_ind (full : list double) (m : list bool) (s : ext_state) :
  ext_ind (fold_left (fun s' b => ext_if full b s') m s) = ext_ind s.
Proof.
  revert s. induction m as [|b m IH]; intros s; simpl; [done|].
  rewrite IH. by destruct b.
Qed.

Lemma ext_visit_mask (npu : list nat) (full : list double)
    (c : nat * nat * nat -> bool) (ts : list (nat * nat * nat)) (s : ext_state) :
  fold_left (fun s0 t =>
    let s1 := for_loop 0 (rdn npu (ext_ind s0)) (fun ll s' => ext_if full (c t) s') s0 in
    mkExt (S (ext_ind s1)) (ext_onparam s1) (ext_onparam_new s1) (restrict_vals s1))
    ts s =
  let r := fold_left (fun s' b => ext_if full b s') (mask_from npu c (ext_ind s) ts) s in
  mkExt (ext_ind s + length ts) (ext_onparam r) (ext_onparam_new r) (restrict_vals r).
Proof.
  revert s. induction ts as [|t ts IH]; intros s; cbn [fold_left mask_from length].
  - cbv zeta. destruct s. cbn. f_equal. lia.
  - rewrite IH. cbv zeta. cbn [ext_ind ext_onparam ext_onparam_new restrict_vals].
    rewrite fold_left_app.
    assert (Hone : for_loop 0 (rdn npu (ext_ind s)) (fun _ s' => ext_if full (c t) s') s =
                   fold_left (fun s' b => ext_if full b s')
                     (replicate (rdn npu (ext_ind s)) (c t)) s).
    { generalize (rdn npu (ext_ind s)). intros n. rewrite for_loop_fold.
      generalize 0. revert s. induction n as [|n IHn]; intros s lo; simpl; [done|].
      by rewrite IHn. }
    rewrite Hone. set (s1 := fold_left _ (replicate _ _) s).
    assert (Hind : ext_ind s1 = ext_ind s) by apply fold_ext_if_keeps_ind.
    rewrite (fold_ext_if_ind full _ s1 (S (ext_ind s1))). cbv zeta.
    cbn [ext_ind ext_onparam ext_onparam_new restrict_vals].
    rewrite Hind. f_equal. lia.
Qed.

Lemma extract_restricted_vals_spec (o : RegressOpts) (ftp : FTparam)
    (full out : list double) :
  ropts_dim o = ftp_dim ftp ->
  count_true (param_mask (restricted_p (restrict_rank_opt o)) ftp) <= length out ->
  extract_restricted_vals o ftp full out =
    map (rd full) (true_positions 0 (param_mask (restricted_p (restrict_rank_opt o)) ftp)) ++
    drop (count_true (param_mask (restricted_p (restrict_rank_opt o)) ftp)) out.
Proof.
  intros Hdim Hlen. unfold extract_restricted_vals. cbv zeta. rewrite Hdim.
  match goal with
  | |- restrict_vals ?L = _ =>
      assert (Hloops : L =
        fold_left (fun s0 t =>
          let s1 :=
            for_loop 0 (rdn (nparams_per_uni ftp) (ext_ind s0))
              (fun ll s' => ext_if full (restricted_p (restrict_rank_opt o) t) s') s0 in
          mkExt (S (ext_ind s1)) (ext_onparam s1) (ext_onparam_new s1) (restrict_vals s1))
          (rank_pairs ftp) (mkExt 0 0 0 out))
  end.
  { unfold rank_pairs. cbv zeta.
    rewrite for_loop_fold, fold_left_flat_map.
    apply fold_left_ext; intros s1 kk.
    rewrite for_loop_fold, fold_left_flat_map.
    apply fold_left_ext; intros s2 jj.
    rewrite for_loop_fold, fold_left_map.
    apply fold_left_ext; intros s3 ii. done. }
  rewrite Hloops, ext_visit_mask. cbv zeta. cbn [ext_ind restrict_vals].
  fold (param_mask (restricted_p (restrict_rank_opt o)) ftp).
  pose proof (fold_ext_if_spec full (param_mask (restricted_p (restrict_rank_opt o)) ftp)
                [] out 0 0 Hlen) as Hspec.
  cbn [app length] in Hspec. rewrite Hspec. done.
Qed.

Lemma map_rd_true_positions (m : list bool) (g : nat) (full : list double) :
  g + length m <= length full ->
  map (rd full) (true_positions g m) = select m (drop g full).
Proof.
  revert g. induction m as [|b m IH]; intros g Hlen; simpl; [by destruct (drop g full)|].
  simpl in Hlen.
  destruct (drop g full) as [|x rest] eqn:Hdrop.
  { apply (f_equal length) in Hdrop. rewrite length_drop in Hdrop. simpl in Hdrop. lia. }
  assert (Hx : rd full g = x).
  { replace g with (g + 0) by lia. rewrite <- rd_drop, Hdrop. done. }
  assert (Hrest : drop (S g) full = rest).
  { replace (S g) with (g + 1) by lia.
    rewrite <- drop_drop, Hdrop. done. }
  destruct b; simpl; rewrite IH by lia; rewrite Hrest; by rewrite ?Hx.
Qed.

Lemma length_scatter (m : list bool) (v r : list double) :
  length (scatter m v r) = length r.
Proof.
  revert v r. induction m as [|b m IH]; intros v [|x r]; simpl; try done.
  destruct b; simpl; by rewrite IH.
Qed.

Lemma read_n_S (l : list double) (n : nat) :
  read_n l 0 (S n) = rd l 0 :: read_n (drop 1 l) 0 n.
Proof.
  unfold read_n. cbn [seq map]. f_equal.
  rewrite <- seq_shift, map_map. apply map_ext. intros k. by rewrite rd_drop.
Qed.

Lemma select_scatter (m : list bool) (p r : list double) :
  length r = length m ->
  select m (scatter m p r) = read_n p 0 (count_true m).
Proof.
  revert p r. induction m as [|b m IH]; intros p [|x r] Hl; simpl in *; try done.
  destruct b; simpl.
  - rewrite read_n_S. f_equal. apply IH. lia.
  - apply IH. lia.
Qed.

Lemma scatter_select_same (m : list bool) (r : list double) :
  length r = length m -> scatter m (select m r) r = r.
Proof.
  revert r. induction m as [|b m IH]; intros [|x r] Hl; simpl in *; try done.
  destruct b; simpl.
  - rewrite drop_0. f_equal. apply IH. lia.
  - f_equal. apply IH. lia.
Qed.

Lemma scatter_all (n : nat) (p r : list double) :
  length r = n -> scatter (replicate n true) p r = read_n p 0 n.
Proof.
  revert p r. induction n as [|n IH]; intros p [|x r] Hl; simpl in *; try done.
  rewrite read_n_S. f_equal. apply IH. lia.
Qed.

Lemma mask_from_all (npu : list nat) (c : nat * nat * nat -> bool) (i : nat)
    (ts : list (nat * nat * nat)) :
  (forall t, In t ts -> c t = true) ->
  mask_from npu c i ts = replicate (length (mask_from npu c i ts)) true.
Proof.
  revert i. induction ts as [|t ts IH]; intros i Hall; simpl; [done|].
  rewrite length_app, length_replicate, replicate_add.
  rewrite (Hall t) by (by left). f_equal. apply IH. intros t' Ht'. apply Hall. by right.
Qed.

Lemma rank_pairs_dim (ftp : FTparam) (kk jj ii : nat) :
  In (kk, jj, ii) (rank_pairs ftp) -> kk < ftp_dim ftp.
Proof.
  unfold rank_pairs. cbv zeta. rewrite in_flat_map.
  intros (k & Hk & Hin). apply in_seq in Hk.
  apply in_flat_map in Hin as (j & _ & Hin). apply in_map_iff in Hin as (i & [= <- _ _] & _).
  lia.
Qed.

Lemma restrict_ranksp_zero (o : RegressOpts) :
  restrict_ranksp o = 0%Z <->
  forall ii, ii < ropts_dim o -> rdn (restrict_rank_opt o) ii = 0.
Proof.
  unfold restrict_ranksp. destruct (existsb _ _) eqn:Hex.
  - split; [done|]. intros Hall. exfalso.
    apply existsb_exists in Hex as (ii & Hii & Hpos). apply in_seq in Hii.
    rewrite Hall in Hpos by lia. done.
  - split; [|done]. intros _ ii Hii.
    destruct (rdn (restrict_rank_opt o) ii) as [|r] eqn:Hr; [done|]. exfalso.
    assert (Ht : existsb (fun ii => 0 <? rdn (restrict_rank_opt o) ii)
                   (seq 0 (ropts_dim o)) = true).
    { apply existsb_exists. exists ii. split; [apply in_seq; lia|by rewrite Hr]. }
    congruence.
Qed.

Lemma memmove_full (dst src : list double) (n : nat) :
  length dst = n -> memmove dst 0 src 0 n = read_n src 0 n.
Proof.
  intros Hlen. unfold memmove. apply list_eq. intros i.
  destruct (decide (i < n)) as [Hlt|Hge].
  - rewrite list_lookup_inserts; [f_equal; lia|rewrite length_read_n; lia|lia].
  - rewrite list_lookup_inserts_ge by (rewrite length_read_n; lia).
    rewrite (proj2 (lookup_ge_None dst i)) by lia. symmetry. apply lookup_ge_None.
    rewrite length_read_n. lia.
Qed.

Lemma param_mask_set_params (c : nat * nat * nat -> bool) (ftp : FTparam)
    (p q : list double) :
  param_mask c (set_params ftp p (function_train_update_params (ftp_ft ftp) q)) =
  param_mask c ftp.
Proof. done. Qed.

Lemma rd_app_l (a b : list double) (k : nat) : k < length a -> rd (a ++ b) k = rd a k.
Proof. intros Hk. unfold rd. by rewrite app_nth1. Qed.

(** X1. [ft_param_get_nparams_restrict] returns the number of buffer
    entries that [ft_param_update_restricted_ranks] writes, which is also the number
    of entries of its argument that it reads; the update below the
    thresholds writes all the other entries. *)
Theorem nparams_restrict_counts_entries (ftp : FTparam) (rs : list nat)
    (p p' q : list double) :
  ftparam_wf ftp ->
  let n := ft_param_get_nparams_restrict ftp rs in
  length (snd (ft_param_update_restricted_ranks ftp p rs)) = n /\
  length (snd (ft_param_update_inside_restricted_ranks ftp q rs)) + n = nparams ftp /\
  ((forall k, k < n -> rd p k = rd p' k) ->
   ft_param_update_restricted_ranks ftp p rs = ft_param_update_restricted_ranks ftp p' rs).
Proof.
  intros [Hlen Hn]. cbv zeta. rewrite nparams_restrict_count.
  set (m := param_mask (restricted_p rs) ftp).
  assert (Hm : length m = length (params ftp)).
  { unfold m. rewrite length_param_mask. congruence. }
  rewrite update_restricted_loops, update_inside_loops. cbv zeta. cbn [fst snd].
  destruct (update_loops_spec (restricted_p rs) ftp p) as [Hb1 Hs1]; [fold m; lia|].
  destruct (update_loops_spec (inside_p rs) ftp q) as [_ Hs2].
  { rewrite param_mask_inside, length_map. fold m. lia. }
  rewrite Hs1, Hs2, !length_true_positions, param_mask_inside. fold m.
  split; [done|]. split.
  - pose proof (count_true_negb m). lia.
  - intros Hp.
    destruct (update_loops_spec (restricted_p rs) ftp p') as [Hb1' Hs1']; [fold m; lia|].
    rewrite (update_restricted_loops ftp p'). cbv zeta.
    rewrite Hs1', Hb1, Hb1'. fold m. by rewrite (scatter_ext m p p' _ Hp).
Qed.

Lemma nparams_restrict_counts_entries_witness :
  let n := ft_param_get_nparams_restrict example_ftp [1; 0] in
  n = 6 /\
  length (snd (ft_param_update_restricted_ranks example_ftp [1; 2; 3; 4; 5; 6]%float [1; 0]))
    = n /\
  length (snd (ft_param_update_inside_restricted_ranks example_ftp [7; 8]%float [1; 0])) + n
    = nparams example_ftp.
Proof.
  destruct (nparams_restrict_counts_entries example_ftp [1; 0]
              [1; 2; 3; 4; 5; 6]%float [1; 2; 3; 4; 5; 6]%float [7; 8]%float)
    as (H1 & H2 & _).
  - split; reflexivity.
  - cbv zeta. split; [reflexivity|]. split; [exact H1|exact H2].
Defined.

(** X2. [extract_restricted_vals] and [ft_param_update_restricted_ranks]
    undo each other: the values extracted after an update are the values the
    update was given, and writing back what was extracted leaves the
    parameter buffer as it was. *)
Theorem restricted_extract_round_trip (o : RegressOpts) (ftp : FTparam)
    (p out : list double) :
  ftparam_wf ftp ->
  ropts_dim o = ftp_dim ftp ->
  let rs := restrict_rank_opt o in
  let n := ft_param_get_nparams_restrict ftp rs in
  n <= length out ->
  let ftp' := fst (ft_param_update_restricted_ranks ftp p rs) in
  extract_restricted_vals o ftp' (params ftp') out = read_n p 0 n ++ drop n out /\
  params (fst (ft_param_update_restricted_ranks ftp
                 (extract_restricted_vals o ftp (params ftp) out) rs)) = params ftp.
Proof.
  intros [Hlen Hn] Hdim. cbv zeta. rewrite nparams_restrict_count.
  set (m := param_mask (restricted_p (restrict_rank_opt o)) ftp).
  assert (Hm : length m = length (params ftp)).
  { unfold m. rewrite length_param_mask. congruence. }
  intros Hout. rewrite !update_restricted_loops. cbv zeta. cbn [fst params set_params].
  split.
  - destruct (update_loops_spec (restricted_p (restrict_rank_opt o)) ftp p) as [Hb _];
      [fold m; lia|].
    rewrite extract_restricted_vals_spec; [|done|by rewrite param_mask_set_params].
    rewrite param_mask_set_params. fold m. rewrite Hb. fold m.
    rewrite map_rd_true_positions by (rewrite length_scatter; lia).
    rewrite drop_0, select_scatter by done. done.
  - destruct (update_loops_spec (restricted_p (restrict_rank_opt o)) ftp
                (extract_restricted_vals o ftp (params ftp) out)) as [Hb _];
      [fold m; lia|].
    rewrite Hb. fold m. rewrite extract_restricted_vals_spec by done. fold m.
    rewrite map_rd_true_positions by lia. rewrite drop_0.
    rewrite (scatter_ext m _ (select m (params ftp))).
    + by apply scatter_select_same.
    + intros k Hk. apply rd_app_l. rewrite length_select by done. done.
Qed.

Lemma restricted_extract_round_trip_witness :
  let o := set_restrict_rank_opt (regress_opts_alloc 2 AIO FTLS) [1; 0] in
  let ftp' :=
    fst (ft_param_update_restricted_ranks example_ftp [1; 2; 3; 4; 5; 6]%float [1; 0]) in
  params ftp' = [0; 0; 1; 2; 3; 4; 5; 6]%float /\
  extract_restricted_vals o ftp' (params ftp') (calloc_double 6) =
    [1; 2; 3; 4; 5; 6]%float.
Proof.
  cbv zeta. split; [reflexivity|].
  destruct (restricted_extract_round_trip
              (set_restrict_rank_opt (regress_opts_alloc 2 AIO FTLS) [1; 0])
              example_ftp [1; 2; 3; 4; 5; 6]%float (calloc_double 6)) as [H _].
  - split; reflexivity.
  - reflexivity.
  - vm_compute. lia.
  - exact H.
Defined.

(** X3. With no positive threshold ([restrict_ranksp] returns 0) the
    restricted path is the full one: the restricted count is the number of parameters,
    the restricted update is [ft_param_update_params], and the values
    extracted into a buffer of [nparams] entries are the parameters. *)
Theorem no_restriction_is_full_update (o : RegressOpts) (ftp : FTparam) (p : list double) :
  restrict_ranksp o = 0%Z ->
  ropts_dim o = ftp_dim ftp ->
  ftparam_wf ftp ->
  ft_param_get_nparams_restrict ftp (restrict_rank_opt o) = nparams ftp /\
  fst (ft_param_update_restricted_ranks ftp p (restrict_rank_opt o)) =
    ft_param_update_params ftp p /\
  extract_restricted_vals o ftp (params ftp) (calloc_double (nparams ftp)) = params ftp.
Proof.
  intros Hzero Hdim [Hlen Hn].
  set (m := param_mask (restricted_p (restrict_rank_opt o)) ftp).
  assert (Hm : length m = nparams ftp).
  { unfold m. rewrite length_param_mask. congruence. }
  assert (Hall : m = replicate (nparams ftp) true).
  { rewrite <- Hm. unfold m, param_mask. apply mask_from_all.
    intros [[kk jj] ii] Hin. apply rank_pairs_dim in Hin.
    pose proof (proj1 (restrict_ranksp_zero o) Hzero) as Hrs.
    unfold restricted_p. destruct (Nat.ltb_spec 0 kk).
    - rewrite (Hrs (kk - 1)) by lia. done.
    - rewrite (Hrs kk) by lia. done. }
  assert (Hcount : count_true m = nparams ftp).
  { rewrite Hall, count_true_replicate. done. }
  split; [by rewrite nparams_restrict_count|]. split.
  - rewrite update_restricted_loops. cbv zeta. cbn [fst].
    destruct (update_loops_spec (restricted_p (restrict_rank_opt o)) ftp p) as [Hb _];
      [fold m; lia|].
    rewrite Hb. fold m. rewrite Hall, scatter_all by done.
    unfold ft_param_update_params. by rewrite memmove_full.
  - rewrite extract_restricted_vals_spec; fold m.
    + rewrite map_rd_true_positions by lia. rewrite drop_0, Hcount.
      rewrite drop_ge by (unfold calloc_double; rewrite length_replicate; lia).
      rewrite app_nil_r. pose proof (scatter_select_same m (params ftp)) as Hss.
      rewrite Hall at 1. clear Hss.
      assert (Hsel : forall n (v : list double), length v = n ->
                select (replicate n true) v = v).
      { induction n as [|n IH]; intros [|x v] Hv; simpl in *; try done.
        f_equal. apply IH. lia. }
      by apply Hsel.
    + done.
    + unfold calloc_double. rewrite length_replicate. lia.
Qed.

Lemma no_restriction_is_full_update_witness :
  ft_param_get_nparams_restrict example_ftp [0; 0] = 8 /\
  fst (ft_param_update_restricted_ranks example_ftp [1; 2; 3; 4; 5; 6; 7; 8]%float [0; 0]) =
    ft_param_update_params example_ftp [1; 2; 3; 4; 5; 6; 7; 8]%float.
Proof.
  destruct (no_restriction_is_full_update (regress_opts_alloc 2 AIO FTLS) example_ftp
              [1; 2; 3; 4; 5; 6; 7; 8]%float) as (H1 & H2 & _).
  - reflexivity.
  - reflexivity.
  - split; reflexivity.
  - split; [exact H1|exact H2].
Defined.

(** ** Allocation of the parameterised train *)

Lemma sum_replicate (n x : nat) : foldr Nat.add 0 (replicate n x) = n * x.
Proof. induction n as [|n IH]; simpl; [done|]. rewrite IH. lia. Qed.

Lemma sum_app (a b : list nat) :
  foldr Nat.add 0 (a ++ b) = foldr Nat.add 0 a + foldr Nat.add 0 b.
Proof. induction a as [|x a IH]; simpl; [done|]. rewrite IH. lia. Qed.

Lemma sum_flat_map {A : Type} (f : A -> list nat) (l : list A) :
  foldr Nat.add 0 (flat_map f l) = foldr Nat.add 0 (map (fun x => foldr Nat.add 0 (f x)) l).
Proof. induction l as [|x l IH]; simpl; [done|]. by rewrite sum_app, IH. Qed.

Lemma length_flat_map_sum {A B : Type} (f : A -> list B) (l : list A) :
  length (flat_map f l) = foldr Nat.add 0 (map (fun x => length (f x)) l).
Proof. induction l as [|x l IH]; simpl; [done|]. by rewrite length_app, IH. Qed.

Lemma map_rdn_seq (l : list nat) : map (rdn l) (seq 0 (length l)) = l.
Proof.
  apply list_eq. intros i. rewrite list_lookup_fmap.
  destruct (decide (i < length l)) as [Hi|Hi].
  - rewrite lookup_seq_lt by done. simpl. unfold rdn. rewrite nth_lookup.
    destruct (lookup_lt_is_Some_2 l i Hi) as [x Hx]. by rewrite Hx.
  - rewrite lookup_seq_ge by lia. simpl. symmetry. apply lookup_ge_None. lia.
Qed.

Lemma foldl_max_le (l : list nat) (a : nat) :
  a <= foldl Nat.max a l /\ Forall (fun n => n <= foldl Nat.max a l) l.
Proof.
  revert a. induction l as [|x l IH]; intros a; simpl; [by split|].
  destruct (IH (Nat.max a x)) as [Ha Hl]. split; [lia|]. constructor; [lia|done].
Qed.

Lemma sum_const {A : Type} (r : nat) (l : list A) :
  foldr Nat.add 0 (map (fun _ => r) l) = length l * r.
Proof. induction l as [|x l IH]; simpl; [done|]. rewrite IH. lia. Qed.

Lemma length_rank_pairs (ftp : FTparam) :
  length (rank_pairs ftp) =
  foldr Nat.add 0
    (map (fun kk => rdn (ranks (ftp_ft ftp)) kk * rdn (ranks (ftp_ft ftp)) (kk + 1))
         (seq 0 (ftp_dim ftp))).
Proof.
  unfold rank_pairs. cbv zeta. rewrite length_flat_map_sum. f_equal.
  apply map_ext. intros kk. rewrite length_flat_map_sum.
  rewrite (map_ext _ (fun _ => rdn (ranks (ftp_ft ftp)) kk))
    by (intros jj; by rewrite length_map, length_seq).
  rewrite sum_const, length_seq. lia.
Qed.

Lemma map_ext_seq {A : Type} (f g : nat -> A) (lo n : nat) :
  (forall i, lo <= i < lo + n -> f i = g i) -> map f (seq lo n) = map g (seq lo n).
Proof.
  intros H. apply map_ext_in. intros i Hi. apply in_seq in Hi. apply H. lia.
Qed.

(** X4. [ft_param_alloc] returns a well-formed parameterisation for every
    dimension, rank vector and initial vector: the buffer has [nparams]
    entries, [nparams] is both the sum of the per-core counts and the sum of
    the per-function counts over the functions of the train, there is one
    per-function count per function and none exceeds [max_param_uni]; the
    buffer holds zeros when no initial vector is given and the first
    [nparams] entries of the initial vector otherwise, and the train holds
    the values of the buffer. *)
Theorem ft_param_alloc_wf (d : nat) (aopts : MultiApproxOpts)
    (prm : option (list double)) (rks : list nat) :
  let ftp := ft_param_alloc d aopts prm rks in
  ftparam_wf ftp /\
  nparams ftp = foldr Nat.add 0 (nparams_per_core ftp) /\
  length (nparams_per_uni ftp) = length (rank_pairs ftp) /\
  Forall (fun n => n <= max_param_uni ftp) (nparams_per_uni ftp) /\
  params ftp =
    match prm with
    | None => replicate (nparams ftp) 0%float
    | Some p => read_n p 0 (nparams ftp)
    end /\
  function_train_get_params (ftp_ft ftp) = params ftp.
Proof.
  cbv zeta.
  set (np := multi_approx_opts_get_dim_nparams aopts).
  set (per_core := map (fun jj => rdn rks jj * rdn rks (jj + 1) * np jj) (seq 0 d)).
  set (per_uni :=
         flat_map (fun jj => replicate (rdn rks jj * rdn rks (jj + 1)) (np jj)) (seq 0 d)).
  set (n := foldr Nat.add 0 per_core).
  assert (Hshape :
    ftp_dim (ft_param_alloc d aopts prm rks) = d /\
    nparams_per_uni (ft_param_alloc d aopts prm rks) = per_uni /\
    nparams_per_core (ft_param_alloc d aopts prm rks) = per_core /\
    nparams (ft_param_alloc d aopts prm rks) = n /\
    max_param_uni (ft_param_alloc d aopts prm rks) = foldl Nat.max 0 per_uni /\
    ranks (ftp_ft (ft_param_alloc d aopts prm rks)) = take (d + 1) (rks ++ replicate (d + 1) 0)).
  { unfold ft_param_alloc. cbv zeta. by destruct prm. }
  destruct Hshape as (Hd & Hpu & Hpc & Hn & Hmx & Hrk).
  assert (Hpairs : length (rank_pairs (ft_param_alloc d aopts prm rks)) = length per_uni).
  { rewrite length_rank_pairs, Hrk, Hd. unfold per_uni. rewrite length_flat_map_sum.
    f_equal. apply map_ext_seq. intros kk Hkk. rewrite length_replicate, !rdn_take_pad.
    rewrite !decide_True by lia. done. }
  assert (Hsum : foldr Nat.add 0 per_uni = n).
  { unfold n, per_uni, per_core. rewrite sum_flat_map. f_equal.
    apply map_ext. intros jj. apply sum_replicate. }
  assert (Hprm : params (ft_param_alloc d aopts prm rks) =
                 match prm with
                 | None => replicate n 0%float
                 | Some p => read_n p 0 n
                 end).
  { unfold ft_param_alloc. cbv zeta. destruct prm as [p|]; cbn [params]; [|done].
    apply memmove_full. unfold calloc_double. by rewrite length_replicate. }
  assert (Hlen : length (params (ft_param_alloc d aopts prm rks)) = n).
  { rewrite Hprm. destruct prm; [apply length_read_n|apply length_replicate]. }
  split; [split|].
  - by rewrite Hn.
  - unfold nparams_of_funcs. rewrite Hn, Hpairs, Hpu, map_rdn_seq. done.
  - split; [by rewrite Hn, Hpc|]. split; [by rewrite Hpu|]. split.
    + rewrite Hpu, Hmx. apply foldl_max_le.
    + split; [by rewrite Hn|]. rewrite Hprm.
      unfold ft_param_alloc, function_train_get_params. cbv zeta.
      destruct prm as [p|]; cbn [ftp_ft ft_vals function_train_update_params function_train_zeros].
      * unfold calloc_double. rewrite length_replicate. fold np per_core n.
        rewrite memmove_full by (by rewrite length_replicate).
        unfold read_n at 1. apply list_eq. intros i.
        rewrite list_lookup_fmap. destruct (decide (i < n)) as [Hi|Hi].
        -- rewrite lookup_seq_lt by done. simpl. unfold rd at 1.
           rewrite nth_lookup. unfold read_n. rewrite list_lookup_fmap, lookup_seq_lt by done.
           done.
        -- rewrite lookup_seq_ge by lia. simpl. symmetry. apply lookup_ge_None.
           rewrite length_read_n. lia.
      * done.
Qed.

(** * More of the function monitor *)

(** ** Pair lists and the number of stored pairs *)

Definition cpair_isequal (a b : Cpair) : Z :=
  if String.eqb (cp_a a) (cp_a b) then
    if String.eqb (cp_b a) (cp_b b) then 1%Z else 0%Z
  else 0%Z.

(** The walk of [pair_list_len]; a list has fewer than [2^64] nodes, so the
    [size_t] counter is the number of nodes. *)
Fixpoint pair_list_len_from (current : PairList) (len : nat) : nat :=
  match current with
  | [] => len
  | _ :: next => pair_list_len_from next (S len)
  end.

Definition pair_list_len (head : PairList) : nat := pair_list_len_from head 0.

(** The walk of [pair_list_index]: [count] and [same] when the loop ends. *)
Fixpoint pair_list_index_from (cur : PairList) (pair : Cpair) (count : nat) (same : Z)
    : nat * Z :=
  match cur with
  | [] => (count, same)
  | data :: next =>
      let same' := cpair_isequal data pair in
      if (same' =? 1)%Z then (S count, same')
      else pair_list_index_from next pair (S count) same'
  end.

Definition pair_list_index (head : PairList) (pair : Cpair) : nat :=
  let '(count, same) := pair_list_index_from head pair 0 0%Z in
  if (same =? 1)%Z then count else 0.

Definition nstored_hashtable_cp (ht : HashtableCpair) : nat :=
  for_loop 0 (ht_size ht) (fun ii n => n + pair_list_len (nth ii (ht_table ht) [])) 0.

Lemma cpair_isequal_spec (a b : Cpair) : cpair_isequal a b = 1%Z <-> a = b.
Proof.
  unfold cpair_isequal. destruct a as [a1 a2], b as [b1 b2]. cbn [cp_a cp_b].
  destruct (String.eqb_spec a1 b1) as [->|H1]; [|split; [done|congruence]].
  destruct (String.eqb_spec a2 b2) as [->|H2]; [done|split; [done|congruence]].
Qed.

Lemma pair_list_len_from_length (l : PairList) (len : nat) :
  pair_list_len_from l len = len + length l.
Proof. revert len. induction l as [|x l IH]; intros len; simpl; [lia|]. rewrite IH. lia. Qed.

Lemma pair_list_len_length (l : PairList) : pair_list_len l = length l.
Proof. unfold pair_list_len. by rewrite pair_list_len_from_length. Qed.

Lemma pair_list_index_from_spec (l : PairList) (pair : Cpair) (count : nat) (same0 : Z) :
  (exists i,
     pair_list_index_from l pair count same0 = (count + S i, 1%Z) /\
     l !! i = Some pair /\ forall j, j < i -> l !! j <> Some pair) \/
  (exists same,
     pair_list_index_from l pair count same0 = (count + length l, same) /\
     (l = [] -> same = same0) /\ (l <> [] -> same <> 1%Z) /\ pair ∉ l).
Proof.
  revert count same0. induction l as [|data next IH]; intros count same0.
  - right. exists same0. cbn. split; [f_equal; lia|]. split; [done|]. split; [done|].
    apply not_elem_of_nil.
  - cbn [pair_list_index_from]. destruct (Z.eqb_spec (cpair_isequal data pair) 1) as [He|Hne].
    + left. exists 0. apply cpair_isequal_spec in He as Hd. subst data.
      split; [rewrite He; f_equal; lia|]. split; [done|]. intros j Hj. lia.
    + assert (Hd : data <> pair) by (intros Hd; by apply Hne, cpair_isequal_spec).
      destruct (IH (S count) (cpair_isequal data pair)) as [(i & Hw & Hi & Hfirst)|
                                                          (same & Hw & Hnil & Hcons & Hnot)].
      * left. exists (S i). split; [rewrite Hw; f_equal; lia|]. split; [done|].
        intros [|j] Hj; cbn; [congruence|]. apply Hfirst. lia.
      * right. exists same. split; [rewrite Hw; cbn; f_equal; lia|]. split; [done|]. split.
        -- intros _. destruct next as [|y next]; [by rewrite Hnil|by apply Hcons].
        -- intros [->|Hin]%elem_of_cons; [done|by apply Hnot].
Qed.

(** X5. [pair_list_index] returns 0 exactly when no pair of the list is
    equal to the given one (both strings compared); otherwise it returns
    one plus the position of the first equal pair, so a value between 1 and
    [pair_list_len]; the pair just pushed is at index 1. *)
Theorem pair_list_index_first_occurrence (head : PairList) (pair : Cpair) :
  pair_list_index head pair <= pair_list_len head /\
  (pair_list_index head pair = 0 <-> pair ∉ head) /\
  (forall i, pair_list_index head pair = S i ->
     head !! i = Some pair /\ forall j, j < i -> head !! j <> Some pair) /\
  pair_list_index (pair_push head pair) pair = 1 /\
  pair_list_len (pair_push head pair) = S (pair_list_len head).
Proof.
  rewrite !pair_list_len_length. unfold pair_list_index.
  split; [|split; [|split; [|split]]].
  - destruct (pair_list_index_from_spec head pair 0 0%Z)
      as [(i & -> & Hi & _)|(same & -> & _ & _ & _)].
    + cbn. apply lookup_lt_Some in Hi. lia.
    + destruct (same =? 1)%Z; cbn; lia.
  - destruct (pair_list_index_from_spec head pair 0 0%Z)
      as [(i & -> & Hi & _)|(same & -> & Hnil & Hcons & Hnot)].
    + cbn. split; [done|]. intros Hnot. exfalso. apply Hnot.
      by eapply list_elem_of_lookup_2.
    + destruct head as [|x head].
      * rewrite Hnil by done. done.
      * destruct (Z.eqb_spec same 1) as [Hs|_]; [by apply Hcons in Hs|done].
  - intros i. destruct (pair_list_index_from_spec head pair 0 0%Z)
      as [(i' & -> & Hi & Hfirst)|(same & -> & Hnil & Hcons & Hnot)].
    + cbn. intros [= <-]. done.
    + destruct head as [|x head]; [by rewrite Hnil|].
      destruct (Z.eqb_spec same 1) as [Hs|_]; [by apply Hcons in Hs|done].
  - unfold pair_push, copy_cpair, cpair_create. destruct pair as [a b].
    cbn [pair_list_index_from cp_a cp_b].
    assert (He : cpair_isequal (mkCpair a b) (mkCpair a b) = 1%Z)
      by (by apply cpair_isequal_spec).
    rewrite He. done.
  - done.
Qed.

Lemma nstored_concat (ht : HashtableCpair) :
  length (ht_table ht) = ht_size ht ->
  nstored_hashtable_cp ht = length (concat (ht_table ht)).
Proof.
  unfold nstored_hashtable_cp. destruct ht as [size table]. cbn [ht_size ht_table].
  intros <-. rewrite for_loop_fold.
  assert (H : forall (pre : list PairList) n,
            fold_left (fun n ii => n + pair_list_len (nth ii (pre ++ table) []))
              (seq (length pre) (length table)) n = n + length (concat table)).
  { induction table as [|b table IH]; intros pre n; simpl; [lia|].
    rewrite app_nth2, Nat.sub_diag by lia. cbn [nth].
    pose proof (IH (pre ++ [b]) (n + pair_list_len b)) as IH'.
    rewrite length_app, Nat.add_1_r, <- app_assoc in IH'. cbn [app] in IH'.
    rewrite IH', length_app, pair_list_len_length. lia. }
  apply (H [] 0).
Qed.

Lemma length_concat_insert (t : list PairList) (i : nat) (b b' : PairList) :
  t !! i = Some b ->
  length (concat (<[i := b']> t)) + length b = length (concat t) + length b'.
Proof.
  unfold PairList in *.
  revert i. induction t as [|x t IH]; intros [|i] Hi; cbn in *; try done.
  - injection Hi as ->. rewrite !length_app. lia.
  - rewrite !length_app. specialize (IH i Hi). unfold insert in *. lia.
Qed.

Lemma nstored_add_cpair (ht : HashtableCpair) (cp : Cpair) :
  table_wf ht ->
  nstored_hashtable_cp (fst (add_cpair ht cp)) =
  nstored_hashtable_cp ht + (if (snd (add_cpair ht cp) =? 0)%Z then 1 else 0).
Proof.
  intros Hwf. pose proof (add_cpair_wf ht cp Hwf) as [_ Hlen'].
  destruct Hwf as [Hpos Hlen]. rewrite !nstored_concat by done.
  unfold add_cpair. destruct (lookup_key ht (cp_a cp)); cbn [fst snd]; [cbn; lia|].
  cbn [ht_table Z.eqb].
  assert (Hlt : hashsimple (ht_size ht) (cp_a cp) < length (ht_table ht))
    by (rewrite Hlen; by apply hashsimple_lt).
  destruct (lookup_lt_is_Some_2 _ _ Hlt) as [b Hb].
  pose proof (length_concat_insert (ht_table ht) _ b
                (pair_push (nth (hashsimple (ht_size ht) (cp_a cp)) (ht_table ht) []) cp) Hb)
    as Hins.
  rewrite nth_lookup, Hb in Hins. cbn [default] in Hins. unfold id, pair_push in Hins.
  cbn [length] in Hins. rewrite nth_lookup, Hb. cbn [default]. unfold id, pair_push. lia.
Qed.

Section MonitorCount.
Variable serialize_darray_to_text : nat -> list double -> string.
Variable serialize_double_to_text : double -> string.
Variable deserialize_double_from_text : string -> double.

Local Notation "'eval'" :=
  (function_monitor_eval serialize_darray_to_text serialize_double_to_text
     deserialize_double_from_text) (only parsing).
Local Notation "'evals'" :=
  (function_monitor_evals serialize_darray_to_text serialize_double_to_text
     deserialize_double_from_text) (only parsing).
Local Notation "'key'" := (key_of serialize_darray_to_text) (only parsing).

(** The number of pairs in the table of the monitor. *)
Definition nstored (fm : FunctionMonitor) : nat :=
  match fm_evals fm with
  | Some ht => nstored_hashtable_cp ht
  | None => 0
  end.

Lemma eval_count (x : list double) (fm : FunctionMonitor) :
  monitor_wf fm ->
  exists v fm' c,
    eval x fm = Some (v, fm', c) /\ monitor_wf fm' /\ fm_dim fm' = fm_dim fm /\
    nstored fm' = nstored fm + length c /\
    (forall k, is_Some (stored fm' k) <-> is_Some (stored fm k) \/ k ∈ (key fm <$> c)) /\
    (c = [] \/ c = [x]).
Proof.
  intros (ht & Hev & Hwf). unfold function_monitor_eval, nstored, stored. rewrite Hev.
  destruct (lookup_key ht _) as [sval|] eqn:Hlook.
  - eexists _, _, _. split; [done|]. split; [by exists ht|]. split; [done|].
    rewrite Hev. split; [cbn; lia|]. split; [|by left].
    intros k. split; [by left|]. intros [H|H]; [done|]. by apply elem_of_nil in H.
  - eexists _, _, _. split; [done|]. cbn [fm_evals set_evals fm_dim].
    split; [eexists; split; [done|by apply add_cpair_wf]|]. split; [done|]. split.
    + rewrite nstored_add_cpair by done. unfold add_cpair.
      cbn [cpair_create cp_a]. by rewrite Hlook.
    + split; [|by right]. intros k. rewrite lookup_add_cpair by done.
      cbn [cpair_create cp_a cp_b fmap list_fmap]. unfold key_of.
      rewrite list_elem_of_singleton.
      destruct (lookup_key ht k) as [sv|]; [split; [by left|done]|].
      destruct (String.eqb_spec k (serialize_darray_to_text (fm_dim fm) x)) as [->|Hk].
      * split; [by right|done].
      * split; [by intros [? ?]|]. intros [[? ?]|?]; done.
Qed.

Lemma evals_count (xs : list (list double)) (fm : FunctionMonitor) :
  monitor_wf fm ->
  exists vs fm' cs,
    evals xs fm = Some (vs, fm', cs) /\ monitor_wf fm' /\ fm_dim fm' = fm_dim fm /\
    nstored fm' = nstored fm + length cs /\
    (forall k, is_Some (stored fm' k) <-> is_Some (stored fm k) \/ k ∈ (key fm <$> cs)) /\
    (forall x, x ∈ xs -> is_Some (stored fm' (key fm x))) /\
    (forall x, x ∈ cs -> x ∈ xs).
Proof.
  revert fm. induction xs as [|x rest IH]; intros fm Hwf.
  - exists [], fm, []. cbn. split; [done|]. split; [done|]. split; [done|].
    split; [lia|]. split; [|split; intros x Hx; by apply elem_of_nil in Hx].
    intros k. split; [by left|]. intros [H|H]; [done|]. by apply elem_of_nil in H.
  - destruct (eval_count x fm Hwf) as (v & fm1 & c1 & Hev & Hwf1 & Hd1 & Hn1 & Hst1 & Hc1).
    destruct (IH fm1 Hwf1) as (vs & fm2 & c2 & Hevs & Hwf2 & Hd2 & Hn2 & Hst2 & Hall & Hsub).
    assert (Hkey : forall y, key fm1 y = key fm y).
    { intros y. unfold key_of. by rewrite Hd1. }
    assert (Hkeys : key fm1 <$> c2 = key fm <$> c2).
    { apply list_fmap_ext. intros i y _. apply Hkey. }
    exists (v :: vs), fm2, (c1 ++ c2). cbn [function_monitor_evals].
    rewrite Hev, Hevs. split; [done|]. split; [done|]. split; [congruence|].
    split; [rewrite length_app; lia|]. split; [|split].
    + intros k. rewrite Hst2, Hst1, fmap_app, elem_of_app, Hkeys. tauto.
    + intros y [->|Hy]%elem_of_cons.
      * apply Hst2. left. apply Hst1.
        destruct Hc1 as [-> | ->].
        -- destruct (eval_spec serialize_darray_to_text serialize_double_to_text
                       deserialize_double_from_text x fm Hwf)
             as (v' & fm' & c' & Hev' & _ & Hcase).
           rewrite Hev in Hev'. injection Hev' as <- <- <-.
           destruct (stored fm (key fm x)) as [sv|] eqn:Hs; [by left|].
           by destruct Hcase as (_ & ? & _).
        -- right. cbn. by left.
      * rewrite <- Hkey. by apply Hall.
    + intros y [Hy|Hy]%elem_of_app.
      * destruct Hc1 as [-> | ->]; [by apply elem_of_nil in Hy|].
        apply list_elem_of_singleton in Hy as ->. by left.
      * right. by apply Hsub.
Qed.

(** X6. A monitor made by [function_monitor_initnd] with a table size of at
    least one starts with nothing stored, and after any sequence of
    evaluations [nstored_hashtable_cp] of its table is the number of calls
    made to the wrapped function; the points called have distinct
    serialisations, all come from the sequence, and every point of the
    sequence has the serialisation of one of them.  With a table size of
    zero the table is [NULL] and the first evaluation has no result. *)
Theorem monitor_stores_one_pair_per_call (f : list double -> double) (d tsize : nat)
    (xs : list (list double)) :
  (1 <= tsize ->
   nstored (function_monitor_initnd f d tsize) = 0 /\
   exists vs fm' cs,
     evals xs (function_monitor_initnd f d tsize) = Some (vs, fm', cs) /\
     nstored fm' = length cs /\
     NoDup (key fm' <$> cs) /\
     (forall x, x ∈ cs -> x ∈ xs) /\
     (forall x, x ∈ xs -> key fm' x ∈ (key fm' <$> cs))) /\
  (tsize = 0 -> forall x, eval x (function_monitor_initnd f d tsize) = None).
Proof.
  split.
  - intros Hsize. set (fm := function_monitor_initnd f d tsize).
    assert (Hcreate : exists ht, create_hashtable_cp tsize = Some ht).
    { unfold create_hashtable_cp. destruct (Nat.ltb_spec tsize 1); [lia|by eexists]. }
    destruct Hcreate as [ht Hht].
    destruct (create_hashtable_cp_wf tsize ht Hht) as [Hwf Hempty].
    assert (Hfm : monitor_wf fm) by (exists ht; done).
    assert (Hzero : nstored fm = 0).
    { unfold nstored, fm. cbn [function_monitor_initnd fm_evals]. rewrite Hht.
      rewrite nstored_concat by apply Hwf.
      unfold create_hashtable_cp in Hht. destruct (tsize <? 1); [done|].
      injection Hht as <-. cbn [ht_table]. clear. induction tsize; [done|]. done. }
    split; [done|].
    destruct (evals_count xs fm Hfm)
      as (vs & fm' & cs & Hevs & Hwf' & Hd & Hn & Hst & Hall & Hsub).
    destruct (evals_spec serialize_darray_to_text serialize_double_to_text
                deserialize_double_from_text xs fm Hfm)
      as (vs' & fm'' & cs' & Hevs' & _ & _ & Hnd & _).
    rewrite Hevs in Hevs'. injection Hevs' as <- <- <-.
    assert (Hkeys : key fm' <$> cs = key fm <$> cs).
    { apply list_fmap_ext. intros i y _. unfold key_of. by rewrite Hd. }
    exists vs, fm', cs. split; [done|]. split; [lia|]. rewrite Hkeys.
    split; [done|]. split; [done|].
    intros x Hx. apply Hall in Hx. unfold key_of at 1. rewrite Hd.
    apply Hst in Hx as [[sv Hsv]|Hin]; [|done].
    unfold stored, fm in Hsv. cbn [function_monitor_initnd fm_evals] in Hsv.
    rewrite Hht, Hempty in Hsv. done.
  - intros -> x. done.
Qed.

End MonitorCount.

Lemma monitor_stores_one_pair_per_call_witness :
  exists vs fm' cs,
    function_monitor_evals sample_darray_to_text sample_double_to_text
      sample_double_from_text [[1]; [1]; [0]; [1]; [0]]%float sample_monitor =
      Some (vs, fm', cs) /\
    nstored fm' = 2 /\ length cs = 2.
Proof.
  destruct (proj1 (monitor_stores_one_pair_per_call sample_darray_to_text
                     sample_double_to_text sample_double_from_text
                     (fun x => (rd x 0 + 1)%float) 1 4 [[1]; [1]; [0]; [1]; [0]]%float))
    as (_ & vs & fm' & cs & Hev & Hn & _); [lia|].
  exists vs, fm', cs. split; [exact Hev|].
  pose proof Hev as Hev'. vm_compute in Hev'. injection Hev' as <- <- <-.
  split; [exact Hn|reflexivity].
Defined.

(** * The regression handle: algorithm, objective and options *)

Definition set_ftr_type (ftr : FTRegress) (ty : REGTYPE) : FTRegress :=
  mkFTRegress ty (ftr_obj ftr) (ftr_dim ftr) (ftr_approx_opts ftr) (ftr_ftp ftr)
    (regopts ftr) (adapt ftr) (kickrank ftr) (maxrank ftr) (roundtol ftr) (kfold ftr)
    (finalize ftr) (opt_restricted ftr).

Definition set_ftr_obj (ftr : FTRegress) (ob : REGOBJ) : FTRegress :=
  mkFTRegress (ftr_type ftr) ob (ftr_dim ftr) (ftr_approx_opts ftr) (ftr_ftp ftr)
    (regopts ftr) (adapt ftr) (kickrank ftr) (maxrank ftr) (roundtol ftr) (kfold ftr)
    (finalize ftr) (opt_restricted ftr).

(** [ft_regress_set_type] stores the type before it checks it. *)
Definition ft_regress_set_type (ftr : FTRegress) (ty : REGTYPE) : outcome FTRegress :=
  match ty with
  | ALS | AIO => Returns (set_ftr_type ftr ty)
  | REGNONE => Exits "Error: Regularization type not available"
  end.

Definition ft_regress_set_obj (ftr : FTRegress) (ob : REGOBJ) : outcome FTRegress :=
  match ob with
  | FTLS | FTLS_SPARSEL2 => Returns (set_ftr_obj ftr ob)
  | REGOBJNONE => Exits "Error: Regularization type not available"
  end.

(** [ft_regress_set_alg_and_obj] frees the options of the handle, if any,
    and installs those [regress_opts_create] returns. *)
Definition ft_regress_set_alg_and_obj (ftr : FTRegress) (ty : REGTYPE) (ob : REGOBJ)
    : outcome FTRegress :=
  ftr1 ← ft_regress_set_type ftr ty;
  ftr2 ← ft_regress_set_obj ftr1 ob;
  o ← regress_opts_create (ftr_dim ftr2) ty ob;
  Returns (set_regopts ftr2 (Some o)).

Definition regress_opts_set_regularization_weight (o : RegressOpts) (weight : double)
    : RegressOpts :=
  mkRegressOpts (ropts_type o) (ropts_obj o) (ropts_dim o) (ropts_verbose o)
    weight (max_als_sweeps o) (als_active_core o) (als_conv_tol o) (restrict_rank_opt o).

Definition regress_opts_set_max_als_sweep (o : RegressOpts) (maxsweeps : nat)
    : RegressOpts :=
  mkRegressOpts (ropts_type o) (ropts_obj o) (ropts_dim o) (ropts_verbose o)
    (regularization_weight o) maxsweeps (als_active_core o) (als_conv_tol o)
    (restrict_rank_opt o).

Definition regress_opts_set_als_conv_tol (o : RegressOpts) (tol : double) : RegressOpts :=
  mkRegressOpts (ropts_type o) (ropts_obj o) (ropts_dim o) (ropts_verbose o)
    (regularization_weight o) (max_als_sweeps o) (als_active_core o) tol
    (restrict_rank_opt o).

Definition regress_opts_set_verbose (o : RegressOpts) (verbose : Z) : RegressOpts :=
  mkRegressOpts (ropts_type o) (ropts_obj o) (ropts_dim o) verbose
    (regularization_weight o) (max_als_sweeps o) (als_active_core o) (als_conv_tol o)
    (restrict_rank_opt o).

(** The setters of the handle that reach into its options assert that the
    options exist. *)
Definition with_regopts (opts : FTRegress) (f : RegressOpts -> RegressOpts)
    : outcome FTRegress :=
  match regopts opts with
  | None => Exits "assert (opts->regopts != NULL)"
  | Some o => Returns (set_regopts opts (Some (f o)))
  end.

Definition ft_regress_set_als_conv_tol (opts : FTRegress) (tol : double)
    : outcome FTRegress :=
  with_regopts opts (fun o => regress_opts_set_als_conv_tol o tol).

Definition ft_regress_set_max_als_sweep (opts : FTRegress) (maxsweeps : nat)
    : outcome FTRegress :=
  with_regopts opts (fun o => regress_opts_set_max_als_sweep o maxsweeps).

Definition ft_regress_set_verbose (opts : FTRegress) (verbose : Z) : outcome FTRegress :=
  with_regopts opts (fun o => regress_opts_set_verbose o verbose).

Definition ft_regress_set_regularization_weight (opts : FTRegress) (weight : double)
    : outcome FTRegress :=
  with_regopts opts (fun o => regress_opts_set_regularization_weight o weight).

Definition ft_regress_get_regularization_weight (opts : FTRegress) : outcome double :=
  match regopts opts with
  | None => Exits "assert (opts->regopts != NULL)"
  | Some o => Returns (regularization_weight o)
  end.

(** * Grid search over cross-validation cases *)

Inductive RDTYPE : Type := RPUINT | RPDBL | RPINT.

Definition NRPARAM : nat := 4.

Definition reg_param_names : list string :=
  ["rank"; "num_param"; "opt_maxiter"; "reg_weight"]%string.

Definition reg_param_types : list RDTYPE := [RPUINT; RPUINT; RPUINT; RPDBL].

(** The loop of [get_reg_ind] from index [ii] on; it stops at the first
    name equal to [name]. *)
Fixpoint get_reg_ind_from (names : list string) (ii : Z) (name : string) : Z :=
  match names with
  | [] => (-1)%Z
  | n :: rest =>
      if String.eqb name n then ii else get_reg_ind_from rest (ii + 1)%Z name
  end.

Definition get_reg_ind (name : string) : Z := get_reg_ind_from reg_param_names 0 name.

(** What a [void *] argument points to: eight bytes, read as a [size_t] or
    as a [double], and the [int] at their address. *)
Record RawVal : Type := mkRaw {
  raw_size_t : nat;
  raw_double : double;
  raw_int : Z
}.

Definition raw_zero : RawVal := mkRaw 0 0%float 0%Z.

(** [n] cells read from the array [src]. *)
Definition read_raw (src : list RawVal) (n : nat) : list RawVal :=
  map (fun k => nth k src raw_zero) (seq 0 n).

(** Of [ival], [uval] and [dval] only the field of the parameter's type is
    assigned; [None] is a field left as [malloc] returned it. *)
Record RegParameter : Type := mkRegParameter {
  rp_name : string;
  rp_type : RDTYPE;
  ival : option Z;
  uval : option nat;
  dval : option double
}.

Definition reg_parameter_alloc (name : string) (val : RawVal) : outcome RegParameter :=
  let reg := get_reg_ind name in
  if (reg =? -1)%Z then Exits "Regression parameter unknown" else
  match reg_param_types !! Z.to_nat reg with
  | Some RPUINT => Returns (mkRegParameter name RPUINT None (Some (raw_size_t val)) None)
  | Some RPDBL => Returns (mkRegParameter name RPDBL None None (Some (raw_double val)))
  | Some RPINT => Returns (mkRegParameter name RPINT (Some (raw_int val)) None None)
  | None => Exits "Error processing parameter"
  end.

(** [params] has [nparam] entries, [None] for [NULL]. *)
Record CVCase : Type := mkCVCase {
  cvc_nparam : nat;
  cvc_params : list (option RegParameter);
  cvc_onparam : nat
}.

Definition cv_case_alloc (nparam : nat) : CVCase :=
  mkCVCase nparam (replicate nparam None) 0.

Definition cv_case_add_param (cv : CVCase) (name : string) (val : RawVal)
    : outcome CVCase :=
  if cvc_onparam cv =? cvc_nparam cv then Exits "Adding too many parameters to cv_case"
  else
    p ← reg_parameter_alloc name val;
    Returns (mkCVCase (cvc_nparam cv) (<[cvc_onparam cv := Some p]> (cvc_params cv))
               (S (cvc_onparam cv))).

(** A [struct CVCList *]: the cases, head first. *)
Definition CVCList : Type := list CVCase.

Definition cvc_list_push (l : CVCList) (nparam : nat) : CVCList :=
  cv_case_alloc nparam :: l.

Definition cvc_list_update_case (l : CVCList) (name : string) (val : RawVal)
    : outcome CVCList :=
  match l with
  | [] => Exits "list->cv: NULL dereference"
  | cv :: next => cv' ← cv_case_add_param cv name val; Returns (cv' :: next)
  end.

(** [names] has [NRPARAM] entries and [types], [nvals] and [params] have
    [ncvparam]; [None] is an entry of [names] or [types] never written, or
    a [NULL] entry of [params].  The values of a parameter are kept as the
    cells copied from the caller's array. *)
Record CVOptGrid : Type := mkCVOptGrid {
  ncvparam : nat;
  cvg_names : list (option string);
  cvg_types : list (option RDTYPE);
  cvg_nvals : list nat;
  cvg_params : list (option (list RawVal));
  cvg_onparam : nat;
  cvg_verbose : Z
}.

Definition cv_opt_grid_init (n : nat) : CVOptGrid :=
  mkCVOptGrid n (replicate NRPARAM None) (replicate n None) (calloc_size_t n)
    (replicate n None) 0 0.

Definition cv_opt_grid_set_verbose (cv : CVOptGrid) (verbose : Z) : CVOptGrid :=
  mkCVOptGrid (ncvparam cv) (cvg_names cv) (cvg_types cv) (cvg_nvals cv) (cvg_params cv)
    (cvg_onparam cv) verbose.

(** The entry [i] of an array of the grid, when it is inside the array and
    was written. *)
Definition slot {A : Type} (l : list (option A)) (i : nat) (what : string) : outcome A :=
  match l !! i with
  | Some (Some a) => Returns a
  | _ => Exits what
  end.

(** The loop of [cv_name_exists] from index [ii] on, [n] names to go. *)
Fixpoint cv_name_exists_from (cvg : CVOptGrid) (ii n : nat) (name : string) : outcome Z :=
  match n with
  | O => Returns (-1)%Z
  | S n' =>
      s ← slot (cvg_names cvg) ii "cvg->names[ii]";
      if String.eqb s name then Returns (Z.of_nat ii)
      else cv_name_exists_from cvg (S ii) n' name
  end.

Definition cv_name_exists (cvg : CVOptGrid) (name : string) : outcome Z :=
  cv_name_exists_from cvg 0 (cvg_onparam cvg) name.

(** [cv_opt_grid_add_param] reads [reg_param_types[ind]] before any check;
    for an unknown name [ind] is [-1].  Both [size_t] and [double] values
    are copied as [nvals] cells of eight bytes. *)
Definition cv_opt_grid_add_param (cv : CVOptGrid) (name : string) (nvals : nat)
    (vals : list RawVal) : outcome CVOptGrid :=
  let ind := get_reg_ind name in
  if (ind <? 0)%Z then Exits "reg_param_types[ind]: index outside the array" else
  match reg_param_types !! Z.to_nat ind with
  | None => Exits "reg_param_types[ind]: index outside the array"
  | Some type =>
      if cvg_onparam cv =? ncvparam cv
      then Exits "Cannot add another parameter to cross validation"
      else if NRPARAM <=? cvg_onparam cv
      then Exits "cv->names[cv->onparam]: index outside the array"
      else
        let stored :=
          mkCVOptGrid (ncvparam cv)
            (<[cvg_onparam cv := Some name]> (cvg_names cv))
            (<[cvg_onparam cv := Some type]> (cvg_types cv))
            (<[cvg_onparam cv := nvals]> (cvg_nvals cv))
            (<[cvg_onparam cv := Some (read_raw vals nvals)]> (cvg_params cv))
            (S (cvg_onparam cv)) (cvg_verbose cv) in
        match type with
        | RPUINT => Returns stored
        | RPDBL => Returns stored
        | RPINT =>
            if nvals =? 0 then Returns stored
            else Exits "memmove of nvals * sizeof(double) bytes into calloc_int(nvals)"
        end
  end.

(** [update_based_type]: the address of element [ind] of the array, which
    [reg_parameter_alloc] reads by the type of the name. *)
Definition update_based_type (cvlist : CVCList) (type : RDTYPE) (name : string)
    (param_list : list RawVal) (ind : nat) : outcome CVCList :=
  match type with
  | RPUINT => cvc_list_update_case cvlist name (nth ind param_list raw_zero)
  | RPDBL => cvc_list_update_case cvlist name (nth ind param_list raw_zero)
  | RPINT => Exits "((int *)param_list) + ind: not an address of a cell"
  end.

(** [update_based_type(cvlist, cv->types[i], cv->names[i], cv->params[i], ind)]. *)
Definition grid_update (cv : CVOptGrid) (i ind : nat) (cvlist : CVCList)
    : outcome CVCList :=
  type ← slot (cvg_types cv) i "cv->types[i]";
  name ← slot (cvg_names cv) i "cv->names[i]";
  param_list ← slot (cvg_params cv) i "cv->params[i]";
  update_based_type cvlist type name param_list ind.

Definition cv_opt_grid_setup_cases (cv : CVOptGrid) : outcome CVCList :=
  if cvg_onparam cv =? 1 then
    for_loop_m 0 (rdn (cvg_nvals cv) 0) (fun ii cvlist =>
      grid_update cv 0 ii (cvc_list_push cvlist 1)) []
  else if cvg_onparam cv =? 2 then
    for_loop_m 0 (rdn (cvg_nvals cv) 0) (fun ii cvlist =>
      for_loop_m 0 (rdn (cvg_nvals cv) 1) (fun jj cvlist' =>
        l0 ← grid_update cv 0 ii (cvc_list_push cvlist' 2);
        grid_update cv 1 jj l0) cvlist) []
  else if cvg_onparam cv =? 3 then
    for_loop_m 0 (rdn (cvg_nvals cv) 0) (fun ii cvlist =>
      for_loop_m 0 (rdn (cvg_nvals cv) 1) (fun jj cvlist' =>
        for_loop_m 0 (rdn (cvg_nvals cv) 2) (fun kk cvlist'' =>
          l0 ← grid_update cv 0 ii (cvc_list_push cvlist'' 3);
          l1 ← grid_update cv 1 jj l0;
          grid_update cv 2 kk l1) cvlist') cvlist) []
  else Returns [].

(** The values a case sets, as the loop of [cv_case_process] leaves them:
    for each name the value of its last occurrence among the first
    [onparam] parameters. *)
Record case_vals : Type := mkCaseVals {
  up_rank : Z;
  cv_rank : nat;
  up_num_param : Z;
  cv_num_param : nat;
  up_reg_weight : Z;
  nrw : double;
  up_maxiter : Z;
  cv_maxiter : nat
}.

Definition field {A : Type} (o : option A) (what : string) : outcome A :=
  match o with
  | Some a => Returns a
  | None => Exits what
  end.

Definition cv_case_read (cv : CVCase) (ii : nat) (s : case_vals) : outcome case_vals :=
  p ← slot (cvc_params cv) ii "cv->params[ii]";
  if String.eqb (rp_name p) "rank" then
    u ← field (uval p) "cv->params[ii]->uval: never assigned";
    Returns (mkCaseVals 1 u (up_num_param s) (cv_num_param s) (up_reg_weight s) (nrw s)
               (up_maxiter s) (cv_maxiter s))
  else if String.eqb (rp_name p) "num_param" then
    u ← field (uval p) "cv->params[ii]->uval: never assigned";
    Returns (mkCaseVals (up_rank s) (cv_rank s) 1 u (up_reg_weight s) (nrw s)
               (up_maxiter s) (cv_maxiter s))
  else if String.eqb (rp_name p) "reg_weight" then
    d ← field (dval p) "cv->params[ii]->dval: never assigned";
    Returns (mkCaseVals (up_rank s) (cv_rank s) (up_num_param s) (cv_num_param s) 1 d
               (up_maxiter s) (cv_maxiter s))
  else if String.eqb (rp_name p) "opt_maxiter" then
    u ← field (uval p) "cv->params[ii]->uval: never assigned";
    Returns (mkCaseVals (up_rank s) (cv_rank s) (up_num_param s) (cv_num_param s)
               (up_reg_weight s) (nrw s) 1 u)
  else Returns s.

(** [memmove(dst, src, n * sizeof(size_t))]. *)
Definition memmove_size_t (dst src : list nat) (n : nat) : list nat :=
  list_inserts 0 (map (rdn src) (seq 0 n)) dst.

(** The ranks of a case that sets the rank: one at both ends, [rank]
    between. *)
Definition case_ranks (d rank : nat) (rks : list nat) : list nat :=
  for_loop 1 (d - 1) (fun ii r => <[ii := rank]> r) (<[d := 1]> (<[0 := 1]> rks)).

Section CVGrid.
Context `{ops : Collaborators}.

(** The optimizer's iteration limit and the per-dimension parameter count of
    the approximation options are set by external routines. *)
Variable c3opt_set_maxiter : c3Opt -> nat -> c3Opt.
Variable multi_approx_opts_set_dim_nparams : MultiApproxOpts -> nat -> nat -> MultiApproxOpts.

Definition cv_case_process (cv : CVCase) (ftr : FTRegress) (optimizer : c3Opt)
    : outcome (FTRegress * c3Opt) :=
  s ← for_loop_m 0 (cvc_onparam cv) (cv_case_read cv)
        (mkCaseVals 0 0 0 0 0 0%float 0 0);
  let ftp := ftr_ftp ftr in
  let old_ranks := function_train_get_ranks (ftp_ft ftp) in
  let ranks0 := memmove_size_t (calloc_size_t (ftp_dim ftp + 1)) old_ranks (ftp_dim ftp + 1) in
  let ranks1 :=
    if (up_rank s =? 1)%Z then case_ranks (ftp_dim ftp) (cv_rank s) ranks0 else ranks0 in
  let aopts :=
    if (up_num_param s =? 1)%Z then
      for_loop 0 (ftp_dim ftp)
        (fun ii a => multi_approx_opts_set_dim_nparams a ii (cv_num_param s))
        (approx_opts ftp)
    else approx_opts ftp in
  let ftr1 := ft_regress_reset_param ftr aopts ranks1 in
  ftr2 ←
    (if (up_reg_weight s =? 1)%Z then ft_regress_set_regularization_weight ftr1 (nrw s)
     else Returns ftr1);
  let optimizer' :=
    if (up_maxiter s =? 1)%Z then c3opt_set_maxiter optimizer (cv_maxiter s)
    else optimizer in
  Returns (ftr2, optimizer').

(** Loop state of [cross_validate_grid_opt]; [gs_errs] records the errors
    [cross_validate_run] returned, in the order of the list. *)
Record grid_state : Type := mkGridState {
  gs_ftr : FTRegress;
  gs_optimizer : c3Opt;
  gs_iter : nat;
  gs_bestiter : nat;
  gs_besterr : double;
  gs_errs : list double
}.

Definition DBL_MAX : double := 0x1.fffffffffffffp+1023%float.

Section GridRun.
Variable regress_run :
  FTRegress -> c3Opt -> nat -> list double -> list double ->
  outcome (FTRegress * c3Opt * FunctionTrain).

Definition grid_step (cv : CrossValidate) (c : CVCase) (s : grid_state)
    : outcome grid_state :=
  '(ftr1, optimizer1) ← cv_case_process c (gs_ftr s) (gs_optimizer s);
  '(err, ftr2, optimizer2, _) ← cross_validate_run regress_run cv ftr1 optimizer1;
  if (err <? gs_besterr s * 0.999999999)%float then
    Returns (mkGridState ftr2 optimizer2 (S (gs_iter s)) (gs_iter s) err (gs_errs s ++ [err]))
  else
    Returns (mkGridState ftr2 optimizer2 (S (gs_iter s)) (gs_bestiter s) (gs_besterr s)
               (gs_errs s ++ [err])).

(** The walk [while (temp != NULL)] along the list of cases. *)
Fixpoint grid_walk (cv : CrossValidate) (temp : CVCList) (s : grid_state)
    : outcome grid_state :=
  match temp with
  | [] => Returns s
  | c :: next => s' ← grid_step cv c s; grid_walk cv next s'
  end.

(** [cross_validate_grid_opt]; with an empty list of cases the last call
    dereferences [NULL]. *)
Definition cross_validate_grid_opt (cv : CrossValidate) (cvgrid : CVOptGrid)
    (ftr : FTRegress) (optimizer : c3Opt) : outcome (FTRegress * c3Opt * grid_state) :=
  cvlist ← cv_opt_grid_setup_cases cvgrid;
  s ← grid_walk cv cvlist (mkGridState ftr optimizer 0 0 DBL_MAX []);
  match drop (gs_bestiter s) cvlist with
  | [] => Exits "temp->cv: NULL dereference"
  | c :: _ =>
      '(ftr', optimizer') ← cv_case_process c (gs_ftr s) (gs_optimizer s);
      Returns (ftr', optimizer', s)
  end.

End GridRun.
End CVGrid.

(** ** The cases of a grid *)

(** The type [reg_param_types] gives a known name, and the parameter
    [reg_parameter_alloc] makes of a known name and a cell. *)
Definition type_of_name (name : string) : RDTYPE :=
  if String.eqb name "reg_weight" then RPDBL else RPUINT.

Definition reg_parameter_of (name : string) (val : RawVal) : RegParameter :=
  match type_of_name name with
  | RPDBL => mkRegParameter name RPDBL None None (Some (raw_double val))
  | _ => mkRegParameter name RPUINT None (Some (raw_size_t val)) None
  end.

(** All choices of one element per list, the first list varying slowest. *)
Fixpoint cartesian {A : Type} (ls : list (list A)) : list (list A) :=
  match ls with
  | [] => [[]]
  | l :: rest => flat_map (fun x => map (cons x) (cartesian rest)) l
  end.

(** The case that holds the parameters [names] with the values [vs]. *)
Definition case_of (names : list string) (vs : list RawVal) : CVCase :=
  mkCVCase (length names) (Some <$> zip_with reg_parameter_of names vs) (length names).

(** The grid after [cv_opt_grid_init n] and one [cv_opt_grid_add_param] per
    entry of [adds], each with all the values of its array. *)
Definition grid_of (n : nat) (adds : list (string * list RawVal)) : outcome CVOptGrid :=
  fold_left (fun g a => cv ← g; cv_opt_grid_add_param cv (fst a) (length (snd a)) (snd a))
    adds (Returns (cv_opt_grid_init n)).

Lemma known_name_cases (name : string) :
  name ∈ reg_param_names ->
  name = "rank"%string \/ name = "num_param"%string \/ name = "opt_maxiter"%string \/
  name = "reg_weight"%string.
Proof.
  unfold reg_param_names. rewrite !elem_of_cons, elem_of_nil. tauto.
Qed.

Lemma get_reg_ind_known (name : string) :
  name ∈ reg_param_names ->
  (0 <= get_reg_ind name)%Z /\
  reg_param_names !! Z.to_nat (get_reg_ind name) = Some name /\
  reg_param_types !! Z.to_nat (get_reg_ind name) = Some (type_of_name name).
Proof.
  intros H. apply known_name_cases in H as [-> | [-> | [-> | ->]]]; vm_compute; done.
Qed.

Lemma get_reg_ind_from_unknown (names : list string) (ii : Z) (name : string) :
  name ∉ names -> get_reg_ind_from names ii name = (-1)%Z.
Proof.
  revert ii. induction names as [|n names IH]; intros ii Hn; simpl; [done|].
  apply not_elem_of_cons in Hn as [Hne Hn].
  destruct (String.eqb_spec name n); [done|]. by apply IH.
Qed.

Lemma reg_parameter_alloc_known (name : string) (val : RawVal) :
  name ∈ reg_param_names ->
  reg_parameter_alloc name val = Returns (reg_parameter_of name val).
Proof.
  intros H. apply known_name_cases in H as [-> | [-> | [-> | ->]]]; done.
Qed.

Lemma add_param_known (cv : CVOptGrid) (name : string) (nvals : nat) (vals : list RawVal) :
  name ∈ reg_param_names ->
  cvg_onparam cv < ncvparam cv -> cvg_onparam cv < NRPARAM ->
  cv_opt_grid_add_param cv name nvals vals =
  Returns (mkCVOptGrid (ncvparam cv)
             (<[cvg_onparam cv := Some name]> (cvg_names cv))
             (<[cvg_onparam cv := Some (type_of_name name)]> (cvg_types cv))
             (<[cvg_onparam cv := nvals]> (cvg_nvals cv))
             (<[cvg_onparam cv := Some (read_raw vals nvals)]> (cvg_params cv))
             (S (cvg_onparam cv)) (cvg_verbose cv)).
Proof.
  intros Hname Hn Hnr. unfold cv_opt_grid_add_param. cbv zeta.
  destruct (get_reg_ind_known name Hname) as (Hpos & _ & Hty).
  destruct (Z.ltb_spec (get_reg_ind name) 0) as [|_]; [lia|]. rewrite Hty.
  destruct (Nat.eqb_spec (cvg_onparam cv) (ncvparam cv)) as [|_]; [lia|].
  destruct (Nat.leb_spec NRPARAM (cvg_onparam cv)) as [|_]; [lia|].
  unfold type_of_name. by destruct (String.eqb name "reg_weight").
Qed.

Lemma for_loop_m_prepend {A : Type} (lo n : nat) (body : nat -> list A -> outcome (list A))
    (g : nat -> list A) :
  (forall ii l, lo <= ii < lo + n -> body ii l = Returns (g ii ++ l)) ->
  forall l, for_loop_m lo n body l = Returns (concat (rev (map g (seq lo n))) ++ l).
Proof.
  revert lo. induction n as [|n IH]; intros lo Hbody l; simpl; [done|].
  rewrite Hbody by lia. cbn. rewrite IH by (intros; apply Hbody; lia).
  rewrite concat_app. cbn. rewrite app_nil_r, <- app_assoc. done.
Qed.

Lemma concat_rev_singletons {A B : Type} (f : A -> B) (l : list A) :
  concat (rev (map (fun x => [f x]) l)) = rev (map f l).
Proof.
  induction l as [|x l IH]; simpl; [done|]. rewrite concat_app, IH. cbn. done.
Qed.

Lemma concat_rev_revs {A B : Type} (g : A -> list B) (l : list A) :
  concat (rev (map (fun x => rev (g x)) l)) = rev (flat_map g l).
Proof.
  induction l as [|x l IH]; simpl; [done|].
  rewrite concat_app, IH, rev_app_distr. cbn. by rewrite app_nil_r.
Qed.

Lemma nth_read_raw (v : list RawVal) (n k : nat) :
  k < n -> nth k (read_raw v n) raw_zero = nth k v raw_zero.
Proof.
  intros Hk. unfold read_raw. rewrite nth_lookup, list_lookup_fmap, lookup_seq_lt by done.
  done.
Qed.

Lemma map_seq_nth {A B : Type} (f : A -> B) (v : list A) (d : A) :
  map (fun k => f (nth k v d)) (seq 0 (length v)) = map f v.
Proof.
  apply list_eq. intros i. rewrite !list_lookup_fmap.
  destruct (decide (i < length v)) as [Hi|Hi].
  - rewrite lookup_seq_lt by done. cbn. rewrite nth_lookup.
    destruct (lookup_lt_is_Some_2 v i Hi) as [x ->]. done.
  - rewrite lookup_seq_ge by lia. rewrite (proj2 (lookup_ge_None v i)) by lia. done.
Qed.

Lemma flat_map_seq_nth {A B : Type} (f : A -> list B) (v : list A) (d : A) :
  flat_map (fun k => f (nth k v d)) (seq 0 (length v)) = flat_map f v.
Proof.
  rewrite !flat_map_concat_map. f_equal. apply map_seq_nth.
Qed.

Lemma map_flat_map {A B C : Type} (f : B -> C) (g : A -> list B) (l : list A) :
  map f (flat_map g l) = flat_map (fun x => map f (g x)) l.
Proof. induction l as [|x l IH]; simpl; [done|]. by rewrite map_app, IH. Qed.

Lemma flat_map_ext_seq {A : Type} (f g : nat -> list A) (lo n : nat) :
  (forall i, lo <= i < lo + n -> f i = g i) -> flat_map f (seq lo n) = flat_map g (seq lo n).
Proof.
  intros H. rewrite !flat_map_concat_map. f_equal. by apply map_ext_seq.
Qed.

Lemma length_cartesian {A : Type} (ls : list (list A)) :
  length (cartesian ls) = foldr Nat.mul 1 (map length ls).
Proof.
  induction ls as [|l ls IH]; simpl; [done|].
  rewrite length_flat_map_sum.
  rewrite (map_ext _ (fun _ => length (cartesian ls))) by (intros; apply length_map).
  rewrite sum_const, IH. done.
Qed.

(** One update of the case at the head of the list, for a parameter the
    grid holds at slot [i]. *)
Lemma grid_update_known (cv : CVOptGrid) (i ind : nat) (name : string) (v : list RawVal)
    (c : CVCase) (l : CVCList) :
  name ∈ reg_param_names ->
  cvg_types cv !! i = Some (Some (type_of_name name)) ->
  cvg_names cv !! i = Some (Some name) ->
  cvg_params cv !! i = Some (Some v) ->
  cvc_onparam c < cvc_nparam c ->
  grid_update cv i ind (c :: l) =
  Returns (mkCVCase (cvc_nparam c)
             (<[cvc_onparam c := Some (reg_parameter_of name (nth ind v raw_zero))]>
                (cvc_params c))
             (S (cvc_onparam c)) :: l).
Proof.
  intros Hname Hty Hnm Hpr Hlt. unfold grid_update, slot. rewrite Hty, Hnm, Hpr. cbn.
  assert (Hup : cvc_list_update_case (c :: l) name (nth ind v raw_zero) =
                Returns (mkCVCase (cvc_nparam c)
                  (<[cvc_onparam c := Some (reg_parameter_of name (nth ind v raw_zero))]>
                     (cvc_params c))
                  (S (cvc_onparam c)) :: l)).
  { unfold cvc_list_update_case, cv_case_add_param.
    destruct (Nat.eqb_spec (cvc_onparam c) (cvc_nparam c)) as [|_]; [lia|].
    rewrite reg_parameter_alloc_known by done. done. }
  unfold update_based_type, type_of_name in *.
  by destruct (String.eqb name "reg_weight").
Qed.

Lemma cartesian_1 {A : Type} (v : list A) : cartesian [v] = map (fun x => [x]) v.
Proof. cbn. induction v as [|x v IH]; cbn; [done|]. by rewrite IH. Qed.

Lemma cartesian_cons {A : Type} (v : list A) (ls : list (list A)) :
  cartesian (v :: ls) = flat_map (fun x => map (cons x) (cartesian ls)) v.
Proof. done. Qed.

Lemma loops_2 {A B : Type} (f : A -> A -> B) (v0 v1 : list A) (d : A) :
  flat_map (fun ii => map (fun jj => f (nth ii v0 d) (nth jj v1 d)) (seq 0 (length v1)))
    (seq 0 (length v0)) =
  flat_map (fun a => map (fun b => f a b) v1) v0.
Proof.
  etrans;
    [apply (flat_map_seq_nth
              (fun a => map (fun jj => f a (nth jj v1 d)) (seq 0 (length v1))) v0 d)|].
  apply flat_map_ext. intros a. apply map_seq_nth.
Qed.

Lemma loops_3 {A B : Type} (f : A -> A -> A -> B) (v0 v1 v2 : list A) (d : A) :
  flat_map (fun ii =>
    flat_map (fun jj =>
      map (fun kk => f (nth ii v0 d) (nth jj v1 d) (nth kk v2 d)) (seq 0 (length v2)))
      (seq 0 (length v1)))
    (seq 0 (length v0)) =
  flat_map (fun a => flat_map (fun b => map (fun c => f a b c) v2) v1) v0.
Proof.
  etrans;
    [apply (flat_map_seq_nth
              (fun a => flat_map (fun jj =>
                 map (fun kk => f a (nth jj v1 d) (nth kk v2 d)) (seq 0 (length v2)))
                 (seq 0 (length v1))) v0 d)|].
  apply flat_map_ext. intros a. apply (loops_2 (f a)).
Qed.

Ltac grid_add :=
  rewrite add_param_known by (cbn; first [done | lia | unfold NRPARAM; lia]);
  cbn [mbind outcome_bind].

Ltac grid_eval :=
  cbn [cvg_onparam cvg_nvals cvg_types cvg_names cvg_params ncvparam cvg_verbose
       cv_opt_grid_init Nat.eqb calloc_size_t replicate rdn nth NRPARAM
       insert list_insert].

(** X7. For a grid made by [cv_opt_grid_init] and one
    [cv_opt_grid_add_param] per parameter, with known names and no more
    parameters than the grid and the name table have room for:
    [cv_opt_grid_setup_cases] returns, for one, two or three parameters, one
    case per combination of values, each holding the parameters in the
    order they were added, and the list is in the reverse of the order in
    which the loops make the combinations (first parameter slowest), so
    its length is the product of the numbers of values; for no parameter
    or four it returns the empty list. *)
Theorem setup_cases_cartesian (n : nat) (adds : list (string * list RawVal)) :
  Forall (fun a => fst a ∈ reg_param_names) adds ->
  length adds <= n -> length adds <= NRPARAM ->
  exists cv cases,
    grid_of n adds = Returns cv /\
    cv_opt_grid_setup_cases cv = Returns cases /\
    cases =
      (if decide (1 <= length adds <= 3)
       then rev (map (case_of (map fst adds)) (cartesian (map snd adds)))
       else []) /\
    (1 <= length adds <= 3 ->
     length cases = foldr Nat.mul 1 (map (fun a => length (snd a)) adds)).
Proof.
  intros Hnames Hn Hnr.
  assert (Hlen : forall cases : CVCList,
            cases =
              (if decide (1 <= length adds <= 3)
               then rev (map (case_of (map fst adds)) (cartesian (map snd adds)))
               else []) ->
            1 <= length adds <= 3 ->
            length cases = foldr Nat.mul 1 (map (fun a => length (snd a)) adds)).
  { intros cases -> Hr. rewrite decide_True by done.
    rewrite length_rev, length_map, length_cartesian, map_map. done. }
  unfold NRPARAM in Hnr.
  destruct adds as [|[n0 v0] [|[n1 v1] [|[n2 v2] [|[n3 v3] [|a adds]]]]];
    cbn [length] in Hn, Hnr; [| | | | | lia].
  - eexists _, _. split; [done|]. split; [done|]. split; [done|]. cbn. lia.
  - apply Forall_cons in Hnames as [H0 _]. cbn [fst] in H0.
    destruct n as [|n]; [lia|].
    unfold grid_of. cbn [fold_left fst snd mbind outcome_bind]. grid_add.
    eexists _, _. split; [done|].
    unfold cv_opt_grid_setup_cases. grid_eval.
    split; [|split; [reflexivity|apply Hlen; reflexivity]].
    rewrite (for_loop_m_prepend 0 (length v0) _
               (fun ii => [case_of [n0] [nth ii v0 raw_zero]])).
    + rewrite app_nil_r, concat_rev_singletons. cbn [length decide].
      rewrite decide_True by (cbn; lia). do 2 f_equal.
      cbn [map fst snd]. rewrite cartesian_1, map_map.
      apply (map_seq_nth (fun x => case_of [n0] [x])).
    + intros ii l Hii. unfold cvc_list_push, cv_case_alloc.
      erewrite grid_update_known; [|exact H0|done|done|done|cbn; lia].
      cbn. by rewrite nth_read_raw by lia.
  - apply Forall_cons in Hnames as [H0 Hnames]. apply Forall_cons in Hnames as [H1 _].
    cbn [fst] in H0, H1. destruct n as [|[|n]]; [lia|lia|].
    unfold grid_of. cbn [fold_left fst snd mbind outcome_bind]. grid_add. grid_eval.
    grid_add. grid_eval.
    eexists _, _. split; [done|].
    unfold cv_opt_grid_setup_cases. grid_eval.
    split; [|split; [reflexivity|apply Hlen; reflexivity]].
    rewrite (for_loop_m_prepend 0 (length v0) _
               (fun ii => rev (map (fun jj =>
                   case_of [n0; n1] [nth ii v0 raw_zero; nth jj v1 raw_zero])
                   (seq 0 (length v1))))).
    + rewrite app_nil_r, concat_rev_revs. cbn [length decide].
      rewrite decide_True by (cbn; lia). do 2 f_equal.
      cbn [map fst snd]. rewrite (cartesian_cons v0), (cartesian_1 v1), map_flat_map.
      etrans; [apply (loops_2 (fun a b => case_of [n0; n1] [a; b]))|].
      apply flat_map_ext. intros a. by rewrite !map_map.
    + intros ii l Hii.
      rewrite (for_loop_m_prepend 0 (length v1) _
                 (fun jj => [case_of [n0; n1] [nth ii v0 raw_zero; nth jj v1 raw_zero]])).
      * by rewrite concat_rev_singletons.
      * intros jj l' Hjj. unfold cvc_list_push, cv_case_alloc.
        erewrite grid_update_known; [|exact H0|done|done|done|cbn; lia].
        cbn [mbind outcome_bind cvc_nparam cvc_onparam cvc_params].
        erewrite grid_update_known; [|exact H1|done|done|done|cbn; lia].
        cbn. by rewrite !nth_read_raw by lia.
  - apply Forall_cons in Hnames as [H0 Hnames]. apply Forall_cons in Hnames as [H1 Hnames].
    apply Forall_cons in Hnames as [H2 _].
    cbn [fst] in H0, H1, H2. destruct n as [|[|[|n]]]; [lia|lia|lia|].
    unfold grid_of. cbn [fold_left fst snd mbind outcome_bind]. grid_add. grid_eval.
    grid_add. grid_eval. grid_add. grid_eval.
    eexists _, _. split; [done|].
    unfold cv_opt_grid_setup_cases. grid_eval.
    split; [|split; [reflexivity|apply Hlen; reflexivity]].
    rewrite (for_loop_m_prepend 0 (length v0) _
               (fun ii => rev (flat_map (fun jj => map (fun kk =>
                   case_of [n0; n1; n2]
                     [nth ii v0 raw_zero; nth jj v1 raw_zero; nth kk v2 raw_zero])
                   (seq 0 (length v2))) (seq 0 (length v1))))).
    + rewrite app_nil_r, concat_rev_revs. cbn [length decide].
      rewrite decide_True by (cbn; lia). do 2 f_equal.
      cbn [map fst snd]. rewrite (cartesian_cons v0), (cartesian_cons v1), (cartesian_1 v2), map_flat_map.
      etrans; [apply (loops_3 (fun a b c => case_of [n0; n1; n2] [a; b; c]))|].
      apply flat_map_ext. intros a. rewrite map_map, map_flat_map, flat_map_concat_map.
      rewrite (flat_map_concat_map _ v1). f_equal. apply map_ext. intros b.
      by rewrite !map_map.
    + intros ii l Hii.
      rewrite (for_loop_m_prepend 0 (length v1) _
                 (fun jj => rev (map (fun kk =>
                    case_of [n0; n1; n2]
                      [nth ii v0 raw_zero; nth jj v1 raw_zero; nth kk v2 raw_zero])
                    (seq 0 (length v2))))).
      * by rewrite concat_rev_revs.
      * intros jj l' Hjj.
        rewrite (for_loop_m_prepend 0 (length v2) _
                   (fun kk => [case_of [n0; n1; n2]
                      [nth ii v0 raw_zero; nth jj v1 raw_zero; nth kk v2 raw_zero]])).
        -- by rewrite concat_rev_singletons.
        -- intros kk l'' Hkk. unfold cvc_list_push, cv_case_alloc.
           erewrite grid_update_known; [|exact H0|done|done|done|cbn; lia].
           cbn [mbind outcome_bind cvc_nparam cvc_onparam cvc_params].
           erewrite grid_update_known; [|exact H1|done|done|done|cbn; lia].
           cbn [mbind outcome_bind cvc_nparam cvc_onparam cvc_params].
           erewrite grid_update_known; [|exact H2|done|done|done|cbn; lia].
           cbn. by rewrite !nth_read_raw by lia.
  - apply Forall_cons in Hnames as [H0 Hnames]. apply Forall_cons in Hnames as [H1 Hnames].
    apply Forall_cons in Hnames as [H2 Hnames]. apply Forall_cons in Hnames as [H3 _].
    cbn [fst] in H0, H1, H2, H3. destruct n as [|[|[|[|n]]]]; [lia|lia|lia|lia|].
    unfold grid_of. cbn [fold_left fst snd mbind outcome_bind]. grid_add. grid_eval.
    grid_add. grid_eval. grid_add. grid_eval. grid_add. grid_eval.
    eexists _, _. split; [done|]. split; [done|]. split; [done|]. cbn. lia.
Qed.

(** ** Applying a case to the handle *)

(** The value of the last parameter called [name] in a case that holds
    [names] with the values [vs]. *)
Fixpoint case_value (name : string) (names : list string) (vs : list RawVal)
    : option RawVal :=
  match names, vs with
  | n :: names', v :: vs' =>
      match case_value name names' vs' with
      | Some w => Some w
      | None => if String.eqb n name then Some v else None
      end
  | _, _ => None
  end.

(** What the loop of [cv_case_process] has read after the parameters
    [names] with the values [vs], started from [s]. *)
Definition settings_of (names : list string) (vs : list RawVal) (s : case_vals)
    : case_vals :=
  let flag name z := if case_value name names vs is Some _ then 1%Z else z in
  let size name u := from_option raw_size_t u (case_value name names vs) in
  mkCaseVals (flag "rank"%string (up_rank s)) (size "rank"%string (cv_rank s))
    (flag "num_param"%string (up_num_param s)) (size "num_param"%string (cv_num_param s))
    (flag "reg_weight"%string (up_reg_weight s))
    (from_option raw_double (nrw s) (case_value "reg_weight" names vs))
    (flag "opt_maxiter"%string (up_maxiter s)) (size "opt_maxiter"%string (cv_maxiter s)).

Lemma cv_case_read_known (cv : CVCase) (ii : nat) (name : string) (v : RawVal)
    (s : case_vals) :
  name ∈ reg_param_names ->
  cvc_params cv !! ii = Some (Some (reg_parameter_of name v)) ->
  cv_case_read cv ii s = Returns (settings_of [name] [v] s).
Proof.
  intros Hname Hp. unfold cv_case_read, slot. rewrite Hp. cbn [mbind outcome_bind].
  destruct s. apply known_name_cases in Hname as [-> | [-> | [-> | ->]]]; done.
Qed.

Lemma settings_of_cons (n : string) (v : RawVal) (names : list string) (vs : list RawVal)
    (s : case_vals) :
  settings_of (n :: names) (v :: vs) s = settings_of names vs (settings_of [n] [v] s).
Proof.
  unfold settings_of. cbn [case_value up_rank cv_rank up_num_param cv_num_param
    up_reg_weight nrw up_maxiter cv_maxiter].
  f_equal;
    match goal with
    | |- context [case_value ?x names vs] =>
        destruct (case_value x names vs); [done|]; cbn;
        by destruct (String.eqb n x)
    end.
Qed.

Lemma settings_of_nil (s : case_vals) : settings_of [] [] s = s.
Proof. by destruct s. Qed.

Lemma case_read_loop (cv : CVCase) (names : list string) (vs : list RawVal) :
  Forall (fun n => n ∈ reg_param_names) names ->
  length vs = length names ->
  forall lo s,
    (forall k n v, names !! k = Some n -> vs !! k = Some v ->
       cvc_params cv !! (lo + k) = Some (Some (reg_parameter_of n v))) ->
    for_loop_m lo (length names) (cv_case_read cv) s = Returns (settings_of names vs s).
Proof.
  intros Hnames. revert vs.
  induction Hnames as [|n names Hn Hnames IH]; intros vs Hlen lo s Hps.
  - destruct vs; [|done]. cbn. by rewrite settings_of_nil.
  - destruct vs as [|v vs]; [done|]. cbn [length for_loop_m].
    rewrite (cv_case_read_known cv lo n v) by
      (first [done | specialize (Hps 0 n v eq_refl eq_refl); by rewrite Nat.add_0_r in Hps]).
    cbn [mbind outcome_bind]. rewrite (settings_of_cons n v names vs). apply IH.
    + cbn in Hlen. lia.
    + intros k n' v' Hk Hv. replace (S lo + k) with (lo + S k) by lia. by apply Hps.
Qed.

Lemma rdn_insert_at (l : list nat) (i j x : nat) :
  rdn (<[i := x]> l) j = if decide (j = i /\ i < length l) then x else rdn l j.
Proof.
  unfold rdn. rewrite !nth_lookup. destruct (decide (j = i /\ i < length l)) as [[-> Hl]|Hn].
  - by rewrite list_lookup_insert_eq.
  - destruct (decide (j = i)) as [->|Hne].
    + rewrite list_insert_ge by lia. done.
    + by rewrite list_lookup_insert_ne.
Qed.

Lemma rdn_for_loop_insert_const (x lo n : nat) (l : list nat) (i : nat) :
  rdn (for_loop lo n (fun ii r => <[ii := x]> r) l) i =
  if decide (lo <= i < lo + n /\ i < length l) then x else rdn l i.
Proof.
  revert lo l. induction n as [|n IH]; intros lo l; cbn [for_loop].
  - rewrite decide_False by lia. done.
  - rewrite IH, length_insert, rdn_insert_at.
    destruct (decide (S lo <= i < S lo + n /\ i < length l)) as [H1|H1].
    + rewrite decide_True by lia. done.
    + destruct (decide (i = lo /\ lo < length l)) as [[-> Hl]|Hn].
      * rewrite decide_True by lia. done.
      * rewrite decide_False by lia. done.
Qed.

Lemma length_for_loop_insert_const (x lo n : nat) (l : list nat) :
  length (for_loop lo n (fun ii r => <[ii := x]> r) l) = length l.
Proof.
  revert lo l. induction n as [|n IH]; intros lo l; cbn [for_loop]; [done|].
  by rewrite IH, length_insert.
Qed.

Lemma memmove_size_t_full (src : list nat) (n : nat) :
  memmove_size_t (calloc_size_t n) src n = map (rdn src) (seq 0 n).
Proof.
  unfold memmove_size_t, calloc_size_t. apply list_eq. intros i.
  destruct (decide (i < n)) as [Hi|Hi].
  - rewrite list_lookup_inserts;
      [f_equal; lia|rewrite length_map, length_seq; lia|rewrite length_replicate; lia].
  - rewrite list_lookup_inserts_ge by (rewrite length_map, length_seq; lia).
    rewrite (proj2 (lookup_ge_None (replicate n 0) i)) by (rewrite length_replicate; lia).
    symmetry. apply lookup_ge_None. rewrite length_map, length_seq. lia.
Qed.

Lemma rdn_map_seq (f : nat -> nat) (n i : nat) :
  rdn (map f (seq 0 n)) i = if decide (i < n) then f i else 0.
Proof.
  unfold rdn. rewrite nth_lookup, list_lookup_fmap. destruct (decide (i < n)).
  - by rewrite lookup_seq_lt.
  - by rewrite lookup_seq_ge by lia.
Qed.

Lemma rdn_case_ranks (d rank : nat) (rks : list nat) (i : nat) :
  length rks = d + 1 -> i <= d ->
  rdn (case_ranks d rank rks) i = if decide (i = 0 \/ i = d) then 1 else rank.
Proof.
  intros Hl Hi. unfold case_ranks.
  rewrite rdn_for_loop_insert_const, !length_insert, !rdn_insert_at, length_insert.
  destruct (decide (i = 0 \/ i = d)) as [[-> | ->]|Hn].
  - rewrite decide_False by lia. destruct (decide (0 = d)) as [<-|].
    + rewrite decide_True by lia. done.
    + rewrite decide_False by lia. rewrite decide_True by lia. done.
  - rewrite decide_False by lia. rewrite decide_True by lia. done.
  - rewrite decide_True by lia. done.
Qed.

Section CVGridFacts.
Context `{ops : Collaborators}.
Variable c3opt_set_maxiter : c3Opt -> nat -> c3Opt.
Variable multi_approx_opts_set_dim_nparams : MultiApproxOpts -> nat -> nat -> MultiApproxOpts.

Local Notation "'process'" :=
  (cv_case_process c3opt_set_maxiter multi_approx_opts_set_dim_nparams) (only parsing).

(** Whatever the case, the handle that [cv_case_process] returns has a
    freshly allocated parameterisation: every parameter is zero. *)
Lemma cv_case_process_zero (c : CVCase) (ftr : FTRegress) (optimizer : c3Opt)
    (ftr' : FTRegress) (optimizer' : c3Opt) :
  process c ftr optimizer = Returns (ftr', optimizer') ->
  params (ftr_ftp ftr') = replicate (nparams (ftr_ftp ftr')) 0%float.
Proof.
  unfold cv_case_process.
  destruct (for_loop_m 0 (cvc_onparam c) (cv_case_read c) _) as [s|?|]; [|done|done].
  cbn [mbind outcome_bind]. cbv zeta.
  destruct (up_reg_weight s =? 1)%Z.
  - unfold ft_regress_set_regularization_weight, with_regopts.
    destruct (regopts (ft_regress_reset_param _ _ _)); [|done].
    cbn [mbind outcome_bind]. intros [= <- _]. done.
  - cbn [mbind outcome_bind]. intros [= <- _]. done.
Qed.

(** X8. [cv_case_process] on a case that holds known parameters, for a
    handle whose parameterisation has the dimension of the handle.  If the
    case holds [reg_weight] and the handle has no options, the call stops at
    the assertion of [ft_regress_set_regularization_weight].  Otherwise it
    returns; the parameters of the handle are re-allocated and all zero,
    whatever the case holds; with [rank] in the case the ranks are one at
    both ends and the value between, and without it they are the ranks of
    the handle; [reg_weight] becomes the regularization weight,
    [opt_maxiter] is passed to [c3opt_set_maxiter], and [num_param] is set
    for every dimension of the approximation options of the
    parameterisation, which become those of the handle.  A name held twice
    counts with its last value. *)
Theorem cv_case_process_applies_case (names : list string) (vs : list RawVal)
    (ftr : FTRegress) (optimizer : c3Opt) :
  Forall (fun n => n ∈ reg_param_names) names ->
  length vs = length names ->
  ftp_dim (ftr_ftp ftr) = ftr_dim ftr ->
  match case_value "reg_weight" names vs, regopts ftr with
  | Some _, None =>
      process (case_of names vs) ftr optimizer = Exits "assert (opts->regopts != NULL)"
  | w, _ =>
      exists ftr',
        process (case_of names vs) ftr optimizer =
          Returns (ftr',
                   match case_value "opt_maxiter" names vs with
                   | Some v => c3opt_set_maxiter optimizer (raw_size_t v)
                   | None => optimizer
                   end) /\
        params (ftr_ftp ftr') = replicate (nparams (ftr_ftp ftr')) 0%float /\
        length (ranks (ftp_ft (ftr_ftp ftr'))) = ftr_dim ftr + 1 /\
        (forall i, i <= ftr_dim ftr ->
           rdn (ranks (ftp_ft (ftr_ftp ftr'))) i =
             match case_value "rank" names vs with
             | Some v => if decide (i = 0 \/ i = ftr_dim ftr) then 1 else raw_size_t v
             | None => rdn (ranks (ftp_ft (ftr_ftp ftr))) i
             end) /\
        ftr_approx_opts ftr' =
          match case_value "num_param" names vs with
          | Some v =>
              for_loop 0 (ftr_dim ftr)
                (fun ii a => multi_approx_opts_set_dim_nparams a ii (raw_size_t v))
                (approx_opts (ftr_ftp ftr))
          | None => approx_opts (ftr_ftp ftr)
          end /\
        approx_opts (ftr_ftp ftr') = ftr_approx_opts ftr' /\
        regopts ftr' =
          match w with
          | Some v =>
              (fun o => regress_opts_set_regularization_weight o (raw_double v)) <$>
                regopts ftr
          | None => regopts ftr
          end
  end.
Proof.
  intros Hnames Hlen Hdim.
  assert (Hloop : for_loop_m 0 (cvc_onparam (case_of names vs))
                    (cv_case_read (case_of names vs)) (mkCaseVals 0 0 0 0 0 0%float 0 0) =
                  Returns (settings_of names vs (mkCaseVals 0 0 0 0 0 0%float 0 0))).
  { cbn [case_of cvc_onparam]. apply case_read_loop; [done|done|].
    intros k n v Hk Hv. cbn [case_of cvc_params]. rewrite Nat.add_0_l.
    rewrite list_lookup_fmap, lookup_zip_with, Hk. cbn. by rewrite Hv. }
  unfold cv_case_process. rewrite Hloop. cbn [mbind outcome_bind]. cbv zeta.
  unfold settings_of. cbv zeta.
  cbn [up_rank cv_rank up_num_param cv_num_param up_reg_weight nrw up_maxiter cv_maxiter].
  unfold function_train_get_ranks. rewrite memmove_size_t_full.
  set (ranks1 := if (_ =? 1)%Z then case_ranks _ _ _ else _).
  set (aopts := if (_ =? 1)%Z then for_loop _ _ _ _ else _).
  assert (Hr1 : length ranks1 = ftr_dim ftr + 1 /\
                forall i, i <= ftr_dim ftr ->
                  rdn ranks1 i =
                    match case_value "rank" names vs with
                    | Some v => if decide (i = 0 \/ i = ftr_dim ftr) then 1 else raw_size_t v
                    | None => rdn (ranks (ftp_ft (ftr_ftp ftr))) i
                    end).
  { unfold ranks1. rewrite Hdim.
    destruct (case_value "rank" names vs) as [v|]; cbn [Z.eqb Pos.eqb from_option].
    - split.
      + unfold case_ranks. rewrite length_for_loop_insert_const, !length_insert.
        by rewrite length_map, length_seq.
      + intros i Hi. apply rdn_case_ranks; [|done]. by rewrite length_map, length_seq.
    - split; [by rewrite length_map, length_seq|].
      intros i Hi. rewrite rdn_map_seq. rewrite decide_True by lia. done. }
  destruct Hr1 as [Hr1len Hr1].
  assert (Haopts : aopts =
            match case_value "num_param" names vs with
            | Some v =>
                for_loop 0 (ftr_dim ftr)
                  (fun ii a => multi_approx_opts_set_dim_nparams a ii (raw_size_t v))
                  (approx_opts (ftr_ftp ftr))
            | None => approx_opts (ftr_ftp ftr)
            end).
  { unfold aopts. rewrite Hdim. by destruct (case_value "num_param" names vs). }
  assert (Hranks : ranks (ftp_ft (ftr_ftp (ft_regress_reset_param ftr aopts ranks1))) = ranks1).
  { unfold ft_regress_reset_param, ft_param_alloc, function_train_zeros.
    cbn [ftr_ftp set_ftr_ftp ftp_ft ranks ftr_dim].
    rewrite take_app_length' by done. done. }
  assert (Hopt : (if ((if case_value "opt_maxiter" names vs is Some _ then 1 else 0) =? 1)%Z
                  then c3opt_set_maxiter optimizer
                         (from_option raw_size_t 0 (case_value "opt_maxiter" names vs))
                  else optimizer) =
                 match case_value "opt_maxiter" names vs with
                 | Some v => c3opt_set_maxiter optimizer (raw_size_t v)
                 | None => optimizer
                 end).
  { by destruct (case_value "opt_maxiter" names vs). }
  rewrite Hopt.
  destruct (case_value "reg_weight" names vs) as [w|] eqn:Hw; cbn [Z.eqb from_option].
  - unfold ft_regress_set_regularization_weight, with_regopts.
    cbn [regopts ft_regress_reset_param set_ftr_ftp].
    destruct (regopts ftr) as [o|] eqn:Ho; [|done].
    cbn [mbind outcome_bind]. eexists. split; [done|].
    cbn [ftr_ftp set_regopts ftr_approx_opts regopts].
    split; [done|]. rewrite Hranks. split; [done|]. split; [done|].
    split; [exact Haopts|]. split; [|done].
    unfold ft_regress_reset_param. cbn [ftr_ftp set_ftr_ftp]. done.
  - cbn [mbind outcome_bind].
    assert (Hgoal : exists ftr',
      Returns (ft_regress_reset_param ftr aopts ranks1,
               match case_value "opt_maxiter" names vs with
               | Some v => c3opt_set_maxiter optimizer (raw_size_t v)
               | None => optimizer
               end) =
      Returns (ftr',
               match case_value "opt_maxiter" names vs with
               | Some v => c3opt_set_maxiter optimizer (raw_size_t v)
               | None => optimizer
               end) /\
      params (ftr_ftp ftr') = replicate (nparams (ftr_ftp ftr')) 0%float /\
      length (ranks (ftp_ft (ftr_ftp ftr'))) = ftr_dim ftr + 1 /\
      (forall i, i <= ftr_dim ftr ->
         rdn (ranks (ftp_ft (ftr_ftp ftr'))) i =
           match case_value "rank" names vs with
           | Some v => if decide (i = 0 \/ i = ftr_dim ftr) then 1 else raw_size_t v
           | None => rdn (ranks (ftp_ft (ftr_ftp ftr))) i
           end) /\
      ftr_approx_opts ftr' =
        match case_value "num_param" names vs with
        | Some v =>
            for_loop 0 (ftr_dim ftr)
              (fun ii a => multi_approx_opts_set_dim_nparams a ii (raw_size_t v))
              (approx_opts (ftr_ftp ftr))
        | None => approx_opts (ftr_ftp ftr)
        end /\
      approx_opts (ftr_ftp ftr') = ftr_approx_opts ftr' /\
      regopts ftr' = regopts ftr).
    { eexists. split; [done|]. split; [done|]. rewrite Hranks.
      split; [done|]. split; [done|]. split; [exact Haopts|]. done. }
    by destruct (regopts ftr).
Qed.

End CVGridFacts.

(** ** The choice of the best case *)

(** The scan [cross_validate_grid_opt] makes of the errors: the number of
    errors seen, the index of the best and its error. *)
Definition scan_step (s : nat * nat * double) (err : double) : nat * nat * double :=
  let '(iter, bestiter, besterr) := s in
  if (err <? besterr * 0.999999999)%float then (S iter, iter, err)
  else (S iter, bestiter, besterr).

Definition best_scan (errs : list double) : nat * nat * double :=
  fold_left scan_step errs (0, 0, DBL_MAX).

Lemma best_scan_snoc (errs : list double) (e : double) :
  best_scan (errs ++ [e]) = scan_step (best_scan errs) e.
Proof. unfold best_scan. by rewrite fold_left_app. Qed.

Lemma best_scan_spec (errs : list double) :
  exists bestiter besterr,
    best_scan errs = (length errs, bestiter, besterr) /\
    (forall j e, errs !! j = Some e -> bestiter < j ->
       (e <? besterr * 0.999999999)%float = false) /\
    (errs !! bestiter = Some besterr \/
     bestiter = 0 /\ besterr = DBL_MAX /\
     forall e, e ∈ errs -> (e <? DBL_MAX * 0.999999999)%float = false) /\
    (errs <> [] -> bestiter < length errs).
Proof.
  unfold double in *. induction errs as [|e errs IH] using rev_ind.
  - exists 0, DBL_MAX. split; [done|]. split; [done|]. split; [|done].
    right. split; [done|]. split; [done|]. intros e He. by apply elem_of_nil in He.
  - destruct IH as (bi & be & Hscan & Hlater & Hbest & Hlt).
    rewrite best_scan_snoc, Hscan. cbn [scan_step]. rewrite length_app. cbn [length].
    destruct (e <? be * 0.999999999)%float eqn:He.
    + exists (length errs), e. split; [f_equal; f_equal; lia|]. split; [|split].
      * intros j e' Hj Hgt. apply lookup_lt_Some in Hj. rewrite length_app in Hj.
        cbn in Hj. lia.
      * left. rewrite lookup_app_r by lia. by rewrite Nat.sub_diag.
      * intros _. lia.
    + exists bi, be. split; [f_equal; f_equal; lia|]. split; [|split].
      * intros j e' Hj Hgt. destruct (decide (j < length errs)) as [Hjl|Hjl].
        -- rewrite lookup_app_l in Hj by done. by eapply Hlater.
        -- rewrite lookup_app_r in Hj by lia.
           destruct (j - length errs) as [|k] eqn:Hk; cbn in Hj; [|done].
           by injection Hj as <-.
      * destruct Hbest as [Hb|(-> & -> & Hall)].
        -- left. apply lookup_app_l_Some. done.
        -- right. split; [done|]. split; [done|].
           intros e' [He'|He']%elem_of_app; [by apply Hall|].
           apply list_elem_of_singleton in He' as ->. done.
      * intros _. destruct errs as [|e0 errs]; [|specialize (Hlt ltac:(done)); lia].
        cbn in Hscan. injection Hscan as <- <-. cbn. lia.
Qed.

Section GridOptFacts.
Context `{ops : Collaborators}.
Variable c3opt_set_maxiter : c3Opt -> nat -> c3Opt.
Variable multi_approx_opts_set_dim_nparams : MultiApproxOpts -> nat -> nat -> MultiApproxOpts.
Variable regress_run :
  FTRegress -> c3Opt -> nat -> list double -> list double ->
  outcome (FTRegress * c3Opt * FunctionTrain).

Local Notation "'process'" :=
  (cv_case_process c3opt_set_maxiter multi_approx_opts_set_dim_nparams) (only parsing).
Local Notation "'walk'" :=
  (grid_walk c3opt_set_maxiter multi_approx_opts_set_dim_nparams regress_run)
  (only parsing).
Local Notation "'grid_opt'" :=
  (cross_validate_grid_opt c3opt_set_maxiter multi_approx_opts_set_dim_nparams regress_run)
  (only parsing).

Lemma grid_walk_scan (cv : CrossValidate) (temp : CVCList) (s s' : grid_state) :
  walk cv temp s = Returns s' ->
  exists errs,
    gs_errs s' = gs_errs s ++ errs /\ length errs = length temp /\
    (gs_iter s', gs_bestiter s', gs_besterr s') =
      fold_left scan_step errs (gs_iter s, gs_bestiter s, gs_besterr s).
Proof.
  revert s. induction temp as [|c next IH]; intros s; cbn [grid_walk].
  - intros [= <-]. exists []. by rewrite app_nil_r.
  - unfold grid_step at 1.
    destruct (cv_case_process _ _ c (gs_ftr s) (gs_optimizer s)) as [[ftr1 o1]|?|];
      [|done|done].
    cbn [mbind outcome_bind].
    destruct (cross_validate_run regress_run cv ftr1 o1) as [[[[err ftr2] o2] folds]|?|];
      [|done|done].
    cbn [mbind outcome_bind].
    destruct (err <? gs_besterr s * 0.999999999)%float eqn:He; cbn [mbind outcome_bind];
      intros Hw; apply IH in Hw as (errs & Herrs & Hlen & Hscan);
      cbn [gs_errs gs_iter gs_bestiter gs_besterr] in *;
      exists (err :: errs); (split; [by rewrite Herrs, <- app_assoc|]);
      (split; [cbn; lia|]); cbn [fold_left scan_step]; by rewrite He.
Qed.

(** X9. When [cross_validate_grid_opt] returns, the list of cases was not
    empty and one error was recorded per case; the index and the error of
    the best case are those of a left-to-right scan of the recorded errors
    that starts from [DBL_MAX] and moves to an error only if it is below
    [0.999999999] times the best so far: no later error passes that test
    against the best one, so of equal errors the one earlier in the list
    wins, and when no error passes the test at all (all of them NaN, say)
    the first case of the list is taken.  The handle returned is the one
    [cv_case_process] makes for the best case from the handle the last run
    left, so its parameters are all zero.  When the list of cases is empty
    the call ends in a dereference of [NULL]. *)
Theorem cross_validate_grid_opt_selects (cv : CrossValidate) (cvgrid : CVOptGrid)
    (ftr : FTRegress) (optimizer : c3Opt) :
  (forall ftr' optimizer' s,
     grid_opt cv cvgrid ftr optimizer = Returns (ftr', optimizer', s) ->
     exists cvlist c,
       cv_opt_grid_setup_cases cvgrid = Returns cvlist /\
       length (gs_errs s) = length cvlist /\
       (gs_iter s, gs_bestiter s, gs_besterr s) = best_scan (gs_errs s) /\
       cvlist !! gs_bestiter s = Some c /\
       process c (gs_ftr s) (gs_optimizer s) = Returns (ftr', optimizer') /\
       (forall j e, gs_errs s !! j = Some e -> gs_bestiter s < j ->
          (e <? gs_besterr s * 0.999999999)%float = false) /\
       (gs_errs s !! gs_bestiter s = Some (gs_besterr s) \/
        gs_bestiter s = 0 /\ gs_besterr s = DBL_MAX /\
        forall e, e ∈ gs_errs s -> (e <? DBL_MAX * 0.999999999)%float = false) /\
       params (ftr_ftp ftr') = replicate (nparams (ftr_ftp ftr')) 0%float) /\
  (cv_opt_grid_setup_cases cvgrid = Returns [] ->
   grid_opt cv cvgrid ftr optimizer = Exits "temp->cv: NULL dereference").
Proof.
  split.
  - intros ftr' optimizer' s. unfold cross_validate_grid_opt.
    destruct (cv_opt_grid_setup_cases cvgrid) as [cvlist|?|]; [|done|done].
    cbn [mbind outcome_bind].
    destruct (grid_walk _ _ _ cv cvlist _) as [s1|?|] eqn:Hwalk; [|done|done].
    cbn [mbind outcome_bind].
    destruct (drop (gs_bestiter s1) cvlist) as [|c rest] eqn:Hdrop; [done|].
    destruct (cv_case_process _ _ c (gs_ftr s1) (gs_optimizer s1)) as [[f' o']|?|] eqn:Hp;
      [|done|done].
    cbn [mbind outcome_bind]. intros [= <- <- <-].
    apply grid_walk_scan in Hwalk as (errs & Herrs & Hlen & Hscan).
    cbn [gs_errs gs_iter gs_bestiter gs_besterr app] in Herrs, Hscan.
    fold (best_scan errs) in Hscan. rewrite <- Herrs in Hscan, Hlen.
    destruct (best_scan_spec (gs_errs s1)) as (bi & be & Hbs & Hlater & Hbest & _).
    rewrite Hbs in Hscan. injection Hscan as Hit Hbi Hbe. subst bi be.
    exists cvlist, c. split; [done|]. split; [done|]. split; [by rewrite Hbs, Hit|].
    split.
    { pose proof (lookup_drop cvlist (gs_bestiter s1) 0) as Hl.
      rewrite Hdrop, Nat.add_0_r in Hl. symmetry. exact Hl. }
    split; [done|]. split; [done|]. split; [done|].
    by eapply cv_case_process_zero.
  - intros Hnil. unfold cross_validate_grid_opt. rewrite Hnil. done.
Qed.

End GridOptFacts.

(** ** The grid on a sample *)

(** A stand-in for [multi_approx_opts_set_dim_nparams]. *)
Definition sample_set_dim_nparams (a : MultiApproxOpts) (ii n : nat) : MultiApproxOpts :=
  mkAopts (<[ii := n]> (aopts_nparams a)) (aopts_linear a).

(** Two ranks and one regularization weight. *)
Definition sample_adds : list (string * list RawVal) :=
  [("rank"%string, [mkRaw 1 0%float 0; mkRaw 2 0%float 0]);
   ("reg_weight"%string, [mkRaw 0 0.5%float 0])].

Definition sample_grid : CVOptGrid :=
  mkCVOptGrid 2 [Some "rank"%string; Some "reg_weight"%string; None; None]
    [Some RPUINT; Some RPDBL] [2; 1]
    [Some [mkRaw 1 0%float 0; mkRaw 2 0%float 0]; Some [mkRaw 0 0.5%float 0]] 2 0.

Lemma known_names_sample :
  Forall (fun n => n ∈ reg_param_names) ["rank"%string; "reg_weight"%string].
Proof.
  unfold reg_param_names. repeat constructor; rewrite !elem_of_cons; auto.
Qed.

Lemma setup_cases_cartesian_witness :
  exists cases,
    grid_of 2 sample_adds = Returns sample_grid /\
    cv_opt_grid_setup_cases sample_grid = Returns cases /\
    cases =
      [case_of ["rank"; "reg_weight"]%string [mkRaw 2 0%float 0; mkRaw 0 0.5%float 0];
       case_of ["rank"; "reg_weight"]%string [mkRaw 1 0%float 0; mkRaw 0 0.5%float 0]] /\
    length cases = 2.
Proof.
  destruct (setup_cases_cartesian 2 sample_adds) as (cv & cases & Hg & Hs & Hc & Hl).
  - unfold sample_adds. repeat constructor; cbn; unfold reg_param_names;
      rewrite !elem_of_cons; auto.
  - cbn. lia.
  - unfold NRPARAM. cbn. lia.
  - assert (Hcv : cv = sample_grid).
    { assert (H : Returns cv = Returns sample_grid) by (rewrite <- Hg; reflexivity).
      by injection H. }
    subst cv. exists cases. split; [exact Hg|]. split; [exact Hs|].
    split; [rewrite Hc; reflexivity|]. apply Hl. cbn. lia.
Defined.

Lemma cv_case_process_applies_case_witness :
  exists ftr',
    @cv_case_process ops0 (fun o _ => o) sample_set_dim_nparams
      (case_of ["rank"; "reg_weight"]%string [mkRaw 3 0%float 0; mkRaw 0 0.5%float 0])
      (sample_handle [1; 1; 1] (Some [5; 6; 7; 8]%float) 0 10) tt = Returns (ftr', tt) /\
    params (ftr_ftp ftr') = replicate (nparams (ftr_ftp ftr')) 0%float /\
    ranks (ftp_ft (ftr_ftp ftr')) = [1; 3; 1] /\
    regularization_weight <$> regopts ftr' = Some 0.5%float.
Proof.
  pose proof (@cv_case_process_applies_case ops0 (fun o _ => o) sample_set_dim_nparams
                ["rank"; "reg_weight"]%string [mkRaw 3 0%float 0; mkRaw 0 0.5%float 0]
                (sample_handle [1; 1; 1] (Some [5; 6; 7; 8]%float) 0 10) tt
                known_names_sample eq_refl eq_refl) as H.
  cbn [case_value String.eqb Ascii.eqb Bool.eqb sample_handle regopts] in H.
  destruct H as (ftr' & Hp & Hz & _ & _ & _ & _ & Ho).
  exists ftr'. split; [exact Hp|]. split; [exact Hz|].
  pose proof Hp as Hp'. vm_compute in Hp'. injection Hp' as <-.
  split; reflexivity.
Defined.

Lemma cross_validate_grid_opt_selects_witness :
  exists ftr' s c,
    @cross_validate_grid_opt ops0 (fun o _ => o) sample_set_dim_nparams
      (@ft_regress_run ops0 1) (sample_cv 2) sample_grid
      (sample_handle [1; 1; 1] (Some [5; 6; 7; 8]%float) 0 10) tt = Returns (ftr', tt, s) /\
    length (gs_errs s) = 2 /\
    gs_bestiter s = 0 /\
    gs_errs s !! 1 = Some (gs_besterr s) /\
    @cv_case_process ops0 (fun o _ => o) sample_set_dim_nparams c (gs_ftr s)
      (gs_optimizer s) = Returns (ftr', tt) /\
    ranks (ftp_ft (ftr_ftp ftr')) = [1; 2; 1] /\
    params (ftr_ftp ftr') = replicate 8 0%float.
Proof.
  assert (Hrun : exists r,
            @cross_validate_grid_opt ops0 (fun o _ => o) sample_set_dim_nparams
              (@ft_regress_run ops0 1) (sample_cv 2) sample_grid
              (sample_handle [1; 1; 1] (Some [5; 6; 7; 8]%float) 0 10) tt = Returns r).
  { eexists. vm_compute. reflexivity. }
  destruct Hrun as [[[ftr' []] s] Hrun]. 
  destruct (proj1 (@cross_validate_grid_opt_selects ops0 (fun o _ => o)
                     sample_set_dim_nparams (@ft_regress_run ops0 1) (sample_cv 2)
                     sample_grid (sample_handle [1; 1; 1] (Some [5; 6; 7; 8]%float) 0 10)
                     tt) ftr' tt s Hrun)
    as (cvlist & c & _ & _ & _ & _ & Hp & _ & _ & _).
  exists ftr', s, c. split; [exact Hrun|].
  pose proof Hrun as Hrun'. vm_compute in Hrun'. injection Hrun' as <- <-.
  split; [reflexivity|]. split; [reflexivity|]. split; [reflexivity|].
  split; [exact Hp|]. split; reflexivity.
Defined.

(** * More of the regression drivers *)

(** ** An all-at-once run under rank restriction *)

Lemma rd_scatter_unflagged (m : list bool) (v r : list double) (j : nat) :
  nth j m true = false -> rd (scatter m v r) j = rd r j.
Proof.
  revert v r j. induction m as [|b m IH]; intros v r j Hj; [by destruct j|].
  destruct r as [|x r]; [done|]. destruct j as [|j]; cbn in Hj.
  - subst b. done.
  - destruct b; cbn; unfold rd in *; cbn; by apply IH.
Qed.

Lemma param_mask_same_shape (c : nat * nat * nat -> bool) (a b : FTparam) :
  same_shape a b -> param_mask c b = param_mask c a.
Proof.
  intros (Hd & Hu & _ & _ & _ & _ & _ & _ & Hr & _).
  unfold param_mask, rank_pairs. cbv zeta. by rewrite Hd, Hu, Hr.
Qed.

Section AioRestricted.
Context `{ops : Collaborators}.

(** The entries of the buffer outside the mask of the thresholds [rs] have
    the same values in [a] and [b], which have the same shape. *)
Definition inside_kept (rs : list nat) (a b : FTparam) : Prop :=
  same_shape a b /\
  forall j, nth j (param_mask (restricted_p rs) a) true = false ->
    rd (params b) j = rd (params a) j.

Lemma inside_kept_refl (rs : list nat) (a : FTparam) : inside_kept rs a a.
Proof. split; [apply same_shape_refl|done]. Qed.

Lemma inside_kept_trans (rs : list nat) (a b c : FTparam) :
  inside_kept rs a b -> inside_kept rs b c -> inside_kept rs a c.
Proof.
  intros [Hs1 H1] [Hs2 H2]. split; [by eapply same_shape_trans|].
  intros j Hj. rewrite H2, H1; [done|done|].
  by rewrite (param_mask_same_shape _ a b).
Qed.

Lemma inside_kept_update (rs : list nat) (ftp : FTparam) (p : list double) :
  length (params ftp) = nparams_of_funcs ftp ->
  inside_kept rs ftp (fst (ft_param_update_restricted_ranks ftp p rs)).
Proof.
  intros Hlen. split; [apply same_shape_update_restricted|].
  intros j Hj. rewrite update_restricted_loops. cbv zeta. cbn [fst params set_params].
  destruct (update_loops_spec (restricted_p rs) ftp p) as [-> _].
  - rewrite length_param_mask. lia.
  - by apply rd_scatter_unflagged.
Qed.

(** The state behind [args] along the calls of a restricted run. *)
Definition restricted_args (a b : PP) : Prop :=
  same_args a b /\
  (length (params (pp_ftp a)) = nparams_of_funcs (pp_ftp a) ->
   (restrict_ranksp (pp_opts a) =? 0)%Z = false ->
   inside_kept (restrict_rank_opt (pp_opts a)) (pp_ftp a) (pp_ftp b)).

Lemma nparams_of_funcs_same_shape (a b : FTparam) :
  same_shape a b -> nparams_of_funcs b = nparams_of_funcs a.
Proof.
  intros (Hd & Hu & _ & _ & _ & _ & _ & _ & Hr & _).
  unfold nparams_of_funcs, rank_pairs. cbv zeta. by rewrite Hd, Hu, Hr.
Qed.

Lemma restricted_args_trans (a b c : PP) :
  restricted_args a b -> restricted_args b c -> restricted_args a c.
Proof.
  intros [Hs1 H1] [Hs2 H2]. split; [by eapply same_args_trans|].
  intros Hlen Hr. destruct Hs1 as (Hsh & Ho & _).
  eapply inside_kept_trans; [by apply H1|]. rewrite <- Ho. apply H2.
  - rewrite (nparams_of_funcs_same_shape _ _ Hsh).
    destruct Hsh as (_ & _ & _ & _ & _ & _ & -> & _). done.
  - by rewrite Ho.
Qed.

Lemma minimize_aio_restricted_args (n : nat) (p : list double)
    (g g' : option (list double)) (pp pp' : PP) (v : double) :
  regress_opts_minimize_aio n p g pp = Returns (v, g', pp') -> restricted_args pp pp'.
Proof.
  intros Hf. split; [by eapply minimize_aio_same_args|]. intros Hlen Hr. revert Hf.
  unfold regress_opts_minimize_aio.
  destruct (for_loop_m 0 n _ ()) as [[]|dg|]; [|done|done].
  cbn [mbind outcome_bind]. rewrite Hr.
  destruct g as [g0|].
  - destruct (ft_param_eval_objective_aio_ls _ _ _ _ _ _)
      as [[[e gu] m3]|dg|]; [|done|done].
    cbn [mbind outcome_bind].
    destruct (isnan e); [done|]. destruct (isinf e); [done|].
    intros [= <- <- <-]. cbn. by apply inside_kept_update.
  - destruct (ft_param_eval_objective_aio _ _ _ _ _ _ _)
      as [[[e g2] m3]|dg|]; [|done|done].
    cbn [mbind outcome_bind].
    destruct (isnan e); [done|]. destruct (isinf e); [done|].
    intros [= <- <- <-]. cbn. by apply inside_kept_update.
Qed.

(** X10. An all-at-once run under rank restriction (some threshold is
    positive) never changes a parameter of a univariate function below the
    thresholds: whatever points the optimizer tries and wherever it ends,
    the entries of the parameter buffer outside the restricted set are at
    return what they were at entry, and the shape of the parameterisation
    is unchanged. *)
Theorem aio_restricted_run_keeps_inside (ftp : FTparam) (ropts : RegressOpts)
    (optimizer : c3Opt) (n : nat) (x y : list double) (ftp' : FTparam)
    (optimizer' : c3Opt) (f : FunctionTrain) :
  optimizer_calls_objective_only ->
  ftparam_wf ftp ->
  restrict_ranksp ropts = 1%Z ->
  c3_regression_run_aio ftp ropts optimizer n x y = Returns (ftp', optimizer', f) ->
  same_shape ftp ftp' /\
  forall j, nth j (param_mask (restricted_p (restrict_rank_opt ropts)) ftp) true = false ->
    rd (params ftp') j = rd (params ftp) j.
Proof.
  intros Hopt [Hlen Hn] Hr. unfold c3_regression_run_aio. rewrite Hr.
  change (1 =? 0)%Z with false. cbv iota.
  destruct (for_loop_m 0 _ _ ()) as [[]|dg|]; [|done|done].
  cbn [mbind outcome_bind].
  destruct (c3opt_minimize _ _ _ _ _) as [[[[[o res] guess'] val] pp']|dg|] eqn:Hmin;
    [|done|done].
  cbn [mbind outcome_bind]. intros [= <- <- <-].
  apply Hopt in Hmin.
  apply (objective_calls_preserve restricted_args) in Hmin.
  - destruct Hmin as [Hsame Hkept]. cbn [pp_ftp pp_opts] in Hkept.
    assert (Hk : inside_kept (restrict_rank_opt ropts) ftp (pp_ftp pp')).
    { apply Hkept; [congruence|by rewrite Hr]. }
    assert (Hk2 : inside_kept (restrict_rank_opt ropts) ftp
                    (fst (ft_param_update_restricted_ranks (pp_ftp pp') guess'
                            (restrict_rank_opt ropts)))).
    { eapply inside_kept_trans; [exact Hk|]. apply inside_kept_update.
      destruct Hk as [Hsh _]. rewrite (nparams_of_funcs_same_shape _ _ Hsh).
      destruct Hsh as (_ & _ & _ & _ & _ & _ & -> & _). congruence. }
    exact Hk2.
  - intros a. split; [apply same_args_refl|]. intros _ _. apply inside_kept_refl.
  - apply restricted_args_trans.
  - intros. by eapply minimize_aio_restricted_args.
Qed.

End AioRestricted.

(** ** The handle before and after an algorithm is chosen *)

Definition ft_regress_set_kfold (ftr : FTRegress) (k : nat) : FTRegress :=
  mkFTRegress (ftr_type ftr) (ftr_obj ftr) (ftr_dim ftr) (ftr_approx_opts ftr)
    (ftr_ftp ftr) (regopts ftr) (adapt ftr) (kickrank ftr) (maxrank ftr) (roundtol ftr) k
    (finalize ftr) (opt_restricted ftr).

Section HandleFacts.
Context `{ops : Collaborators}.

(** X11. A handle as [ft_regress_alloc] returns it has no options: every
    setter that reaches into the options, the getter of the regularization
    weight and [ft_regress_run] stop at the assertion [regopts != NULL].
    [ft_regress_set_alg_and_obj] exits for [REGNONE] or [REGOBJNONE] and
    otherwise installs the default options of [regress_opts_alloc] for the
    dimension of the handle and keeps the parameterisation; called on a
    handle that has options it replaces them, so a regularization weight
    set before is lost and the weight is [1e-10] again. *)
Theorem handle_options_lifecycle (d : nat) (aopts : MultiApproxOpts) (rks : list nat)
    (ty : REGTYPE) (ob : REGOBJ) :
  let fresh := ft_regress_alloc d aopts rks in
  (forall w, ft_regress_set_regularization_weight fresh w =
             Exits "assert (opts->regopts != NULL)") /\
  (forall tol, ft_regress_set_als_conv_tol fresh tol =
               Exits "assert (opts->regopts != NULL)") /\
  (forall m, ft_regress_set_max_als_sweep fresh m =
             Exits "assert (opts->regopts != NULL)") /\
  (forall v, ft_regress_set_verbose fresh v = Exits "assert (opts->regopts != NULL)") /\
  ft_regress_get_regularization_weight fresh = Exits "assert (opts->regopts != NULL)" /\
  (forall depth optimizer n x y,
     ft_regress_run (S depth) fresh optimizer n x y =
     Exits "assert (ftr->regopts != NULL)") /\
  (forall ftr,
     match ty, ob with
     | REGNONE, _ | _, REGOBJNONE =>
         exists diag, ft_regress_set_alg_and_obj ftr ty ob = Exits diag
     | _, _ =>
         exists ftr',
           ft_regress_set_alg_and_obj ftr ty ob = Returns ftr' /\
           regopts ftr' = Some (regress_opts_alloc (ftr_dim ftr) ty ob) /\
           ftr_type ftr' = ty /\ ftr_obj ftr' = ob /\
           ftr_ftp ftr' = ftr_ftp ftr /\
           ft_regress_get_regularization_weight ftr' = Returns 1e-10%float /\
           forall w,
             exists ftr1 ftr2,
               ft_regress_set_regularization_weight ftr' w = Returns ftr1 /\
               ft_regress_get_regularization_weight ftr1 = Returns w /\
               ft_regress_set_alg_and_obj ftr1 ty ob = Returns ftr2 /\
               ft_regress_get_regularization_weight ftr2 = Returns 1e-10%float
     end).
Proof.
  cbv zeta. repeat split; try done.
  intros ftr. destruct ty, ob; try (by eexists);
    (eexists; repeat split; try done; intros w; eexists _, _; repeat split; done).
Qed.

End HandleFacts.

(** ** The fold count of the handle *)

Section KfoldFacts.
Context `{ops : Collaborators}.

(** The result of a run with the fold count of the handle replaced. *)
Definition with_kfold (k : nat) (r : outcome (FTRegress * c3Opt * FunctionTrain))
    : outcome (FTRegress * c3Opt * FunctionTrain) :=
  match r with
  | Returns (ftr, optimizer, f) => Returns (ft_regress_set_kfold ftr k, optimizer, f)
  | Exits d => Exits d
  | Unfinished => Unfinished
  end.

Definition fold_with_kfold (k : nat) (fd : cv_fold) : cv_fold :=
  mkCvFold (fold_start fd) (fold_batch fd) (fold_ntrain fd) (fold_buffers fd)
    (ft_regress_set_kfold (fold_reg fd) k) (fold_ft fd) (fold_newerr fd) (fold_newnorm fd).

Definition cv_state_with_kfold (k : nat) (s : cv_state) : cv_state :=
  mkCvState (cvs_batch s) (cvs_start_num s) (cvs_erri s) (cvs_norm s)
    (ft_regress_set_kfold (cvs_reg s) k) (cvs_optimizer s) (cvs_buffers s)
    (fold_with_kfold k <$> cvs_folds s).

Definition adapt_state_with_kfold (k : nat) (s : adapt_state) : adapt_state :=
  mkAdaptState (ft_regress_set_kfold (ra_ftr s) k) (ra_optimizer s) (ra_ft s) (ra_ranks s)
    (ra_err s).

Definition cv_result_with_kfold (k : nat)
    (r : outcome (double * FTRegress * c3Opt * list cv_fold))
    : outcome (double * FTRegress * c3Opt * list cv_fold) :=
  match r with
  | Returns (err, reg, optimizer, folds) =>
      Returns (err, ft_regress_set_kfold reg k, optimizer, fold_with_kfold k <$> folds)
  | Exits d => Exits d
  | Unfinished => Unfinished
  end.

Definition iter_result_with_kfold (k : nat) (r : outcome (adapt_state * bool))
    : outcome (adapt_state * bool) :=
  match r with
  | Returns (s, go) => Returns (adapt_state_with_kfold k s, go)
  | Exits d => Exits d
  | Unfinished => Unfinished
  end.

Lemma for_loop_m_commute {St : Type} (T : St -> St) (body : nat -> St -> outcome St)
    (lo n : nat) (s : St) :
  (forall ii s, body ii (T s) = (s' ← body ii s; Returns (T s'))) ->
  for_loop_m lo n body (T s) = (s' ← for_loop_m lo n body s; Returns (T s')).
Proof.
  intros Hbody. revert lo s. induction n as [|n IH]; intros lo s; cbn [for_loop_m]; [done|].
  rewrite Hbody. destruct (body lo s) as [s1|?|]; cbn [mbind outcome_bind]; [|done|done].
  apply IH.
Qed.

Section KfoldNested.
Variable regress_run :
  FTRegress -> c3Opt -> nat -> list double -> list double ->
  outcome (FTRegress * c3Opt * FunctionTrain).
Variable k : nat.
Hypothesis regress_run_kfold :
  forall ftr optimizer n x y,
    regress_run (ft_regress_set_kfold ftr k) optimizer n x y =
    with_kfold k (regress_run ftr optimizer n x y).

Lemma cross_validate_fold_kfold (cv : CrossValidate) (prm : list double) (ii : nat)
    (s : cv_state) :
  cross_validate_fold regress_run cv prm ii (cv_state_with_kfold k s) =
  (s' ← cross_validate_fold regress_run cv prm ii s; Returns (cv_state_with_kfold k s')).
Proof.
  unfold cross_validate_fold. cbv zeta.
  cbn [cv_state_with_kfold cvs_reg cvs_optimizer cvs_buffers cvs_start_num cvs_batch
       cvs_erri cvs_norm cvs_folds].
  rewrite regress_run_kfold. unfold with_kfold.
  destruct (regress_run _ _ _ _ _) as [[[reg1 o1] f]|?|]; cbn [mbind outcome_bind];
    [|done|done].
  destruct (for_loop 0 _ _ _) as [newerr newnorm]. cbn [mbind outcome_bind].
  unfold cv_state_with_kfold. cbn. by rewrite fmap_app.
Qed.

Lemma cross_validate_run_kfold (cv : CrossValidate) (reg : FTRegress) (optimizer : c3Opt) :
  cross_validate_run regress_run cv (ft_regress_set_kfold reg k) optimizer =
  cv_result_with_kfold k (cross_validate_run regress_run cv reg optimizer).
Proof.
  unfold cv_result_with_kfold, cross_validate_run. destruct (cv_kfold cv =? 0); [done|]. cbv zeta.
  cbn [ft_regress_set_kfold ftr_ftp].
  match goal with
  | |- context [for_loop_m 0 ?n ?body (mkCvState ?b ?st ?e ?nm _ ?o ?bf [])] =>
      change (mkCvState b st e nm (ft_regress_set_kfold reg k) o bf [])
        with (cv_state_with_kfold k (mkCvState b st e nm reg o bf []));
      rewrite (for_loop_m_commute (cv_state_with_kfold k) body 0 n)
        by (intros; apply cross_validate_fold_kfold);
      destruct (for_loop_m 0 n body (mkCvState b st e nm reg o bf [])) as [s|?|]
  end; done.
Qed.

Lemma rankadapt_iter_kfold (cv : CrossValidate) (tol : double) (mx kick : nat)
    (opt_only_restricted : Z) (n : nat) (x y : list double) (s : adapt_state) :
  rankadapt_iter regress_run cv tol mx kick opt_only_restricted n x y
    (adapt_state_with_kfold k s) =
  iter_result_with_kfold k
    (rankadapt_iter regress_run cv tol mx kick opt_only_restricted n x y s).
Proof.
  unfold iter_result_with_kfold, rankadapt_iter. cbv zeta.
  cbn [adapt_state_with_kfold ra_ftr ra_ft ra_ranks ra_err ra_optimizer].
  change (ftr_restrict (ft_regress_set_kfold (ra_ftr s) k)) with (ftr_restrict (ra_ftr s)).
  change (approx_opts (ftr_ftp (ft_regress_set_kfold (ra_ftr s) k)))
    with (approx_opts (ftr_ftp (ra_ftr s))).
  set (kst := kick_ranks _ _ _ _ _).
  destruct ((kicked kst =? 0)%Z || _); [done|].
  match goal with
  | |- ?L = ?R =>
      match L with
      | context [cross_validate_run regress_run cv ?a (ra_optimizer s)] =>
          match R with
          | context [cross_validate_run regress_run cv ?b (ra_optimizer s)] =>
              replace a with (ft_regress_set_kfold b k)
                by (destruct (opt_only_restricted =? 1)%Z; reflexivity)
          end
      end
  end.
  rewrite cross_validate_run_kfold. unfold cv_result_with_kfold.
  destruct (cross_validate_run regress_run cv _ (ra_optimizer s))
    as [[[[new_err ftr4] o1] folds]|?|]; cbn [mbind outcome_bind]; [|done|done].
  destruct (ra_err s <? new_err)%float; cbn [mbind outcome_bind]; [done|].
  rewrite regress_run_kfold. unfold with_kfold.
  destruct (regress_run ftr4 o1 n x y) as [[[ftr5 o2] f']|?|]; done.
Qed.

Lemma rankadapt_loop_kfold (maxiter : nat) (cv : CrossValidate) (tol : double)
    (mx kick : nat) (opt_only_restricted : Z) (n : nat) (x y : list double)
    (s : adapt_state) :
  rankadapt_loop regress_run maxiter cv tol mx kick opt_only_restricted n x y
    (adapt_state_with_kfold k s) =
  (s' ← rankadapt_loop regress_run maxiter cv tol mx kick opt_only_restricted n x y s;
   Returns (adapt_state_with_kfold k s')).
Proof.
  revert s. induction maxiter as [|m IH]; intros s; cbn [rankadapt_loop]; [done|].
  rewrite rankadapt_iter_kfold. unfold iter_result_with_kfold.
  destruct (rankadapt_iter regress_run cv tol mx kick opt_only_restricted n x y s)
    as [[s' [|]]|?|]; cbn [mbind outcome_bind]; [apply IH|done|done|done].
Qed.

Lemma ft_regress_run_rankadapt_kfold (ftr : FTRegress) (tol : double) (mx kick : nat)
    (optimizer : c3Opt) (opt_only_restricted : Z) (n : nat) (x y : list double) (fin : Z) :
  ft_regress_run_rankadapt regress_run (ft_regress_set_kfold ftr k) tol mx kick optimizer
    opt_only_restricted n x y fin =
  with_kfold k
    (ft_regress_run_rankadapt regress_run ftr tol mx kick optimizer opt_only_restricted
       n x y fin).
Proof.
  unfold ft_regress_run_rankadapt. cbn [ft_regress_set_kfold regopts].
  destruct (regopts ftr); [|done]. cbv zeta.
  change (set_adapt (ft_regress_set_kfold ftr k) 0)
    with (ft_regress_set_kfold (set_adapt ftr 0) k).
  change (ftr_dim (ft_regress_set_kfold (set_adapt ftr 0) k)) with (ftr_dim (set_adapt ftr 0)).
  rewrite cross_validate_run_kfold. unfold cv_result_with_kfold, with_kfold.
  destruct (cross_validate_run regress_run _ (set_adapt ftr 0) optimizer)
    as [[[[err ftr1] o1] folds]|?|]; cbn [mbind outcome_bind]; [|done|done].
  rewrite regress_run_kfold. unfold with_kfold.
  destruct (regress_run ftr1 o1 n x y) as [[[ftr2 o2] f]|?|]; cbn [mbind outcome_bind];
    [|done|done].
  change (ftr_dim (ft_regress_set_kfold ftr2 k)) with (ftr_dim ftr2).
  match goal with
  | |- context [rankadapt_loop regress_run 10 ?cv tol mx kick opt_only_restricted n x y
                  (mkAdaptState (ft_regress_set_kfold ftr2 k) o2 f ?r err)] =>
      change (mkAdaptState (ft_regress_set_kfold ftr2 k) o2 f r err)
        with (adapt_state_with_kfold k (mkAdaptState ftr2 o2 f r err));
      rewrite rankadapt_loop_kfold;
      destruct (rankadapt_loop regress_run 10 cv tol mx kick opt_only_restricted n x y
                  (mkAdaptState ftr2 o2 f r err)) as [s|?|]
  end; cbn [mbind outcome_bind]; [|done|done].
  cbn [adapt_state_with_kfold ra_ftr ra_optimizer ra_ft].
  destruct (fin =? 1)%Z.
  - change (clear_restrict (ft_regress_set_kfold (ra_ftr s) k))
      with (ft_regress_set_kfold (clear_restrict (ra_ftr s)) k).
    rewrite regress_run_kfold. unfold with_kfold.
    destruct (regress_run (clear_restrict (ra_ftr s)) (ra_optimizer s) n x y)
      as [[[ftr3 o3] f']|?|]; done.
  - done.
Qed.

End KfoldNested.

(** X12. The fold count stored in the handle ([ft_regress_set_kfold], 3 by
    default) is never read: a run of [ft_regress_run] on a handle with
    another fold count does exactly what the run on the original handle
    does, exits included, and returns the same train, optimizer and handle
    but for that field.  The cross validation inside rank adaptation
    always uses five folds. *)
Theorem kfold_of_handle_is_never_read (depth : nat) (k : nat) (ftr : FTRegress)
    (optimizer : c3Opt) (n : nat) (x y : list double) :
  ft_regress_run depth (ft_regress_set_kfold ftr k) optimizer n x y =
  with_kfold k (ft_regress_run depth ftr optimizer n x y).
Proof.
  revert ftr optimizer n x y. induction depth as [|depth IH]; intros ftr optimizer n x y;
    cbn [ft_regress_run]; [done|].
  cbn [ft_regress_set_kfold regopts ftr_ftp]. destruct (regopts ftr) as [ro|]; [|done].
  cbv zeta.
  set (ftp1 := if (_ <=? _)%float then _ else _).
  change (set_ftr_ftp (ft_regress_set_kfold ftr k)
            (ftr_approx_opts (ft_regress_set_kfold ftr k)) ftp1)
    with (ft_regress_set_kfold (set_ftr_ftp ftr (ftr_approx_opts ftr) ftp1) k).
  set (ftr1 := set_ftr_ftp ftr (ftr_approx_opts ftr) ftp1).
  change (adapt (ft_regress_set_kfold ftr1 k)) with (adapt ftr1).
  destruct (adapt ftr1 =? 1)%Z.
  - cbn [ft_regress_set_kfold roundtol maxrank kickrank opt_restricted finalize].
    fold (ft_regress_set_kfold ftr1 k).
    apply ft_regress_run_rankadapt_kfold. exact IH.
  - unfold with_kfold.
    destruct (c3_regression_run ftp1 ro optimizer n x y) as [[[[ftp2 ro'] o'] f]|?|]; done.
Qed.

End KfoldFacts.

(** ** A restricted run on a sample *)

(** Ranks [1; 2; 1] with two parameters per function and parameters 1 to 8;
    with the thresholds [1; 0] the first function of core 0 is below them. *)
Definition sample_restricted_ftp : FTparam :=
  ft_param_alloc 2 example_aopts (Some [1; 2; 3; 4; 5; 6; 7; 8]%float) [1; 2; 1].

Definition sample_restricted_opts : RegressOpts :=
  set_restrict_rank_opt (regress_opts_alloc 2 AIO FTLS) [1; 0].

Lemma aio_restricted_run_keeps_inside_witness :
  exists ftp' f,
    @c3_regression_run_aio ops0 sample_restricted_ftp sample_restricted_opts tt 3 xs3 ys3 =
      Returns (ftp', tt, f) /\
    param_mask (restricted_p [1; 0]) sample_restricted_ftp =
      [false; false; true; true; true; true; true; true] /\
    params ftp' = [1; 2; 4; 5; 6; 7; 8; 9]%float /\
    rd (params ftp') 0 = rd (params sample_restricted_ftp) 0 /\
    rd (params ftp') 1 = rd (params sample_restricted_ftp) 1.
Proof.
  assert (Hrun : exists r,
            @c3_regression_run_aio ops0 sample_restricted_ftp sample_restricted_opts tt 3
              xs3 ys3 = Returns r).
  { eexists. vm_compute. reflexivity. }
  destruct Hrun as [[[ftp' []] f] Hrun].
  destruct (@aio_restricted_run_keeps_inside ops0 sample_restricted_ftp
              sample_restricted_opts tt 3 xs3 ys3 ftp' tt f) as [_ Hkeep].
  - apply one_call_objective_only.
  - split; reflexivity.
  - reflexivity.
  - exact Hrun.
  - exists ftp', f. split; [exact Hrun|]. split; [reflexivity|].
    split; [|split; apply Hkeep; reflexivity].
    pose proof Hrun as Hrun'. vm_compute in Hrun'. injection Hrun' as <- _. reflexivity.
Defined.

(** ** The core of the older alternating driver (lib_clinalg/regress.c) *)









(** ** Updating the parameters core by core *)

Lemma core_offset_S (ftp : FTparam) (c : nat) :
  core_offset ftp (S c) = core_offset ftp c + rdn (nparams_per_core ftp) c.
Proof. unfold core_offset. by rewrite for_loop_snoc. Qed.

Lemma core_offset_same_shape (a b : FTparam) (c : nat) :
  same_shape a b -> core_offset b c = core_offset a c.
Proof. intros (_ & _ & H & _). unfold core_offset. by rewrite H. Qed.

Lemma list_eq_rd (a b : list double) :
  length a = length b -> (forall j, j < length a -> rd a j = rd b j) -> a = b.
Proof.
  intros Hl Hrd. apply list_eq. intros j. destruct (decide (j < length a)) as [Hj|Hj].
  - specialize (Hrd j Hj). unfold rd in Hrd. rewrite !nth_lookup in Hrd.
    destruct (lookup_lt_is_Some_2 a j Hj) as [x Hx].
    destruct (lookup_lt_is_Some_2 b j ltac:(lia)) as [z Hz].
    rewrite Hx, Hz in *. cbn in Hrd. by subst.
  - rewrite (proj2 (lookup_ge_None a j)), (proj2 (lookup_ge_None b j)) by lia. done.
Qed.

(** The parameterisation after the cores below [c] were updated, each with
    its slice of [v]. *)
Definition update_cores (ftp : FTparam) (v : list double) (c : nat) : FTparam :=
  for_loop 0 c
    (fun ii f => ft_param_update_core_params f ii (drop (core_offset ftp ii) v)) ftp.

Lemma update_cores_spec (ftp : FTparam) (v : list double) (c : nat) :
  same_shape ftp (update_cores ftp v c) /\
  forall j,
    rd (params (update_cores ftp v c)) j =
    if decide (j < core_offset ftp c /\ j < length (params ftp)) then rd v j
    else rd (params ftp) j.
Proof.
  induction c as [|c [Hs IH]].
  - split; [apply same_shape_refl|]. intros j. rewrite decide_False; [done|].
    unfold core_offset. cbn. lia.
  - unfold update_cores in *. rewrite for_loop_snoc. cbn [Nat.add].
    set (f := for_loop 0 c _ ftp) in *. split.
    + eapply same_shape_trans; [exact Hs|apply same_shape_update_core].
    + intros j. unfold ft_param_update_core_params. cbn [params set_params].
      rewrite rd_memmove. fold (core_offset f c).
      rewrite (core_offset_same_shape ftp f c Hs), core_offset_S, IH.
      assert (Hnpc : nparams_per_core f = nparams_per_core ftp) by apply Hs.
      assert (Hlen : length (params f) = length (params ftp)) by apply Hs.
      rewrite Hnpc, Hlen, rd_drop.
      destruct (decide (core_offset ftp c <= j <
                        core_offset ftp c + rdn (nparams_per_core ftp) c /\
                        j < length (params ftp))) as [Hin|Hout].
      * rewrite decide_True by lia. f_equal. lia.
      * destruct (decide (j < core_offset ftp c /\ j < length (params ftp))).
        -- rewrite decide_True by lia. done.
        -- rewrite decide_False by lia. done.
Qed.

(** X14. The slices of the cores tile the parameter buffer: an update of
    one core with [ft_param_update_core_params] writes the entries from the
    offset of the core on, as many as the core has parameters, and leaves
    every other entry; and when the per-core counts add up to the length of
    the buffer, updating every core in turn with its slice of a vector [v]
    leaves the buffer that [ft_param_update_params] with [v] leaves. *)
Theorem core_updates_tile_the_buffer (ftp : FTparam) (v : list double) :
  length (params ftp) = nparams ftp ->
  core_offset ftp (ftp_dim ftp) = nparams ftp ->
  (forall c p j,
     rd (params (ft_param_update_core_params ftp c p)) j =
     if decide (core_offset ftp c <= j < core_offset ftp c + rdn (nparams_per_core ftp) c /\
                j < nparams ftp)
     then rd p (j - core_offset ftp c) else rd (params ftp) j) /\
  params (update_cores ftp v (ftp_dim ftp)) = params (ft_param_update_params ftp v).
Proof.
  intros Hlen Hsum. split.
  - intros c p j. unfold ft_param_update_core_params. cbn [params set_params].
    rewrite rd_memmove. fold (core_offset ftp c). rewrite Hlen. done.
  - destruct (update_cores_spec ftp v (ftp_dim ftp)) as [Hs Hrd].
    assert (Hl : length (params (update_cores ftp v (ftp_dim ftp))) = length (params ftp))
      by apply Hs.
    apply list_eq_rd.
    + unfold ft_param_update_params. cbn [params set_params]. by rewrite length_memmove.
    + intros j Hj. rewrite Hrd, Hsum. unfold ft_param_update_params.
      cbn [params set_params]. rewrite rd_memmove.
      destruct (decide (j < nparams ftp /\ j < length (params ftp))).
      * rewrite decide_True by lia. f_equal. lia.
      * lia.
Qed.

Lemma core_updates_tile_the_buffer_witness :
  params (update_cores example_ftp [1; 2; 3; 4; 5; 6; 7; 8]%float 2) =
    [1; 2; 3; 4; 5; 6; 7; 8]%float /\
  params (update_cores example_ftp [1; 2; 3; 4; 5; 6; 7; 8]%float 1) =
    [1; 2; 3; 4; 0; 0; 0; 0]%float.
Proof.
  split; [|reflexivity].
  exact (eq_trans
           (proj2 (core_updates_tile_the_buffer example_ftp [1; 2; 3; 4; 5; 6; 7; 8]%float
                     eq_refl eq_refl))
           eq_refl).
Defined.

(** ** Unknown names, full grids and full cases *)

Lemma read_raw_all (v : list RawVal) : read_raw v (length v) = v.
Proof. unfold read_raw. rewrite (map_seq_nth (fun x => x) v raw_zero). apply map_id. Qed.

(** The first [k] entries of an array of [n] are [l]; the others are as
    allocated. *)
Definition filled {A : Type} (n : nat) (l : list A) (d : A) : list A :=
  l ++ replicate (n - length l) d.

Lemma insert_filled {A : Type} (n : nat) (l : list A) (d x : A) :
  length l < n -> <[length l := x]> (filled n l d) = filled n (l ++ [x]) d.
Proof.
  intros Hl. unfold filled. rewrite length_app. cbn [length].
  rewrite insert_app_r_alt, Nat.sub_diag by lia.
  destruct (n - length l) as [|m] eqn:Hm; [lia|]. cbn.
  replace (n - (length l + 1)) with m by lia. by rewrite <- app_assoc.
Qed.

(** The grid after the parameters [adds] were added. *)
Definition grid_with (n : nat) (adds : list (string * list RawVal)) : CVOptGrid :=
  mkCVOptGrid n
    (filled NRPARAM ((fun a => Some (fst a)) <$> adds) None)
    (filled n ((fun a => Some (type_of_name (fst a))) <$> adds) None)
    (filled n ((fun a => length (snd a)) <$> adds) 0)
    (filled n ((fun a => Some (snd a)) <$> adds) None)
    (length adds) 0.

Lemma grid_of_snoc (n : nat) (adds : list (string * list RawVal)) (a : string * list RawVal) :
  grid_of n (adds ++ [a]) =
  (cv ← grid_of n adds; cv_opt_grid_add_param cv (fst a) (length (snd a)) (snd a)).
Proof. unfold grid_of. by rewrite fold_left_app. Qed.

Lemma grid_of_known (n : nat) (adds : list (string * list RawVal)) :
  Forall (fun a => fst a ∈ reg_param_names) adds ->
  length adds <= n -> length adds <= NRPARAM ->
  grid_of n adds = Returns (grid_with n adds).
Proof.
  induction adds as [|a adds IH] using rev_ind; intros Hk Hn Hr.
  - unfold grid_of, grid_with, filled, cv_opt_grid_init, calloc_size_t. cbn.
    by rewrite !Nat.sub_0_r.
  - apply Forall_app in Hk as [Hk Ha]. apply Forall_cons in Ha as [Ha _].
    rewrite length_app in Hn, Hr. cbn [length] in Hn, Hr.
    rewrite grid_of_snoc, IH by (first [done | lia]). cbn [mbind outcome_bind].
    rewrite add_param_known by (first [done | cbn [grid_with cvg_onparam ncvparam]; lia]).
    unfold grid_with. cbn [cvg_onparam ncvparam cvg_names cvg_types cvg_nvals cvg_params
      cvg_verbose].
    rewrite read_raw_all, !fmap_app, length_app. cbn [fmap list_fmap length].
    do 2 f_equal.
    + rewrite <- (length_fmap (fun a => Some (fst a)) adds) at 1.
      apply insert_filled. rewrite length_fmap. lia.
    + rewrite <- (length_fmap (fun a => Some (type_of_name (fst a))) adds) at 1.
      apply insert_filled. rewrite length_fmap. lia.
    + rewrite <- (length_fmap (fun a => length (snd a)) adds) at 1.
      apply insert_filled. rewrite length_fmap. lia.
    + rewrite <- (length_fmap (fun a => Some (snd a)) adds) at 1.
      apply insert_filled. rewrite length_fmap. lia.
    + lia.
Qed.

(** The index of the first entry of [names] equal to [name], counted from
    [ii], or [-1]. *)
Fixpoint first_index (names : list string) (ii : nat) (name : string) : Z :=
  match names with
  | [] => (-1)%Z
  | n :: rest => if String.eqb n name then Z.of_nat ii else first_index rest (S ii) name
  end.

Lemma cv_name_exists_from_spec (cvg : CVOptGrid) (pre names : list string)
    (rest : list (option string)) (name : string) :
  cvg_names cvg = (Some <$> pre) ++ (Some <$> names) ++ rest ->
  cv_name_exists_from cvg (length pre) (length names) name =
  Returns (first_index names (length pre) name).
Proof.
  revert pre. induction names as [|n names IH]; intros pre Hn; cbn [length
    cv_name_exists_from first_index]; [done|].
  unfold slot. rewrite Hn.
  rewrite lookup_app_r by (by rewrite length_fmap).
  rewrite length_fmap, Nat.sub_diag. cbn [fmap list_fmap app lookup list_lookup mbind
    outcome_bind].
  destruct (String.eqb n name); [done|].
  specialize (IH (pre ++ [n])). rewrite length_app in IH. cbn [length] in IH.
  rewrite Nat.add_1_r in IH. apply IH.
  rewrite Hn, fmap_app, <- app_assoc. done.
Qed.

(** X15. Errors of the grid interface.  [reg_parameter_alloc] returns for
    the four known names and terminates the process for every other name;
    [cv_case_add_param] terminates it on a case that is full.  On a grid
    that holds [ncvparam] parameters, one more [cv_opt_grid_add_param] of a
    known name terminates the process.  Names are not compared when a
    parameter is added; [cv_name_exists] returns the index of the first
    parameter added under a name, and [-1] when there is none. *)
Theorem grid_interface_errors (n : nat) (adds : list (string * list RawVal)) :
  Forall (fun a => fst a ∈ reg_param_names) adds ->
  length adds <= n -> length adds <= NRPARAM ->
  (forall name val,
     (name ∈ reg_param_names ->
      reg_parameter_alloc name val = Returns (reg_parameter_of name val)) /\
     (name ∉ reg_param_names ->
      reg_parameter_alloc name val = Exits "Regression parameter unknown")) /\
  (forall cv name val,
     cvc_onparam cv = cvc_nparam cv ->
     cv_case_add_param cv name val = Exits "Adding too many parameters to cv_case") /\
  grid_of n adds = Returns (grid_with n adds) /\
  (forall name nvals vals,
     name ∈ reg_param_names -> length adds = n ->
     cv_opt_grid_add_param (grid_with n adds) name nvals vals =
       Exits "Cannot add another parameter to cross validation") /\
  (forall name,
     cv_name_exists (grid_with n adds) name = Returns (first_index (fst <$> adds) 0 name)).
Proof.
  intros Hk Hn Hr. split; [|split; [|split; [|split]]].
  - intros name val. split.
    + by apply reg_parameter_alloc_known.
    + intros Hout. unfold reg_parameter_alloc, get_reg_ind. cbv zeta.
      by rewrite get_reg_ind_from_unknown.
  - intros cv name val Hfull. unfold cv_case_add_param. by rewrite Hfull, Nat.eqb_refl.
  - by apply grid_of_known.
  - intros name nvals vals Hname Hfull. unfold cv_opt_grid_add_param. cbv zeta.
    destruct (get_reg_ind_known name Hname) as (Hpos & _ & Hty).
    destruct (Z.ltb_spec (get_reg_ind name) 0) as [|_]; [lia|]. rewrite Hty.
    cbn [grid_with cvg_onparam ncvparam]. by rewrite Hfull, Nat.eqb_refl.
  - intros name. unfold cv_name_exists. cbn [grid_with cvg_onparam].
    rewrite <- (length_fmap fst adds).
    apply (cv_name_exists_from_spec _ [] (fst <$> adds)
             (replicate (NRPARAM - length adds) None)).
    cbn [grid_with cvg_names fmap list_fmap app]. unfold filled.
    rewrite length_fmap, <- list_fmap_compose. done.
Qed.

Lemma grid_interface_errors_witness :
  grid_of 2 sample_adds = Returns sample_grid /\
  cv_opt_grid_add_param sample_grid "rank" 1 [mkRaw 3 0%float 0] =
    Exits "Cannot add another parameter to cross validation" /\
  cv_name_exists sample_grid "reg_weight" = Returns 1%Z /\
  cv_name_exists sample_grid "num_param" = Returns (-1)%Z /\
  reg_parameter_alloc "ranks" (mkRaw 3 0%float 0) = Exits "Regression parameter unknown".
Proof.
  destruct (grid_interface_errors 2 sample_adds) as (Ha & _ & Hg & Hfull & Hex).
  - unfold sample_adds. repeat constructor; cbn; unfold reg_param_names;
      rewrite !elem_of_cons; auto.
  - cbn. lia.
  - unfold NRPARAM. cbn. lia.
  - split; [exact Hg|]. split.
    + apply (Hfull "rank"%string 1 [mkRaw 3 0%float 0]); [|reflexivity].
      unfold reg_param_names. rewrite !elem_of_cons. auto.
    + split; [apply (Hex "reg_weight"%string)|].
      split; [apply (Hex "num_param"%string)|].
      apply (Ha "ranks"%string). unfold reg_param_names.
      rewrite !not_elem_of_cons. repeat split; [done..|]. apply not_elem_of_nil.
Defined.
